(** * turso-migrate: the migration engine, embedded and verified

    A shallow embedding of [internal/migration/engine.go] and
    [internal/storage/turso.go].  Go strings are byte strings ([string]),
    Go's [int] is a 64-bit two's-complement integer carried as a [Z], the
    ledger table [schema_migrations] (primary key [version]) is a finite map,
    and the engine's effects (database calls, standard output, the clock) are
    threaded through an explicit world state. *)

From Stdlib Require Import ZArith NArith Ascii String List Bool Lia.
From stdpp Require Import base numbers strings list gmap sorting.

Local Open Scope stdpp_scope.

(** ** Results: Go's [(value, error)] pairs *)

(** A Go [error].  [ErrNotExist] is the [*PathError] the file system returns
    for a missing path, [Raw] any other leaf error (a driver error, a
    permission error, [fmt.Errorf] without [%w]), and [Wrap msg cause] is
    [fmt.Errorf(msg + ": %w", cause)]. *)
Inductive error : Type :=
| ErrNotExist (path : string)
| Raw (msg : string)
| Wrap (msg : string) (cause : error).

Definition result (A : Type) : Type := error + A.
Abbreviation Ok := (@inr error _).
Abbreviation Err := (@inl error _).

(** [err.Error()] *)
Fixpoint Error (e : error) : string :=
  match e with
  | ErrNotExist path => "lstat " +:+ path +:+ ": no such file or directory"
  | Raw msg => msg
  | Wrap msg cause => msg +:+ ": " +:+ Error cause
  end.

(** [errors.Unwrap] *)
Definition Unwrap (e : error) : option error :=
  match e with
  | Wrap _ cause => Some cause
  | _ => None
  end.

(** [os.IsNotExist]: looks at the error itself, it does not follow [%w]. *)
Definition IsNotExist (e : error) : bool :=
  match e with
  | ErrNotExist _ => true
  | _ => false
  end.

(** ** Package [strings] *)
Module GoStrings.

Definition byte_of (c : ascii) : N := N_of_ascii c.

(** Length in bytes, [len(s)]. *)
Fixpoint len (s : string) : N :=
  match s with
  | EmptyString => 0
  | String _ s' => N.succ (len s')
  end.

(** [strings.HasPrefix] *)
Definition HasPrefix (s pre : string) : bool := String.prefix pre s.

(** [strings.Contains]: [substr] occurs at some offset of [s]. *)
Fixpoint Contains (s substr : string) : bool :=
  String.prefix substr s ||
  match s with
  | EmptyString => false
  | String _ s' => Contains s' substr
  end.

(** [strings.HasSuffix], through the reversed strings. *)
Definition HasSuffix (s suffix : string) : bool :=
  String.prefix (String.rev suffix) (String.rev s).

(** [strings.CutPrefix]: [s] without the leading [pre], if it starts
    with it. *)
Fixpoint CutPrefix (s pre : string) {struct pre} : option string :=
  match pre, s with
  | EmptyString, _ => Some s
  | String a pre', String b s' => if Ascii.eqb a b then CutPrefix s' pre' else None
  | String _ _, EmptyString => None
  end.

(** [strings.CutSuffix], through the reversed strings. *)
Definition CutSuffix (s suffix : string) : option string :=
  String.rev <$> CutPrefix (String.rev s) (String.rev suffix).

(** [strings.Join(elems, sep)] *)
Definition Join (elems : list string) (sep : string) : string :=
  String.concat sep elems.

(** The ASCII white space of [strings.TrimSpace]:
    ['\t'], ['\n'], ['\v'], ['\f'], ['\r'], [' ']. *)
Definition asciiSpace (c : ascii) : bool :=
  let b := byte_of c in
  ((9 <=? b) && (b <=? 13) || (b =? 32))%N.

(** [unicode.IsSpace] on the runes that take two bytes in UTF-8:
    U+0085 (C2 85) and U+00A0 (C2 A0). *)
Definition space2 (c1 c2 : ascii) : bool :=
  ((byte_of c1 =? 194) && ((byte_of c2 =? 133) || (byte_of c2 =? 160)))%N.

(** [unicode.IsSpace] on the runes that take three bytes:
    U+1680 (E1 9A 80), U+2000..U+200A (E2 80 80..8A), U+2028, U+2029
    (E2 80 A8, A9), U+202F (E2 80 AF), U+205F (E2 81 9F), U+3000
    (E3 80 80). *)
Definition space3 (c1 c2 c3 : ascii) : bool :=
  let b1 := byte_of c1 in
  let b2 := byte_of c2 in
  let b3 := byte_of c3 in
  ((b1 =? 225) && (b2 =? 154) && (b3 =? 128)
   || (b1 =? 226) && (b2 =? 128) &&
      ((128 <=? b3) && (b3 <=? 138) || (b3 =? 168) || (b3 =? 169) || (b3 =? 175))
   || (b1 =? 226) && (b2 =? 129) && (b3 =? 159)
   || (b1 =? 227) && (b2 =? 128) && (b3 =? 128))%N.

(** Strip the leading white-space runes.  [flip] tells that the string is
    read backwards (last byte first), so that the bytes of a rune arrive in
    reverse order. *)
Fixpoint trimRunes (flip : bool) (s : string) : string :=
  match s with
  | String c1 s1 =>
      if asciiSpace c1 then trimRunes flip s1
      else
        match s1 with
        | String c2 s2 =>
            if (if flip then space2 c2 c1 else space2 c1 c2)
            then trimRunes flip s2
            else
              match s2 with
              | String c3 s3 =>
                  if (if flip then space3 c3 c2 c1 else space3 c1 c2 c3)
                  then trimRunes flip s3
                  else s
              | EmptyString => s
              end
        | EmptyString => s
        end
  | EmptyString => s
  end.

Definition TrimLeftSpace (s : string) : string := trimRunes false s.
Definition TrimRightSpace (s : string) : string :=
  String.rev (trimRunes true (String.rev s)).

(** [strings.TrimSpace]: leading and trailing Unicode white space removed. *)
Definition TrimSpace (s : string) : string :=
  TrimRightSpace (TrimLeftSpace s).

(** The leading bytes [c] removed. *)
Fixpoint trimLeftByte (s : string) (c : ascii) : string :=
  match s with
  | String a s' => if Ascii.eqb a c then trimLeftByte s' c else s
  | EmptyString => EmptyString
  end.

(** [strings.Trim(s, cutset)] for a cutset of the one ASCII byte [c]:
    every leading and every trailing [c] removed. *)
Definition Trim (s : string) (c : ascii) : string :=
  String.rev (trimLeftByte (String.rev (trimLeftByte s c)) c).

End GoStrings.

(** ** Package [bufio]: [Scanner] with the default [ScanLines] split *)
Module Bufio.
Import GoStrings.

Definition newline : ascii := "010"%char.
Definition carriage_return : ascii := "013"%char.

(** [bufio.MaxScanTokenSize], the size the scanner's buffer grows to. *)
Definition MaxScanTokenSize : N := 65536.

(** The lines of the input as [ScanLines] delimits them: every line ended
    by ['\n'], then the unterminated rest when it is not empty. *)
Fixpoint rawLines (s : string) : list string :=
  match s with
  | EmptyString => []
  | String c s' =>
      if Ascii.eqb c newline then EmptyString :: rawLines s'
      else
        match rawLines s' with
        | [] => [String c EmptyString]
        | l :: ls => String c l :: ls
        end
  end.

(** [dropCR]: one trailing ['\r'] is removed from a token. *)
Fixpoint dropCR (data : string) : string :=
  match data with
  | EmptyString => EmptyString
  | String c EmptyString =>
      if Ascii.eqb c carriage_return then EmptyString else data
  | String c rest => String c (dropCR rest)
  end.

(** A line fits the buffer when its bytes, and the newline that ends it,
    take at most [MaxScanTokenSize] bytes; an unterminated last line has to
    leave one byte free for the scanner to see the end of input. *)
Definition fits (line : string) : bool := (len line <? MaxScanTokenSize)%N.

(** The tokens successive calls of [Scan] yield.  At the first line that
    does not fit, [Scan] returns false (the scanner's error is
    [ErrTooLong]) and the loop over [Scan] ends. *)
Fixpoint scanWhileFits (lines : list string) : list string :=
  match lines with
  | [] => []
  | l :: ls => if fits l then dropCR l :: scanWhileFits ls else []
  end.

Definition Scan (content : string) : list string :=
  scanWhileFits (rawLines content).

(** [scanner.Err()] after the loop (the engine never reads it). *)
Definition ScanErr (content : string) : bool :=
  negb (forallb fits (rawLines content)).

End Bufio.

(** ** Package [path/filepath] *)
Module Filepath.

Definition slash : ascii := "/"%char.

Fixpoint dropSlashes (s : string) : string :=
  match s with
  | String c s' => if Ascii.eqb c slash then dropSlashes s' else s
  | EmptyString => EmptyString
  end.

Fixpoint untilSlash (s : string) : string :=
  match s with
  | String c s' => if Ascii.eqb c slash then EmptyString else String c (untilSlash s')
  | EmptyString => EmptyString
  end.

(** [filepath.Base]: the last element of the path, trailing slashes
    removed; ["."] for the empty path, ["/"] for a path of slashes. *)
Definition Base (path : string) : string :=
  if String.eqb path "" then "."
  else
    let elem := String.rev (untilSlash (dropSlashes (String.rev path))) in
    if String.eqb elem "" then "/" else elem.

(** [filepath.Join(dir, name)] for the name of an entry of [dir].  [Join]
    cleans what it returns, so [dir] stands in cleaned form: below a root
    given as [./migrations] the paths read [migrations/...]. *)
Definition Join (dir name : string) : string :=
  if String.eqb dir "." then name
  else if String.eqb dir "/" then "/" +:+ name
  else dir +:+ "/" +:+ name.

#[local] Set Warnings "-register-all".

(** What is found at a path.  A directory holds its entries as
    [os.ReadDir] lists them (sorted by name); the [Denied] nodes are a
    file [os.ReadFile] fails on and a directory [os.ReadDir] fails on. *)
Inductive node : Type :=
| File (content : string)
| FileDenied (err : error)
| Dir (entries : list (string * node))
| DirDenied (err : error).

(** [d.IsDir()] *)
Definition IsDir (d : node) : bool :=
  match d with
  | Dir _ | DirDenied _ => true
  | File _ | FileDenied _ => false
  end.

(** [os.ReadFile] *)
Definition ReadFile (d : node) : result string :=
  match d with
  | File content => Ok content
  | FileDenied err => Err err
  | Dir _ | DirDenied _ => Err (Raw "is a directory")
  end.

(** One call of the function [WalkDir] is given: [fn(path, d, nil)] on
    reaching an entry, [fn(path, d, err)] when [os.Lstat] of the root or
    [os.ReadDir] of a directory failed. *)
Inductive visit : Type :=
| Reached (path : string) (d : node)
| Failed (path : string) (err : error).

(** The calls [walkDir] makes below [path], in order, for a function that
    returns nil on each of them. *)
Fixpoint walkDir (path : string) (d : node) : list visit :=
  Reached path d ::
  match d with
  | Dir entries =>
      (fix children (es : list (string * node)) : list visit :=
         match es with
         | [] => []
         | (name, d1) :: es' => walkDir (Join path name) d1 ++ children es'
         end) entries
  | DirDenied err => [Failed path err]
  | File _ | FileDenied _ => []
  end.

(** [root] is the path walked, [fs] what [os.Lstat(root)] finds there. *)
Definition visits (root : string) (fs : result node) : list visit :=
  match fs with
  | inl err => [Failed root err]
  | inr d => walkDir root d
  end.

(** [filepath.WalkDir(root, fn)] for a function that never answers
    [SkipDir] or [SkipAll]: the calls are made in order until one returns
    an error, which [WalkDir] returns.  The function's captured variables
    are the accumulator [acc]. *)
Fixpoint walkWith {A} (fn : A -> visit -> result A) (vs : list visit) (acc : A)
  : result A :=
  match vs with
  | [] => Ok acc
  | v :: vs' =>
      match fn acc v with
      | inl err => Err err
      | inr acc' => walkWith fn vs' acc'
      end
  end.

Definition WalkDir {A} (root : string) (fs : result node)
    (fn : A -> visit -> result A) (acc : A) : result A :=
  walkWith fn (visits root fs) acc.

(** [os.WriteFile] of a file [name] in a directory listed as [entries]: a
    regular file of that name is truncated and written, a missing one is
    created and listed at its place in the sorted listing; [None] when the
    name is that of a directory. *)
Fixpoint writeEntry (name content : string) (entries : list (string * node))
    : option (list (string * node)) :=
  match entries with
  | [] => Some [(name, File content)]
  | (n, d) :: rest =>
      if String.eqb n name then
        match d with
        | File _ => Some ((n, File content) :: rest)
        | FileDenied _ => Some ((n, d) :: rest)
        | Dir _ | DirDenied _ => None
        end
      else if String.ltb name n then Some ((name, File content) :: entries)
      else
        match writeEntry name content rest with
        | Some rest' => Some ((n, d) :: rest')
        | None => None
        end
  end.

(** What the tree does not tell: [mkdirErr path] is the error of creating
    the missing directory [path] with its parents.  [writeErr path] is the
    error [os.WriteFile] meets on [path], when there is one, and how far it
    got: [None] beside the error of [OpenFile], which is returned at once
    and changes nothing; [Some n] beside an error of [Write] or [Close],
    met after the file was created or truncated and [n] bytes of the data
    were written. *)
Record Access : Type := mkAccess {
  mkdirErr : string → option error;
  writeErr : string → option (error * option nat)
}.

End Filepath.

(** ** Package [regexp]: the one expression of the engine *)
Module Regexp.
Import GoStrings.

(** [\d] *)
Definition isDigit (c : ascii) : bool :=
  ((48 <=? byte_of c) && (byte_of c <=? 57))%N.

(** [.] (no [s] flag: any character but a newline) *)
Definition isDot (c : ascii) : bool := negb (Ascii.eqb c "010"%char).

Fixpoint all (p : ascii -> bool) (s : string) : bool :=
  match s with
  | EmptyString => true
  | String c s' => p c && all p s'
  end.

(** The longest prefix of digits and what follows it. *)
Fixpoint spanDigits (s : string) : string * string :=
  match s with
  | String c s' =>
      if isDigit c then
        let (ds, rest) := spanDigits s' in (String c ds, rest)
      else (EmptyString, s)
  | EmptyString => (EmptyString, EmptyString)
  end.

(** [s] without its last four bytes when they are [".sql"]. *)
Definition trimDotSql (s : string) : option string := CutSuffix s ".sql".

(** [regexp.MustCompile(`^(\d+)_(.+)\.sql$`).FindStringSubmatch(filename)]:
    the two groups of the match, if there is one.  The first group is
    followed by ['_'], which is no digit, so it is the longest prefix of
    digits; the second is what lies between that ['_'] and the final
    [".sql"]. *)
Definition FindStringSubmatch (filename : string) : option (string * string) :=
  match spanDigits filename with
  | (String d ds, String "_" tail) =>
      match trimDotSql tail with
      | Some (String n ns) =>
          if all isDot (String n ns) then Some (String d ds, String n ns)
          else None
      | _ => None
      end
  | _ => None
  end.

(** The grammar itself: [filename = version ++ "_" ++ name ++ ".sql"] with
    [version] in [\d+] and [name] in [.+]. *)
Definition matchesGrammar (filename version name : string) : Prop :=
  filename = version +:+ "_" +:+ name +:+ ".sql" ∧
  version ≠ "" ∧ all isDigit version = true ∧
  name ≠ "" ∧ all isDot name = true.

(** A continuation byte of UTF-8. *)
Definition cont (c : ascii) : bool :=
  ((128 <=? byte_of c) && (byte_of c <=? 191))%N.

(** The bytes the rune at the head of [s] takes, as
    [utf8.DecodeRuneInString] reads it: a well-formed sequence of two,
    three or four bytes, and one byte otherwise (an ASCII byte, or a byte
    that starts no well-formed sequence and is read as U+FFFD). *)
Definition runeWidth (s : string) : nat :=
  match s with
  | String c0 (String c1 rest) =>
      let b0 := byte_of c0 in
      let b1 := byte_of c1 in
      if ((194 <=? b0) && (b0 <=? 223))%N then
        if cont c1 then 2 else 1
      else if ((224 <=? b0) && (b0 <=? 239))%N then
        let lo := if (b0 =? 224)%N then 160%N else 128%N in
        let hi := if (b0 =? 237)%N then 159%N else 191%N in
        if ((lo <=? b1) && (b1 <=? hi))%N then
          match rest with
          | String c2 _ => if cont c2 then 3 else 1
          | EmptyString => 1
          end
        else 1
      else if ((240 <=? b0) && (b0 <=? 244))%N then
        let lo := if (b0 =? 240)%N then 144%N else 128%N in
        let hi := if (b0 =? 244)%N then 143%N else 191%N in
        if ((lo <=? b1) && (b1 <=? hi))%N then
          match rest with
          | String c2 (String c3 _) => if cont c2 && cont c3 then 4 else 1
          | _ => 1
          end
        else 1
      else 1
  | _ => 1
  end.

(** [[a-zA-Z0-9_]] *)
Definition isWord (c : ascii) : bool :=
  let b := byte_of c in
  ((97 <=? b) && (b <=? 122) || (65 <=? b) && (b <=? 90)
   || (48 <=? b) && (b <=? 57) || (b =? 95))%N.

Definition underscore : ascii := "_"%char.

(** [regexp.MustCompile(`[^a-zA-Z0-9_]`).ReplaceAllString(s, "_")]: every
    rune outside the class becomes one ['_'].  [skip] counts the bytes
    still to pass of a rune that was replaced. *)
Fixpoint replaceNonWord (skip : nat) (s : string) : string :=
  match s with
  | EmptyString => EmptyString
  | String c s' =>
      match skip with
      | S skip' => replaceNonWord skip' s'
      | O =>
          if isWord c then String c (replaceNonWord 0 s')
          else String underscore (replaceNonWord (runeWidth s - 1) s')
      end
  end.

(** [regexp.MustCompile(`_+`).ReplaceAllString(s, "_")]: of a run of
    ['_'] only the last is kept. *)
Fixpoint squeezeUnderscores (s : string) : string :=
  match s with
  | EmptyString => EmptyString
  | String c s' =>
      if Ascii.eqb c underscore && HasPrefix s' "_" then squeezeUnderscores s'
      else String c (squeezeUnderscores s')
  end.

End Regexp.

(** ** Package [sort] *)
Module Sort.

Section Slice.
Context {A : Type} (less : A → A → bool).

(** The inner loop of the insertion sort: [x] moves left past the
    elements it is less than. *)
Fixpoint insert (x : A) (sorted : list A) : list A :=
  match sorted with
  | [] => [x]
  | y :: rest => if less x y then x :: y :: rest else y :: insert x rest
  end.

(** [sort.Slice(data, less)].  On at most twelve elements Go runs this
    very insertion sort; on more it runs pattern-defeating quicksort,
    whose result differs at most in the order of elements neither of
    which is less than the other. *)
Definition Slice (data : list A) : list A :=
  fold_left (λ sorted x, insert x sorted) data [].
End Slice.

End Sort.

(** ** Package [strconv] *)
Module Strconv.
Import GoStrings Regexp.

Definition maxInt : Z := 2 ^ 63 - 1.
Definition minInt : Z := - 2 ^ 63.

(** The value of a string of decimal digits, read from the left. *)
Fixpoint parseDigits (acc : Z) (s : string) : option Z :=
  match s with
  | EmptyString => Some acc
  | String c s' =>
      if isDigit c then parseDigits (acc * 10 + (Z.of_N (byte_of c) - 48)) s'
      else None
  end.

Definition ErrSyntax : error := Raw "invalid syntax".
Definition ErrRange : error := Raw "value out of range".

(** [strconv.Atoi]: an optional sign, then digits only, and a value that
    fits [int]. *)
Definition Atoi (s : string) : result Z :=
  let '(neg, body) :=
    match s with
    | String "-" s' => (true, s')
    | String "+" s' => (false, s')
    | _ => (false, s)
    end in
  match body with
  | EmptyString => Err ErrSyntax
  | _ =>
      match parseDigits 0 body with
      | None => Err ErrSyntax
      | Some n =>
          let v := if neg : bool then (- n)%Z else n in
          if ((minInt <=? v) && (v <=? maxInt))%Z then Ok v else Err ErrRange
      end
  end.

End Strconv.

(** ** Package [fmt]: the verbs [%d] and [%03d] *)
Module Fmt.
Import GoStrings.

Definition digit (u : Z) : ascii := ascii_of_N (Z.to_N (48 + u)).

(** [fmtInteger]'s loop: the decimal digits of [u], written from the right
    into the buffer.  A 64-bit value has at most twenty digits. *)
Fixpoint digitsInto (fuel : nat) (u : Z) (buf : string) : string :=
  match fuel with
  | O => buf
  | S fuel' =>
      if (u <? 10)%Z then String (digit u) buf
      else digitsInto fuel' (u / 10) (String (digit (u mod 10)) buf)
  end.

Definition digits (u : Z) : string := digitsInto 20 u "".

Fixpoint zeros (n : nat) : string :=
  match n with
  | O => EmptyString
  | S n' => String "0" (zeros n')
  end.

(** [%0<width>d] of an [int]; [width = 0] is plain [%d].  With the zero
    flag the width becomes the precision, less one for a sign, and digits
    are only ever added. *)
Definition fmtInteger (width : nat) (v : Z) : string :=
  let negative := (v <? 0)%Z in
  let ds := digits (Z.abs v) in
  let prec := if negative then (width - 1)%nat else width in
  let padded := zeros (prec - String.length ds) +:+ ds in
  if negative then String "-" padded else padded.

End Fmt.

(** ** Package [time]: the layout [2006-01-02 15:04:05] *)
Module GoTime.
Import Fmt.

(** A [time.Time] as its location shows it. *)
Record civil : Type := mkCivil {
  Year : Z;
  Month : Z;
  Day : Z;
  Hour : Z;
  Minute : Z;
  Second : Z
}.

(** [appendInt(b, x, width)]: the sign, then the decimal digits of [x]
    padded with zeros to [width]. *)
Definition appendInt (x : Z) (width : nat) : string :=
  let ds := digits (Z.abs x) in
  (if (x <? 0)%Z then "-" else "") +:+ zeros (width - String.length ds) +:+ ds.

(** [t.Format("2006-01-02 15:04:05")] *)
Definition Format (t : civil) : string :=
  appendInt (Year t) 4 +:+ "-" +:+ appendInt (Month t) 2 +:+ "-" +:+ appendInt (Day t) 2
  +:+ " " +:+ appendInt (Hour t) 2 +:+ ":" +:+ appendInt (Minute t) 2
  +:+ ":" +:+ appendInt (Second t) 2.

End GoTime.

(** Go's [int] addition: the sum wraps around at 64 bits. *)
Definition wrapInt (z : Z) : Z := ((z + 2 ^ 63) mod 2 ^ 64 - 2 ^ 63)%Z.
Definition intAdd (a b : Z) : Z := wrapInt (a + b).

(** ** Package [storage]: the ledger in the Turso database *)
Module Storage.

(** A row of [schema_migrations]; [AppliedAt] is a clock reading. *)
Record Migration : Type := mkMigration {
  Version : string;
  Name : string;
  AppliedAt : nat
}.

(** The statements [TursoStorage] sends for the ledger. *)
Inductive statement : Type :=
| InsertMigration (version name : string) (applied_at : nat)
| DeleteMigration (version : string)
| SelectMigrations.

(** The two queries that read a single row. *)
Inductive query : Type :=
| CountMigrations (version : string)
| SelectCurrentVersion.

Section Database.
Context {Data : Type}.

(** The database behind [TursoStorage.db]: the table
    [schema_migrations], a map since [version] is its primary key, and
    whatever else the database holds. *)
Record TursoStorage : Type := mkStorage {
  schema_migrations : gmap string (string * nat);
  data : Data
}.

(** The database server and the connection to it, as far as the code
    does not determine them: [txExec sql db] is the database after the
    transaction [Begin; Exec(sql); Commit], or the error of one of the
    three with the transaction rolled back; [stmtErr st db] is the error
    of a ledger statement that fails for a reason other than the primary
    key (the connection, a missing table). *)
Record Driver : Type := mkDriver {
  txExec : string → TursoStorage → result TursoStorage;
  stmtErr : statement → TursoStorage → option error
}.

Context (drv : Driver).

(** [INSERT INTO schema_migrations (version, name, applied_at)
    VALUES (?, ?, ?)] with [time.Now()] read as [now]. *)
Definition RecordMigration (version name : string) (now : nat)
    (s : TursoStorage) : result TursoStorage :=
  match stmtErr drv (InsertMigration version name now) s with
  | Some err => Err err
  | None =>
      match schema_migrations s !! version with
      | Some _ => Err (Raw "UNIQUE constraint failed: schema_migrations.version")
      | None => Ok (mkStorage (<[version := (name, now)]> (schema_migrations s)) (data s))
      end
  end.

(** [DELETE FROM schema_migrations WHERE version = ?] *)
Definition RemoveMigration (version : string) (s : TursoStorage)
    : result TursoStorage :=
  match stmtErr drv (DeleteMigration version) s with
  | Some err => Err err
  | None => Ok (mkStorage (delete version (schema_migrations s)) (data s))
  end.

Definition rowOf (kv : string * (string * nat)) : Migration :=
  mkMigration kv.1 kv.2.1 kv.2.2.

Definition versionLess (a b : Migration) : bool :=
  String.ltb (Version a) (Version b).

(** [SELECT version, name, applied_at FROM schema_migrations
    ORDER BY version ASC]; text compares byte by byte. *)
Definition GetAppliedMigrations (s : TursoStorage) : result (list Migration) :=
  match stmtErr drv SelectMigrations s with
  | Some err => Err err
  | None => Ok (Sort.Slice versionLess (rowOf <$> map_to_list (schema_migrations s)))
  end.

(** [ExecuteSQL]: the statement in a transaction of its own. *)
Definition ExecuteSQL (sql : string) (s : TursoStorage) : result TursoStorage :=
  txExec drv sql s.

(** [queryErr q db] is the error of a single-row query that fails (the
    connection, a missing table). *)
Context (queryErr : query → TursoStorage → option error).

(** [SELECT COUNT( * ) FROM schema_migrations WHERE version = ?] *)
Definition countMigrations (version : string) (s : TursoStorage) : Z :=
  Z.of_nat (length (List.filter (λ row, String.eqb (Version row) version)
                      (rowOf <$> map_to_list (schema_migrations s)))).

(** [IsMigrationApplied]: [count > 0] and the error of the query, with
    which [count] is still zero. *)
Definition IsMigrationApplied (version : string) (s : TursoStorage)
    : bool * option error :=
  match queryErr (CountMigrations version) s with
  | Some err => (false, Some err)
  | None => ((0 <? countMigrations version s)%Z, None)
  end.

Definition versionMore (a b : Migration) : bool :=
  String.ltb (Version b) (Version a).

(** [GetCurrentVersion]: [SELECT version FROM schema_migrations ORDER BY
    version DESC LIMIT 1]; without a row ([sql.ErrNoRows]) the version is
    empty and there is no error, with another error the version is empty
    too. *)
Definition GetCurrentVersion (s : TursoStorage) : string * option error :=
  match queryErr SelectCurrentVersion s with
  | Some err => ("", Some err)
  | None =>
      match Sort.Slice versionMore (rowOf <$> map_to_list (schema_migrations s)) with
      | [] => ("", None)
      | row :: _ => (Version row, None)
      end
  end.

End Database.
Global Arguments TursoStorage : clear implicits.
Global Arguments Driver : clear implicits.

End Storage.

(** ** Package [migration]: the engine *)
Module Engine.
Import GoStrings Bufio Filepath Regexp Strconv Fmt.
Import GoTime.

Definition nl : string := String newline EmptyString.

(** [MigrationFile]: a migration file on disk. *)
Record MigrationFile : Type := mkFile {
  Version : string;
  Name : string;
  Path : string;
  UpSQL : string;
  DownSQL : string
}.

Definition UP_MARKER : string := "==== UP ====".
Definition DOWN_MARKER : string := "==== DOWN ====".

(** The loop state: [currentSection], [upLines], [downLines]. *)
Record scanState : Type := mkScan {
  currentSection : string;
  upLines : list string;
  downLines : list string
}.

(** One iteration of [for scanner.Scan() { ... }]; [text] is
    [scanner.Text()]. *)
Definition parseSQL_step (st : scanState) (text : string) : scanState :=
  let line := TrimSpace text in
  if Contains line UP_MARKER then
    mkScan "up" (upLines st) (downLines st)
  else if Contains line DOWN_MARKER then
    mkScan "down" (upLines st) (downLines st)
  else if String.eqb (currentSection st) "up" then
    mkScan (currentSection st) (upLines st ++ [text]) (downLines st)
  else if String.eqb (currentSection st) "down" then
    mkScan (currentSection st) (upLines st) (downLines st ++ [text])
  else st.

Definition parseLines (lines : list string) : string * string :=
  let st := fold_left parseSQL_step lines (mkScan "" [] []) in
  (TrimSpace (GoStrings.Join (upLines st) nl),
   TrimSpace (GoStrings.Join (downLines st) nl)).

Definition parseSQL (content : string) : string * string :=
  parseLines (Scan content).

(** [parseMigrationFile(path)]; [d] is what is at [path]. *)
Definition parseMigrationFile (path : string) (d : node) : result MigrationFile :=
  let filename := Base path in
  match FindStringSubmatch filename with
  | None => Err (Raw ("invalid migration filename format: " +:+ filename))
  | Some (version, name) =>
      match ReadFile d with
      | inl err => Err (Wrap "failed to read file" err)
      | inr content =>
          let (upSQL, downSQL) := parseSQL content in
          Ok (mkFile version name path upSQL downSQL)
      end
  end.

(** The function [loadMigrationFiles] hands to [WalkDir]; [files] is the
    slice it appends to. *)
Definition walkFn (files : list MigrationFile) (v : visit)
    : result (list MigrationFile) :=
  match v with
  | Failed _ err => Err err
  | Reached path d =>
      if IsDir d || negb (HasSuffix path ".sql") then Ok files
      else
        match parseMigrationFile path d with
        | inl err => Err (Wrap ("failed to parse " +:+ path) err)
        | inr file => Ok (files ++ [file])
        end
  end.

Definition fileLess (a b : MigrationFile) : bool :=
  String.ltb (Version a) (Version b).

(** [loadMigrationFiles]: every migration file below [migrationsDir],
    sorted by version. *)
Definition loadMigrationFiles (migrationsDir : string) (disk : result node)
    : result (list MigrationFile) :=
  match WalkDir migrationsDir disk walkFn [] with
  | inl err => Err err
  | inr files => Ok (Sort.Slice fileLess files)
  end.

(** [getNextVersion] *)
Definition getNextVersion (migrationsDir : string) (disk : result node)
    : result string :=
  match loadMigrationFiles migrationsDir disk with
  | inl err => if IsNotExist err then Ok "001" else Err err
  | inr files =>
      match last files with
      | None => Ok "001"
      | Some lastFile =>
          match Atoi (Version lastFile) with
          | inl _ => Err (Raw ("invalid version format: " +:+ Version lastFile))
          | inr lastVersion =>
              let nextVersion := intAdd lastVersion 1 in
              Ok (fmtInteger 3 nextVersion)
          end
      end
  end.

(** [sanitizeName]: a migration name made fit for a file name. *)
Definition sanitizeName (name : string) : string :=
  let sanitized := replaceNonWord 0 name in
  let sanitized := squeezeUnderscores sanitized in
  Trim sanitized underscore.

(** The text [Create] writes into a new file; [created] is the time stamp. *)
Definition template (name created : string) : string :=
  "-- Migration: " +:+ name +:+ nl +:+
  "-- Created: " +:+ created +:+ nl +:+
  nl +:+
  "-- ==== UP ====" +:+ nl +:+
  nl +:+
  nl +:+
  "-- ==== DOWN ====" +:+ nl +:+
  nl.

(** A call of a method of [TursoStorage]. *)
Inductive call : Type :=
| CallExecuteSQL (sql : string)
| CallRecordMigration (version name : string)
| CallRemoveMigration (version : string)
| CallGetAppliedMigrations.

Section Run.
Context {Data : Type} (drv : Storage.Driver Data).
Context (migrationsDir : string).

(** What an operation of the engine runs in: the database, the clock
    [time.Now] reads, what was written to standard output, the calls made
    to the storage with the error each returned, and the migrations
    directory on disk. *)
Record World : Type := mkWorld {
  db : Storage.TursoStorage Data;
  clock : nat;
  stdout : list string;
  calls : list (call * option error);
  disk : result node
}.

(** Operations return a value or an error and change the world. *)
Definition M (A : Type) : Type := World → result A * World.

Definition ret {A} (a : A) : M A := λ w, (Ok a, w).

Definition bind {A B} (m : M A) (k : A → M B) : M B := λ w,
  match m w with
  | (inl err, w') => (Err err, w')
  | (inr a, w') => k a w'
  end.

(** [if err != nil { return fmt.Errorf(msg + ": %w", err) }] *)
Definition orWrap {A} (msg : string) (m : M A) : M A := λ w,
  match m w with
  | (inl err, w') => (Err (Wrap msg err), w')
  | (inr a, w') => (Ok a, w')
  end.

Definition raise {A} (err : error) : M A := λ w, (Err err, w).

(** [fmt.Print] of a whole string. *)
Definition Print (s : string) : M unit := λ w,
  (Ok tt, mkWorld (db w) (clock w) (stdout w ++ [s]) (calls w) (disk w)).

Definition Println (s : string) : M unit := Print (s +:+ nl).

Definition logged (c : call) (failure : option error) (w : World)
    (db' : Storage.TursoStorage Data) (clock' : nat) : World :=
  mkWorld db' clock' (stdout w) (calls w ++ [(c, failure)]) (disk w).

(** [e.storage.ExecuteSQL(sql)] *)
Definition storageExecuteSQL (sql : string) : M unit := λ w,
  match Storage.ExecuteSQL drv sql (db w) with
  | inl err => (Err err, logged (CallExecuteSQL sql) (Some err) w (db w) (clock w))
  | inr db' => (Ok tt, logged (CallExecuteSQL sql) None w db' (clock w))
  end.

(** [e.storage.RecordMigration(version, name)]; the clock moves on. *)
Definition storageRecordMigration (version name : string) : M unit := λ w,
  match Storage.RecordMigration drv version name (clock w) (db w) with
  | inl err =>
      (Err err, logged (CallRecordMigration version name) (Some err) w (db w) (S (clock w)))
  | inr db' =>
      (Ok tt, logged (CallRecordMigration version name) None w db' (S (clock w)))
  end.

(** [e.storage.RemoveMigration(version)] *)
Definition storageRemoveMigration (version : string) : M unit := λ w,
  match Storage.RemoveMigration drv version (db w) with
  | inl err => (Err err, logged (CallRemoveMigration version) (Some err) w (db w) (clock w))
  | inr db' => (Ok tt, logged (CallRemoveMigration version) None w db' (clock w))
  end.

(** [e.storage.GetAppliedMigrations()] *)
Definition storageGetAppliedMigrations : M (list Storage.Migration) := λ w,
  match Storage.GetAppliedMigrations drv (db w) with
  | inl err => (Err err, logged CallGetAppliedMigrations (Some err) w (db w) (clock w))
  | inr rows => (Ok rows, logged CallGetAppliedMigrations None w (db w) (clock w))
  end.

(** [e.loadMigrationFiles()] *)
Definition engineLoadMigrationFiles : M (list MigrationFile) := λ w,
  (loadMigrationFiles migrationsDir (disk w), w).

#[local] Instance M_ret : MRet M := @ret.
#[local] Instance M_bind : MBind M := λ A B k m, bind m k.

(** The body of [for _, file := range files] in [Up], with
    [appliedCount] carried along.  The count stays below [len(files)],
    an [int], so [appliedCount++] never wraps. *)
Fixpoint applyPending (appliedSet : gset string) (files : list MigrationFile)
    (appliedCount : Z) : M Z :=
  match files with
  | [] => ret appliedCount
  | file :: rest =>
      if decide (Version file ∈ appliedSet) then
        applyPending appliedSet rest appliedCount
      else
        Print ("Applying migration " +:+ Version file +:+ ": " +:+ Name file +:+ nl);;
        orWrap ("failed to execute migration " +:+ Version file)
          (storageExecuteSQL (UpSQL file));;
        orWrap ("failed to record migration " +:+ Version file)
          (storageRecordMigration (Version file) (Name file));;
        applyPending appliedSet rest (appliedCount + 1)%Z
  end.

(** [Up]: apply all pending migrations. *)
Definition Up : M unit :=
  files ← orWrap "failed to load migration files" engineLoadMigrationFiles;
  match files with
  | [] => Println "No migrations found"
  | _ :: _ =>
      applied ← orWrap "failed to get applied migrations" storageGetAppliedMigrations;
      let appliedSet : gset string := list_to_set (Storage.Version <$> applied) in
      appliedCount ← applyPending appliedSet files 0;
      if (appliedCount =? 0)%Z then Println "No pending migrations"
      else Print ("Applied " +:+ fmtInteger 0 appliedCount +:+ " migration(s)" +:+ nl)
  end.

(** [Down]: roll back the last applied migration. *)
Definition Down : M unit :=
  applied ← orWrap "failed to get applied migrations" storageGetAppliedMigrations;
  match last applied with
  | None => Println "No migrations to rollback"
  | Some lastMigration =>
      files ← orWrap "failed to load migration files" engineLoadMigrationFiles;
      match List.find (λ file, String.eqb (Version file) (Storage.Version lastMigration)) files with
      | None =>
          raise (Raw ("migration file not found for version " +:+ Storage.Version lastMigration))
      | Some migrationFile =>
          if String.eqb (DownSQL migrationFile) "" then
            raise (Raw ("no DOWN migration found for version " +:+ Storage.Version lastMigration))
          else
            Print ("Rolling back migration " +:+ Version migrationFile +:+ ": "
                   +:+ Name migrationFile +:+ nl);;
            orWrap ("failed to execute rollback for " +:+ Version migrationFile)
              (storageExecuteSQL (DownSQL migrationFile));;
            orWrap ("failed to remove migration record " +:+ Version migrationFile)
              (storageRemoveMigration (Version migrationFile));;
            Println "Migration rolled back successfully"
      end
  end.

(** What the status operations and [Create] meet besides: the errors of
    the single-row queries, the local time of a clock reading, and the
    file system around the migrations directory. *)
Context (queryErr : Storage.query → Storage.TursoStorage Data → option error).
Context (localTime : nat → civil).
Context (access : Access).

(** [e.storage.GetCurrentVersion()]; the query is not among the calls the
    log keeps. *)
Definition storageGetCurrentVersion : M string := λ w,
  match Storage.GetCurrentVersion queryErr (db w) with
  | (_, Some err) => (Err err, w)
  | (version, None) => (Ok version, w)
  end.

(** The line of [Status] for [file]. *)
Definition statusLine (appliedSet : gmap string Storage.Migration) (file : MigrationFile)
    : string :=
  match appliedSet !! Version file with
  | Some migration =>
      "✓ " +:+ Version file +:+ "_" +:+ Name file +:+ " (applied: "
      +:+ Format (localTime (Storage.AppliedAt migration)) +:+ ")" +:+ nl
  | None =>
      "✗ " +:+ Version file +:+ "_" +:+ Name file +:+ " (pending)" +:+ nl
  end.

Fixpoint printLines (lines : list string) : M unit :=
  match lines with
  | [] => ret tt
  | line :: rest => Print line;; printLines rest
  end.

(** [Status]: show which migrations are applied and which are pending. *)
Definition Status : M unit :=
  files ← orWrap "failed to load migration files" engineLoadMigrationFiles;
  applied ← orWrap "failed to get applied migrations" storageGetAppliedMigrations;
  let appliedSet : gmap string Storage.Migration :=
    foldl (λ set m, <[Storage.Version m := m]> set) ∅ applied in
  match files with
  | [] => Println "No migrations found"
  | _ :: _ =>
      Println "Migration Status:";;
      Println "================";;
      printLines (statusLine appliedSet <$> files)
  end.

(** [Version], the method of the engine: show the current schema version. *)
Definition EngineVersion : M unit :=
  version ← orWrap "failed to get current version" storageGetCurrentVersion;
  if String.eqb version "" then Println "No migrations applied yet"
  else Print ("Current version: " +:+ version +:+ nl).

(** [e.getNextVersion()] *)
Definition engineGetNextVersion : M string := λ w,
  (getNextVersion migrationsDir (disk w), w).

(** [os.MkdirAll(e.migrationsDir, 0755)]: nothing to do for a directory,
    an error for a file, and a missing directory is made. *)
Definition MkdirAll : M unit := λ w,
  match disk w with
  | inr d =>
      if IsDir d then (Ok tt, w)
      else (Err (Raw ("mkdir " +:+ migrationsDir +:+ ": not a directory")), w)
  | inl _ =>
      match mkdirErr access migrationsDir with
      | Some err => (Err err, w)
      | None => (Ok tt, mkWorld (db w) (clock w) (stdout w) (calls w) (Ok (Dir [])))
      end
  end.

(** What [os.WriteFile] leaves in the file and returns once the file is
    open: all of [data] and nil, or the bytes written before the error of
    [Write] or [Close]. *)
Definition written (failure : option (error * option nat)) (data : string)
    : string * result unit :=
  match failure with
  | Some (err, Some n) => (substring 0 n data, Err err)
  | _ => (data, Ok tt)
  end.

(** [os.WriteFile(filepath.Join(e.migrationsDir, filename), data, 0644)]:
    [OpenFile] with [O_WRONLY|O_CREATE|O_TRUNC], then [Write], then
    [Close]. *)
Definition WriteFile (filename data : string) : M unit := λ w,
  let path := Join migrationsDir filename in
  match writeErr access path with
  | Some (err, None) => (Err err, w)
  | failure =>
      let (content, r) := written failure data in
      match disk w with
      | inr (Dir entries) =>
          match writeEntry filename content entries with
          | Some entries' =>
              (r, mkWorld (db w) (clock w) (stdout w) (calls w) (Ok (Dir entries')))
          | None => (Err (Raw ("open " +:+ path +:+ ": is a directory")), w)
          end
      | inr (DirDenied _) => (r, w)
      | inr (File _ | FileDenied _) =>
          (Err (Raw ("open " +:+ path +:+ ": not a directory")), w)
      | inl err => (Err err, w)
      end
  end.

(** [time.Now().Format("2006-01-02 15:04:05")]; the clock moves on. *)
Definition timestamp : M string := λ w,
  (Ok (Format (localTime (clock w))),
   mkWorld (db w) (S (clock w)) (stdout w) (calls w) (disk w)).

(** [Create]: write a new migration file from the template. *)
Definition Create (name : string) : M unit :=
  version ← orWrap "failed to get next version" engineGetNextVersion;
  let sanitizedName := sanitizeName name in
  let filename := version +:+ "_" +:+ sanitizedName +:+ ".sql" in
  orWrap "failed to create migrations directory" MkdirAll;;
  created ← timestamp;
  orWrap "failed to create migration file" (WriteFile filename (template name created));;
  Print ("Created migration: " +:+ filename +:+ nl).

End Run.

End Engine.

Import GoStrings Bufio Filepath Regexp Strconv Fmt Engine.
Import GoTime.

(** * The vocabulary of the statements *)

(** ** Orders by a string key *)
Section KeyOrder.
Context {A : Type} (key : A → string).

(** The [less] function of the two sorts, and the order it sorts by. *)
Definition keyLess (a b : A) : bool := String.ltb (key a) (key b).

Definition keyLe (a b : A) : Prop := String.le (key a) (key b).

End KeyOrder.

(** ** Discovery *)

(** Ascending version order: versions compare as strings, byte by byte. *)
Definition versionLe (a b : MigrationFile) : Prop := String.le (Version a) (Version b).

(** A version as the file-name expression captures it: digits, at least
    one. *)
Definition versionOk (f : MigrationFile) : Prop :=
  Version f ≠ "" ∧ all isDigit (Version f) = true.

(** ** Body extraction *)

(** The bytes [TrimSpace] removes: ASCII white space, or bytes of the
    white-space runes beyond ASCII, which are all 128 or more. *)
Definition spaceByte (c : ascii) : bool := asciiSpace c || (128 <=? byte_of c)%N.

(** The two section tokens. *)
Inductive marker : Type := MarkUp | MarkDown.

#[local] Instance marker_eq_dec : EqDecision marker.
Proof. solve_decision. Defined.

(** A marker line holds one of the tokens; a line that holds both counts for
    the UP token, which the code looks for first. *)
Definition markerOf (line : string) : option marker :=
  if Contains line UP_MARKER then Some MarkUp
  else if Contains line DOWN_MARKER then Some MarkDown
  else None.

(** The lines collected for the section [want]: a marker line switches the
    collection on or off and is not collected itself, any other line is
    collected while the collection is on. *)
Fixpoint collected (want : marker) (active : bool) (lines : list string) : list string :=
  match lines with
  | [] => []
  | line :: rest =>
      match markerOf line with
      | Some m => collected want (bool_decide (m = want)) rest
      | None =>
          if active then line :: collected want active rest
          else collected want active rest
      end
  end.

(** A single line: no newline in it. *)
Definition noNewline (line : string) : bool := all (λ c, negb (Ascii.eqb c newline)) line.

(** The text made of the lines [lines], each ended by a newline, and then
    [rest]. *)
Definition unlines (lines : list string) (rest : string) : string :=
  foldr (λ line text, line +:+ nl +:+ text) rest lines.

(** ** The ledger and the runs of the engine *)
Section EngineVocabulary.
Context {Data : Type} (drv : Storage.Driver Data).
Implicit Types (s : Storage.TursoStorage Data).
Implicit Types (w : World (Data:=Data)) (f : MigrationFile) (files : list MigrationFile).
Implicit Types (V : gset string).

(** The rows [GetAppliedMigrations] returns when its statement succeeds. *)
Definition appliedRows s : list Storage.Migration :=
  Sort.Slice Storage.versionLess (Storage.rowOf <$> map_to_list (Storage.schema_migrations s)).

(** The ledger of a world, and the definitions that are not in it. *)
Definition ledger w : gmap string (string * nat) := Storage.schema_migrations (db w).

(** [!appliedSet[file.Version]] *)
Definition isPending V f : Prop := Version f ∉ V.

#[global] Instance isPending_dec V f : Decision (isPending V f).
Proof. unfold isPending. apply _. Defined.

Definition pending w files : list MigrationFile := filter (isPending (dom (ledger w))) files.

(** A body that leaves the table [schema_migrations] alone: whenever its
    transaction commits, the ledger is the one it started with. *)
Definition keepsLedger (sql : string) : Prop :=
  ∀ s s', Storage.txExec drv sql s = Ok s' →
    Storage.schema_migrations s' = Storage.schema_migrations s.

(** The forward bodies of the definitions [files] leave the ledger alone. *)
Definition forwardKeepLedger files : Prop := ∀ f, f ∈ files → keepsLedger (UpSQL f).

(** What [Up] prints and calls for one definition it applies. *)
Definition applyingLine f : string :=
  "Applying migration " +:+ Version f +:+ ": " +:+ Name f +:+ nl.

Definition forwardCalls f : list (call * option error) :=
  [(CallExecuteSQL (UpSQL f), None); (CallRecordMigration (Version f) (Name f), None)].

(** The world after printing [line]. *)
Definition printed w (line : string) : World :=
  mkWorld (db w) (clock w) (stdout w ++ [line]) (calls w) (disk w).

(** The last line [Up] prints after its loop. *)
Definition upReport (appliedCount : Z) : string :=
  if (appliedCount =? 0)%Z then "No pending migrations" +:+ nl
  else "Applied " +:+ fmtInteger 0 appliedCount +:+ " migration(s)" +:+ nl.

(** The world after the call reading the ledger. *)
Definition asked w (failure : option error) : World :=
  logged CallGetAppliedMigrations failure w (db w) (clock w).

(** The definition the loop of [Down] stops at: the first one of that
    version. *)
Definition matching (version : string) files : option MigrationFile :=
  List.find (λ file, String.eqb (Version file) version) files.

(** The entries of the ledger of [w] and those of the definitions [done]
    are in the ledger of [w']. *)
Definition stillRecorded w (done : list MigrationFile) w' : Prop :=
  ledger w ⊆ ledger w'
  ∧ ∀ g, g ∈ done → ∃ t, ledger w' !! Version g = Some (Name g, t).

(** The definition [Down] rolls back: the first one of the version of the
    last applied entry. *)
Definition rolledBack w files : option MigrationFile :=
  match last (appliedRows (db w)) with
  | Some lastMigration => matching (Storage.Version lastMigration) files
  | None => None
  end.

(** What [Down] prints before it executes the backward body. *)
Definition rollingLine f : string :=
  "Rolling back migration " +:+ Version f +:+ ": " +:+ Name f +:+ nl.

(** The two storage calls [Up] makes for one definition, on the database
    and the clock alone, and those for a list of definitions in order. *)
Definition forward f (st : Storage.TursoStorage Data * nat)
    : result (Storage.TursoStorage Data * nat) :=
  match Storage.ExecuteSQL drv (UpSQL f) st.1 with
  | inl err => Err err
  | inr s1 =>
      match Storage.RecordMigration drv (Version f) (Name f) st.2 s1 with
      | inl err => Err err
      | inr s2 => Ok (s2, S st.2)
      end
  end.

Fixpoint forwardAll files (st : Storage.TursoStorage Data * nat)
    : result (Storage.TursoStorage Data * nat) :=
  match files with
  | [] => Ok st
  | f :: rest =>
      match forward f st with
      | inl err => Err err
      | inr st' => forwardAll rest st'
      end
  end.

End EngineVocabulary.

(** ** Names, new files and reports *)

(** A text [TrimSpace] leaves alone; it neither begins nor ends with a
    blank, a tab or a line end. *)
Definition trimmed (body : string) : Prop :=
  TrimSpace body = body
  ∧ (∀ c rest, body = String c rest → asciiSpace c = false)
  ∧ (∀ c rest, String.rev body = String c rest → asciiSpace c = false).

(** A line ended the Windows way. *)
Definition withCR (line : string) : string := line +:+ String carriage_return "".

(** A list of ledger rows whose head is a greatest row. *)
Definition headGreatest (rows : list Storage.Migration) : Prop :=
  match rows with
  | [] => True
  | top :: _ =>
      ∀ row, row ∈ rows → String.le (Storage.Version row) (Storage.Version top)
  end.

(** A name [sanitizeName] has nothing to do on: letters, digits and single
    underscores between them. *)
Definition cleanName (s : string) : bool :=
  all isWord s && negb (HasPrefix s "_") && negb (HasSuffix s "_")
  && negb (Contains s "__").

(** The name of the file [Create] writes. *)
Definition createdName (version name : string) : string :=
  version +:+ "_" +:+ sanitizeName name +:+ ".sql".

(** The definition discovery reads from a file [Create] wrote. *)
Definition createdFile (dir version name created : string) : MigrationFile :=
  let content := template name created in
  mkFile version (sanitizeName name) (Join dir (createdName version name))
    (parseSQL content).1 (parseSQL content).2.

(** The bytes of a time stamp. *)
Definition stampByte (c : ascii) : bool :=
  isDigit c || Ascii.eqb c "-" || Ascii.eqb c " " || Ascii.eqb c ":".

Definition notSlash (c : ascii) : bool := negb (Ascii.eqb c slash).

(** The calls [walkDir] makes below the entries of a directory. *)
Definition below (path : string) (entries : list (string * node)) : list visit :=
  entries ≫= λ entry, walkDir (Join path entry.1) entry.2.

(** The line of [Status] for a definition, read off the ledger. *)
Definition reportLine (localTime : nat → civil) (rows : gmap string (string * nat))
    (f : MigrationFile) : string :=
  match rows !! Version f with
  | Some (_, appliedAt) =>
      "✓ " +:+ Version f +:+ "_" +:+ Name f +:+ " (applied: "
      +:+ Format (localTime appliedAt) +:+ ")" +:+ nl
  | None => "✗ " +:+ Version f +:+ "_" +:+ Name f +:+ " (pending)" +:+ nl
  end.

(** ** Sample disks, databases and worlds *)

Definition twoFilesDisk : result node :=
  Ok (Dir [("001_create_users.sql", File "-- ==== UP ====
CREATE TABLE users (id TEXT PRIMARY KEY);
-- ==== DOWN ====
DROP TABLE users;");
           ("002_create_posts.sql", File "-- ==== UP ====
CREATE TABLE posts (id TEXT PRIMARY KEY);
-- ==== DOWN ====
DROP TABLE posts;");
           ("README.md", File "notes")]).

Definition twoFiles : list MigrationFile :=
  [mkFile "001" "create_users" "migrations/001_create_users.sql"
     "CREATE TABLE users (id TEXT PRIMARY KEY);" "DROP TABLE users;";
   mkFile "002" "create_posts" "migrations/002_create_posts.sql"
     "CREATE TABLE posts (id TEXT PRIMARY KEY);" "DROP TABLE posts;"].

Definition badNameDisk : result node :=
  Ok (Dir [("001_create_users.sql", File "-- ==== UP ====
CREATE TABLE users (id TEXT PRIMARY KEY);");
           ("notes.sql", File "SELECT 1;")]).

Definition threeFilesDisk : result node :=
  Ok (Dir [("001_create_users.sql", File "-- ==== UP ====
CREATE TABLE users (id TEXT PRIMARY KEY);");
           ("002_create_posts.sql", File "-- ==== UP ====
CREATE TABLE posts (id TEXT PRIMARY KEY);");
           ("007_add_index.sql", File "-- ==== UP ====
CREATE INDEX idx_users ON users(id);")]).

(** A line of 65536 bytes, as a bulk [INSERT] may be. *)
Definition longLine : string := N.iter 65536 (String "x") "".

Definition longLineFile : string :=
  unlines ["-- ==== UP ===="; "CREATE TABLE t (x TEXT);"; longLine;
           "CREATE INDEX i ON t (x);"; "-- ==== DOWN ===="; "DROP TABLE t;"] "".

(** A database that keeps the committed bodies as its data, accepts every
    body but those holding [BOOM], and never fails on a ledger statement. *)
Definition demoDriver : Storage.Driver (list string) :=
  Storage.mkDriver
    (λ sql s,
       if Contains sql "BOOM" then Err (Raw "SQL logic error")
       else Ok (Storage.mkStorage (Storage.schema_migrations s) (Storage.data s ++ [sql])))
    (λ _ _, None).

(** The same, refusing the empty statement. *)
Definition strictDriver : Storage.Driver (list string) :=
  Storage.mkDriver
    (λ sql s,
       if String.eqb sql "" then Err (Raw "empty statement")
       else Ok (Storage.mkStorage (Storage.schema_migrations s) (Storage.data s ++ [sql])))
    (λ _ _, None).

(** A database in which [DELETE FROM schema_migrations] does what it says. *)
Definition wipingDriver : Storage.Driver (list string) :=
  Storage.mkDriver
    (λ sql s,
       if Contains sql "DELETE FROM schema_migrations"
       then Ok (Storage.mkStorage ∅ (Storage.data s ++ [sql]))
       else Ok (Storage.mkStorage (Storage.schema_migrations s) (Storage.data s ++ [sql])))
    (λ _ _, None).

Definition worldOf (rows : list (string * (string * nat))) (disk : result node)
    : World (Data:=list string) :=
  mkWorld (Storage.mkStorage (list_to_map rows) []) 10 [] [] disk.

Definition freshWorld : World := worldOf [] twoFilesDisk.

Definition appliedWorld : World := (Up demoDriver "migrations" freshWorld).2.

(** The second of three definitions fails. *)
Definition boomDisk : result node :=
  Ok (Dir [("001_create_users.sql", File "-- ==== UP ====
CREATE TABLE users (id TEXT PRIMARY KEY);");
           ("002_break.sql", File "-- ==== UP ====
BOOM;");
           ("003_create_posts.sql", File "-- ==== UP ====
CREATE TABLE posts (id TEXT PRIMARY KEY);")]).

Definition boomFiles : list MigrationFile :=
  [mkFile "001" "create_users" "migrations/001_create_users.sql"
     "CREATE TABLE users (id TEXT PRIMARY KEY);" "";
   mkFile "002" "break" "migrations/002_break.sql" "BOOM;" "";
   mkFile "003" "create_posts" "migrations/003_create_posts.sql"
     "CREATE TABLE posts (id TEXT PRIMARY KEY);" ""].

Definition boomWorld : World := worldOf [] boomDisk.

(** Version ["002"] was recorded at time 3, version ["001"] at time 7. *)
Definition outOfOrderWorld : World :=
  worldOf [("001", ("create_users", 7)); ("002", ("create_posts", 3))] twoFilesDisk.

(** The ledger holds version ["003"], which no file defines. *)
Definition orphanWorld : World :=
  worldOf [("001", ("create_users", 1)); ("003", ("add_index", 2))] twoFilesDisk.

(** The last applied definition has no backward body. *)
Definition irreversibleWorld : World :=
  worldOf [("001", ("create_users", 1)); ("002", ("break", 2))] boomDisk.

(** A file without markers: its forward body is empty. *)
Definition noMarkerDisk : result node :=
  Ok (Dir [("001_notes.sql", File "CREATE TABLE notes (id TEXT);")]).

Definition noMarkerFile : MigrationFile :=
  mkFile "001" "notes" "migrations/001_notes.sql" "" "".

Definition noMarkerWorld : World := worldOf [] noMarkerDisk.

Definition wipingDisk : result node :=
  Ok (Dir [("001_create_users.sql", File "-- ==== UP ====
CREATE TABLE IF NOT EXISTS users (id TEXT PRIMARY KEY);");
           ("002_reset.sql", File "-- ==== UP ====
DELETE FROM schema_migrations;")]).

Definition wipingWorld : World := worldOf [] wipingDisk.

(** A file and a subdirectory that cannot be read. *)
Definition deniedDisk : result node :=
  Ok (Dir [("001_create_users.sql", File "-- ==== UP ====
CREATE TABLE users (id TEXT PRIMARY KEY);");
           ("002_create_posts.sql",
            FileDenied (Raw "open migrations/002_create_posts.sql: permission denied"));
           ("archive", DirDenied (Raw "open migrations/archive: permission denied"))]).

(** Two files of version ["001"]. *)
Definition sameVersionDisk : result node :=
  Ok (Dir [("001_create_accounts.sql", File "-- ==== UP ====
CREATE TABLE accounts (id TEXT PRIMARY KEY);");
           ("001_create_users.sql", File "-- ==== UP ====
CREATE TABLE users (id TEXT PRIMARY KEY);")]).

Definition sameVersionFiles : list MigrationFile :=
  [mkFile "001" "create_accounts" "migrations/001_create_accounts.sql"
     "CREATE TABLE accounts (id TEXT PRIMARY KEY);" "";
   mkFile "001" "create_users" "migrations/001_create_users.sql"
     "CREATE TABLE users (id TEXT PRIMARY KEY);" ""].

Definition sameVersionWorld : World := worldOf [] sameVersionDisk.

(** The backward body of the one definition fails. *)
Definition badDownDisk : result node :=
  Ok (Dir [("001_create_users.sql", File "-- ==== UP ====
CREATE TABLE users (id TEXT PRIMARY KEY);
-- ==== DOWN ====
BOOM;")]).

Definition badDownFile : MigrationFile :=
  mkFile "001" "create_users" "migrations/001_create_users.sql"
    "CREATE TABLE users (id TEXT PRIMARY KEY);" "BOOM;".

Definition badDownWorld : World := worldOf [("001", ("create_users", 1))] badDownDisk.

(** Queries that never fail, a clock that stands at noon, and a file
    system that allows everything. *)
Definition noQueryErr : Storage.query → Storage.TursoStorage (list string) → option error :=
  λ _ _, None.

Definition noon : nat → civil := λ _, mkCivil 2024 1 5 12 0 0.

Definition openAccess : Access := mkAccess (λ _, None) (λ _, None).

(** A file system that runs full after 14 bytes of a file. *)
Definition fullAccess : Access :=
  mkAccess (λ _, None) (λ _, Some (Raw "no space left on device", Some 14)).

(** A subdirectory that cannot be listed, between two files. *)
Definition lockedDirDisk : result node :=
  Ok (Dir [("001_create_users.sql", File "-- ==== UP ====
CREATE TABLE users (id TEXT PRIMARY KEY);");
           ("002_archive", DirDenied (Raw "open migrations/002_archive: permission denied"));
           ("003_create_posts.sql", File "-- ==== UP ====
CREATE TABLE posts (id TEXT PRIMARY KEY);")]).

(** An empty migrations directory under a ledger with one entry, and a
    migrations directory that does not exist. *)
Definition emptyDirWorld : World := worldOf [("001", ("create_users", 1))] (Ok (Dir [])).

Definition missingDirWorld : World :=
  worldOf [] (Err (ErrNotExist "migrations")).


(** * Facts about the library models *)

(** ** The byte-wise order on strings *)

Lemma ltb_false_le (a b : string) : String.ltb b a = false ↔ String.le a b.
Proof.
  unfold String.le, String.ltb, String.leb.
  rewrite (String.compare_antisym a b).
  destruct (String.compare b a); simpl; intuition (auto; discriminate).
Qed.

Lemma ltb_true_le (a b : string) : String.ltb a b = true → String.le a b.
Proof.
  unfold String.le, String.ltb, String.leb.
  destruct (String.compare a b); simpl; intuition (auto; discriminate).
Qed.

Lemma ltb_asym (a b : string) : String.ltb a b = true → String.ltb b a = false.
Proof. intros H. apply ltb_false_le. by apply ltb_true_le. Qed.

(** ** [sort.Slice] sorts and permutes *)
Section SortFacts.
Context {A : Type} (key : A → string).

#[local] Instance keyLe_trans : Transitive (keyLe key).
Proof. intros a b c. unfold keyLe. apply transitivity. Qed.

Lemma insert_perm x l : Sort.insert (keyLess key) x l ≡ₚ x :: l.
Proof.
  induction l as [|y l IH]; simpl; [done|].
  destruct ((keyLess key) x y); [done|].
  rewrite IH. apply Permutation_swap.
Qed.

Lemma insert_hd x l :
  ∀ z, head (Sort.insert (keyLess key) x l) = Some z → z = x ∨ head l = Some z.
Proof.
  intros z. destruct l as [|y l]; simpl; [naive_solver|].
  destruct ((keyLess key) x y); naive_solver.
Qed.

Lemma insert_sorted x l : Sorted (keyLe key) l → Sorted (keyLe key) (Sort.insert (keyLess key) x l).
Proof.
  induction 1 as [|y l Hl IH Hy]; simpl; [repeat constructor|].
  destruct ((keyLess key) x y) eqn:Hxy.
  - constructor; [by constructor|]. constructor.
    by apply ltb_true_le.
  - constructor; [done|].
    assert ((keyLe key) y x) as Hyx by by apply ltb_false_le.
    destruct (Sort.insert (keyLess key) x l) as [|z l'] eqn:Hins; constructor.
    destruct (insert_hd x l z) as [->|Hz]; [by rewrite Hins|done|].
    destruct l; simplify_eq/=. by inversion Hy.
Qed.

Lemma fold_insert_perm data acc :
  fold_left (λ sorted x, Sort.insert (keyLess key) x sorted) data acc ≡ₚ acc ++ data.
Proof.
  revert acc. induction data as [|x data IH]; intros acc; simpl.
  - by rewrite app_nil_r.
  - rewrite IH, insert_perm. simpl. apply Permutation_middle.
Qed.

Lemma fold_insert_sorted data acc :
  Sorted (keyLe key) acc →
  Sorted (keyLe key) (fold_left (λ sorted x, Sort.insert (keyLess key) x sorted) data acc).
Proof.
  revert acc. induction data as [|x data IH]; intros acc Hacc; simpl; [done|].
  apply IH. by apply insert_sorted.
Qed.

Lemma Slice_perm data : Sort.Slice (keyLess key) data ≡ₚ data.
Proof. unfold Sort.Slice. by rewrite fold_insert_perm. Qed.

Lemma Slice_sorted data : Sorted (keyLe key) (Sort.Slice (keyLess key) data).
Proof. apply fold_insert_sorted. constructor. Qed.

Lemma Slice_nil data : Sort.Slice (keyLess key) data = [] ↔ data = [].
Proof.
  split; [|by intros ->].
  intros H. apply Permutation_nil_r. by rewrite <-H, Slice_perm.
Qed.

(** The last element of a sorted list is a greatest one. *)
Lemma sorted_last_max l x z :
  Sorted (keyLe key) l → last l = Some z → x ∈ l → (keyLe key) x z.
Proof.
  intros Hs%Sorted_StronglySorted; [|apply _].
  induction Hs as [|y l Hs IH Hy]; intros Hlast Hx; [done|].
  destruct l as [|y' l].
  - simplify_eq/=. apply list_elem_of_singleton in Hx as ->. by unfold keyLe.
  - rewrite last_cons_cons in Hlast.
    apply elem_of_cons in Hx as [->|Hx]; [|by apply IH].
    rewrite Forall_forall in Hy. apply Hy.
    by apply last_Some_elem_of.
Qed.

Lemma sorted_filter (P : A → Prop) `{∀ x, Decision (P x)} l :
  Sorted (keyLe key) l → Sorted (keyLe key) (filter P l).
Proof.
  intros Hs%Sorted_StronglySorted; [|apply _].
  apply StronglySorted_Sorted.
  induction Hs as [|y l Hs IH Hy]; [constructor|].
  rewrite filter_cons. destruct (decide (P y)); [|done].
  constructor; [done|].
  rewrite Forall_forall in *. intros z [_ Hz]%list_elem_of_filter.
  by apply Hy.
Qed.

End SortFacts.

(** ** Strings: append and reverse *)

Lemma app_String c s t : String c s +:+ t = String c (s +:+ t).
Proof. reflexivity. Qed.

Lemma app_empty_l s : "" +:+ s = s.
Proof. reflexivity. Qed.

Lemma app_empty_r s : s +:+ "" = s.
Proof. induction s as [|c s IH]; [done|]. by rewrite app_String, IH. Qed.

Lemma app_assoc_s (s t u : string) : (s +:+ t) +:+ u = s +:+ (t +:+ u).
Proof. induction s as [|c s IH]; [done|]. by rewrite !app_String, IH. Qed.

Lemma rev_app_spec s acc : String.rev_app s acc = String.rev s +:+ acc.
Proof.
  unfold String.rev. revert acc.
  induction s as [|c s IH]; intros acc; simpl; [done|].
  rewrite IH, (IH (String c "")), app_assoc_s. done.
Qed.

Lemma rev_String c s : String.rev (String c s) = String.rev s +:+ String c "".
Proof. unfold String.rev at 1. simpl. apply rev_app_spec. Qed.

Lemma rev_app_distr_s s t : String.rev (s +:+ t) = String.rev t +:+ String.rev s.
Proof.
  induction s as [|c s IH].
  - by rewrite app_empty_l, app_empty_r.
  - by rewrite app_String, !rev_String, IH, app_assoc_s.
Qed.

Lemma rev_involutive_s s : String.rev (String.rev s) = s.
Proof.
  induction s as [|c s IH]; [done|].
  by rewrite rev_String, rev_app_distr_s, IH.
Qed.

Lemma rev_inj_s s t : String.rev s = String.rev t → s = t.
Proof. intros H. by rewrite <-(rev_involutive_s s), H, rev_involutive_s. Qed.

Lemma prefix_app_iff p s : String.prefix p s = true ↔ ∃ t, s = p +:+ t.
Proof.
  revert s. induction p as [|c p IH]; intros s.
  - destruct s; simpl; naive_solver.
  - destruct s as [|d s]; simpl.
    + split; [done|]. by intros [t ?].
    + destruct (ascii_dec c d) as [->|Hne].
      * rewrite IH. split; intros [t Ht]; exists t; [by rewrite Ht|].
        rewrite app_String in Ht. by simplify_eq.
      * split; [done|]. intros [t Ht]. rewrite app_String in Ht. by simplify_eq.
Qed.

(** [strings.HasSuffix(s, suffix)] holds exactly when [s] ends in [suffix]. *)
Lemma HasSuffix_iff s suffix : HasSuffix s suffix = true ↔ ∃ t, s = t +:+ suffix.
Proof.
  unfold HasSuffix. rewrite prefix_app_iff. split.
  - intros [t Ht]. exists (String.rev t).
    apply rev_inj_s. by rewrite rev_app_distr_s, rev_involutive_s.
  - intros [t ->]. exists (String.rev t). by rewrite rev_app_distr_s.
Qed.

(** ** The file-name expression *)

Lemma all_app p s t : all p (s +:+ t) = all p s && all p t.
Proof.
  induction s as [|c s IH]; [done|].
  rewrite app_String. simpl. by rewrite IH, andb_assoc.
Qed.

Lemma spanDigits_spec s ds rest :
  spanDigits s = (ds, rest) →
  s = ds +:+ rest ∧ all isDigit ds = true ∧
  match rest with String c _ => isDigit c = false | EmptyString => True end.
Proof.
  revert ds rest. induction s as [|c s IH]; intros ds rest; simpl.
  - by intros [= <- <-].
  - destruct (isDigit c) eqn:Hc.
    + destruct (spanDigits s) as [ds' rest'] eqn:Hs. intros [= <- <-].
      destruct (IH _ _ eq_refl) as (-> & Hall & Hrest).
      rewrite app_String. simpl. by rewrite Hc, Hall.
    + intros [= <- <-]. by rewrite app_empty_l.
Qed.

Lemma spanDigits_app ds rest :
  all isDigit ds = true →
  match rest with String c _ => isDigit c = false | EmptyString => True end →
  spanDigits (ds +:+ rest) = (ds, rest).
Proof.
  intros Hds Hrest. induction ds as [|c ds IH].
  - rewrite app_empty_l. destruct rest as [|c rest]; simpl; [done|]. by rewrite Hrest.
  - simpl in Hds. apply andb_prop in Hds as [Hc Hds].
    rewrite app_String. simpl. by rewrite Hc, IH.
Qed.

Lemma CutPrefix_iff s pre t : CutPrefix s pre = Some t ↔ s = pre +:+ t.
Proof.
  revert s. induction pre as [|a pre IH]; intros s; simpl.
  - rewrite app_empty_l. naive_solver.
  - destruct s as [|b s]; [by rewrite app_String|].
    rewrite app_String. destruct (Ascii.eqb_spec a b) as [->|Hne].
    + rewrite (IH s). split; [by intros ->|by intros [= ->]].
    + split; [done|]. by intros [= -> _].
Qed.

Lemma CutSuffix_iff s suffix t : CutSuffix s suffix = Some t ↔ s = t +:+ suffix.
Proof.
  unfold CutSuffix. rewrite fmap_Some. split.
  - intros (r & Hr%CutPrefix_iff & ->). apply rev_inj_s.
    by rewrite rev_app_distr_s, rev_involutive_s.
  - intros ->. exists (String.rev t). split; [|by rewrite rev_involutive_s].
    apply CutPrefix_iff. by rewrite rev_app_distr_s.
Qed.

Lemma trimDotSql_iff s name : trimDotSql s = Some name ↔ s = name +:+ ".sql".
Proof. apply CutSuffix_iff. Qed.

(** The matcher finds exactly the splits the grammar allows. *)
Lemma FindStringSubmatch_iff filename version name :
  FindStringSubmatch filename = Some (version, name) ↔
  matchesGrammar filename version name.
Proof.
  unfold FindStringSubmatch, matchesGrammar. split.
  - destruct (spanDigits filename) as [ds rest] eqn:Hspan.
    apply spanDigits_spec in Hspan as (-> & Hds & _).
    destruct ds as [|d ds]; [done|].
    destruct rest as [|c tail]; [done|].
    repeat case_match; try done; subst.
    intros [= <- <-].
    match goal with H : trimDotSql _ = Some _ |- _ => apply trimDotSql_iff in H as -> end.
    done.
  - intros (-> & Hv & Hdigits & Hn & Hdot).
    rewrite (spanDigits_app version ("_" +:+ name +:+ ".sql")); [|done..].
    destruct version as [|d ds]; [done|].
    rewrite app_String.
    assert (trimDotSql ("" +:+ name +:+ ".sql") = Some name) as ->
      by by apply trimDotSql_iff.
    destruct name as [|n ns]; [done|]. by rewrite Hdot.
Qed.

Lemma FindStringSubmatch_None filename :
  FindStringSubmatch filename = None ↔
  ∀ version name, ¬ matchesGrammar filename version name.
Proof.
  split.
  - intros H version name Hm%FindStringSubmatch_iff. congruence.
  - intros H. destruct (FindStringSubmatch filename) as [[version name]|] eqn:Hf; [|done].
    by apply FindStringSubmatch_iff, H in Hf.
Qed.

(** * Discovery: [loadMigrationFiles] *)


Lemma walkWith_app {A} (fn : A → visit → result A) before after acc :
  walkWith fn (before ++ after) acc =
  match walkWith fn before acc with
  | inl err => Err err
  | inr acc' => walkWith fn after acc'
  end.
Proof.
  revert acc. induction before as [|v before IH]; intros acc; simpl; [done|].
  destruct (fn acc v); [done|]. apply IH.
Qed.

Lemma walkWith_fails {A} (fn : A → visit → result A) vs v acc :
  v ∈ vs → (∀ acc', ∃ err, fn acc' v = Err err) → ∃ err, walkWith fn vs acc = Err err.
Proof.
  intros [before [after ->]]%list_elem_of_split Hv.
  rewrite walkWith_app. destruct (walkWith fn before acc) as [err|acc']; [by eexists|].
  simpl. destruct (Hv acc') as [err ->]. by eexists.
Qed.

Lemma loadMigrationFiles_Ok dir disk files :
  loadMigrationFiles dir disk = Ok files →
  ∃ found, WalkDir dir disk walkFn [] = Ok found ∧ files = Sort.Slice fileLess found.
Proof.
  unfold loadMigrationFiles. destruct (WalkDir dir disk walkFn []) as [err|found]; [done|].
  intros [= <-]. by exists found.
Qed.

Lemma loadMigrationFiles_sorted dir disk files :
  loadMigrationFiles dir disk = Ok files → Sorted versionLe files.
Proof.
  intros (found & _ & ->)%loadMigrationFiles_Ok. apply (Slice_sorted Version).
Qed.

(** C5, as the code has it.  Discovery over an empty directory returns the
    empty sequence; over a source [os.Lstat] cannot reach (a directory that
    does not exist) it fails with the error of the file system, which
    [os.IsNotExist] recognizes when the source is missing; and whatever
    sequence it returns is sorted ascending by version, compared as
    strings. *)
Theorem loadMigrationFiles_empty_missing_sorted :
  (∀ dir, loadMigrationFiles dir (Ok (Dir [])) = Ok [])
  ∧ (∀ dir err, loadMigrationFiles dir (Err err) = Err err)
  ∧ (∀ dir, ∃ err, loadMigrationFiles dir (Err (ErrNotExist dir)) = Err err
                   ∧ IsNotExist err = true)
  ∧ (∀ dir disk files,
       loadMigrationFiles dir disk = Ok files → Sorted versionLe files).
Proof.
  repeat split.
  - intros dir. by eexists.
  - apply loadMigrationFiles_sorted.
Qed.

Lemma twoFilesDisk_loads : loadMigrationFiles "migrations" twoFilesDisk = Ok twoFiles.
Proof. vm_compute. reflexivity. Qed.

Lemma loadMigrationFiles_empty_missing_sorted_witness :
  loadMigrationFiles "migrations" twoFilesDisk = Ok twoFiles ∧ Sorted versionLe twoFiles.
Proof.
  split; [exact twoFilesDisk_loads|].
  exact (proj2 (proj2 (proj2 loadMigrationFiles_empty_missing_sorted))
           "migrations" twoFilesDisk twoFiles twoFilesDisk_loads).
Defined.

(** C5 as stated fails: over a migrations directory that does not exist,
    discovery returns no sequence, it fails. *)
Lemma loadMigrationFiles_missing_dir_fails :
  ¬ ∃ files, loadMigrationFiles "migrations" (Err (ErrNotExist "migrations")) = Ok files.
Proof. intros [files H]. vm_compute in H. discriminate H. Qed.

(** C7.  When the walk reaches a file whose path ends in [.sql] and whose
    name does not match [^(\d+)_(.+)\.sql$], discovery returns an error and
    no list, whatever conforming files the source holds; when nothing fails
    before that file, the error is the parse error of that very file. *)
Theorem loadMigrationFiles_rejects_bad_filename dir disk path d :
  Reached path d ∈ visits dir disk →
  IsDir d = false →
  HasSuffix path ".sql" = true →
  (∀ version name, ¬ matchesGrammar (Base path) version name) →
  (∃ err, loadMigrationFiles dir disk = Err err)
  ∧ (∀ before after found,
       visits dir disk = before ++ Reached path d :: after →
       walkWith walkFn before [] = Ok found →
       loadMigrationFiles dir disk =
         Err (Wrap ("failed to parse " +:+ path)
                (Raw ("invalid migration filename format: " +:+ Base path)))).
Proof.
  intros Hin Hdir Hsuffix Hbad%FindStringSubmatch_None.
  assert (∀ files, walkFn files (Reached path d) =
            Err (Wrap ("failed to parse " +:+ path)
                   (Raw ("invalid migration filename format: " +:+ Base path)))) as Hfn.
  { intros files. unfold walkFn, parseMigrationFile.
    by rewrite Hdir, Hsuffix, Hbad. }
  split.
  - unfold loadMigrationFiles, WalkDir.
    destruct (walkWith_fails walkFn (visits dir disk) (Reached path d) []) as [err ->];
      [done| |by eexists].
    intros files. rewrite Hfn. by eexists.
  - intros before after found Hvisits Hbefore.
    unfold loadMigrationFiles, WalkDir.
    rewrite Hvisits, walkWith_app, Hbefore. cbn -[walkFn]. by rewrite Hfn.
Qed.

Lemma loadMigrationFiles_rejects_bad_filename_witness :
  (∃ err, loadMigrationFiles "migrations" badNameDisk = Err err)
  ∧ loadMigrationFiles "migrations" badNameDisk =
      Err (Wrap "failed to parse migrations/notes.sql"
             (Raw "invalid migration filename format: notes.sql")).
Proof.
  assert (∀ version name, ¬ matchesGrammar (Base "migrations/notes.sql") version name)
    as Hbad by (by apply FindStringSubmatch_None).
  destruct (loadMigrationFiles_rejects_bad_filename "migrations" badNameDisk
              "migrations/notes.sql" (File "SELECT 1;")) as [Hfail Hfirst].
  - vm_compute. apply list_elem_of_In. simpl. tauto.
  - reflexivity.
  - reflexivity.
  - exact Hbad.
  - split; [exact Hfail|].
    eapply (Hfirst [_; _] []); reflexivity.
Defined.

(** * Version allocation: [getNextVersion] *)

(** ** Decimal digits: [fmt] writes what [strconv] reads *)

Lemma digit_spec u :
  (0 ≤ u < 10)%Z → isDigit (digit u) = true ∧ (Z.of_N (byte_of (digit u)) - 48 = u)%Z.
Proof.
  intros Hu.
  assert (u = 0 ∨ u = 1 ∨ u = 2 ∨ u = 3 ∨ u = 4 ∨ u = 5 ∨ u = 6 ∨ u = 7 ∨ u = 8 ∨ u = 9)%Z
    as Hcases by lia.
  repeat destruct Hcases as [->|Hcases]; try subst u; by vm_compute.
Qed.

Lemma parseDigits_app acc s t :
  parseDigits acc (s +:+ t) = parseDigits acc s ≫= λ v, parseDigits v t.
Proof.
  revert acc. induction s as [|c s IH]; intros acc; [done|].
  rewrite app_String. simpl. destruct (isDigit c); [apply IH|done].
Qed.

Lemma digitsInto_app fuel u buf : digitsInto fuel u buf = digitsInto fuel u "" +:+ buf.
Proof.
  revert u buf. induction fuel as [|fuel IH]; intros u buf; simpl; [done|].
  destruct (u <? 10)%Z; [done|].
  rewrite (IH _ (String _ buf)), (IH _ (String _ "")).
  by rewrite app_assoc_s.
Qed.

Lemma digitsInto_value fuel u :
  (0 ≤ u < 10 ^ Z.of_nat fuel)%Z → parseDigits 0 (digitsInto fuel u "") = Some u.
Proof.
  revert u. induction fuel as [|fuel IH]; intros u Hu.
  - change (10 ^ Z.of_nat 0)%Z with 1%Z in Hu. by assert (u = 0%Z) as -> by lia.
  - simpl. destruct (Z.ltb_spec u 10) as [Hlt|Hge].
    + simpl. destruct (digit_spec u) as [-> ->]; [lia|done].
    + rewrite digitsInto_app, parseDigits_app, IH.
      * simpl. destruct (digit_spec (u mod 10)) as [-> ->].
        { apply Z.mod_pos_bound. lia. }
        f_equal. pose proof (Z.div_mod u 10). lia.
      * rewrite Nat2Z.inj_succ, Z.pow_succ_r in Hu by lia.
        split; [apply Z.div_pos; lia|]. apply Z.div_lt_upper_bound; lia.
Qed.

Lemma digitsInto_all fuel u buf :
  (0 ≤ u)%Z → all isDigit buf = true → all isDigit (digitsInto fuel u buf) = true.
Proof.
  revert u buf. induction fuel as [|fuel IH]; intros u buf Hu Hbuf; simpl; [done|].
  destruct (Z.ltb_spec u 10) as [Hlt|Hge].
  - simpl. destruct (digit_spec u) as [-> _]; [lia|done].
  - apply IH; [apply Z.div_pos; lia|]. simpl.
    destruct (digit_spec (u mod 10)) as [-> _]; [|done].
    apply Z.mod_pos_bound. lia.
Qed.

Lemma digits_value u : (0 ≤ u ≤ maxInt)%Z → parseDigits 0 (digits u) = Some u.
Proof.
  intros Hu. apply digitsInto_value. unfold maxInt in Hu.
  change (10 ^ Z.of_nat 20)%Z with 100000000000000000000%Z. lia.
Qed.

Lemma digitsInto_nonempty fuel u buf : digitsInto (S fuel) u buf ≠ "".
Proof.
  cbn [digitsInto]. destruct (u <? 10)%Z; [done|].
  rewrite digitsInto_app. by destruct (digitsInto fuel (u / 10) "").
Qed.

Lemma digits_nonempty u : digits u ≠ "".
Proof. apply digitsInto_nonempty. Qed.

Lemma zeros_value n : parseDigits 0 (zeros n) = Some 0%Z.
Proof. induction n as [|n IH]; [done|]. simpl. exact IH. Qed.

Lemma zeros_all n : all isDigit (zeros n) = true.
Proof. induction n as [|n IH]; [done|]. simpl. exact IH. Qed.

Lemma length_app_s s t : String.length (s +:+ t) = (String.length s + String.length t)%nat.
Proof. induction s as [|c s IH]; [done|]. rewrite app_String. simpl. by rewrite IH. Qed.


(** [%03d] of a value that is not negative: the digits, with zeros put
    before them while they are fewer than three. *)
Lemma fmtInteger_nonneg width v :
  (0 ≤ v)%Z → fmtInteger width v = zeros (width - String.length (digits v)) +:+ digits v.
Proof.
  intros Hv. unfold fmtInteger.
  destruct (Z.ltb_spec v 0) as [?|_]; [lia|]. by rewrite Z.abs_eq.
Qed.

(** [strconv.Atoi] on a string of digits. *)
Lemma Atoi_digits s :
  s ≠ "" → all isDigit s = true →
  ∃ n, parseDigits 0 s = Some n ∧ (0 ≤ n)%Z ∧
       Atoi s = if (n <=? maxInt)%Z then Ok n else Err ErrRange.
Proof.
  intros Hne Hall.
  assert (∀ t acc, all isDigit t = true → (0 ≤ acc)%Z →
            ∃ n, parseDigits acc t = Some n ∧ (0 ≤ n)%Z) as Hparse.
  { induction t as [|c t IH]; intros acc Ht Hacc; simpl in *; [by eexists|].
    apply andb_prop in Ht as [Hc Ht]. rewrite Hc. apply IH; [done|].
    unfold isDigit in Hc. apply andb_prop in Hc as [Hlo%N.leb_le _]. lia. }
  destruct (Hparse s 0%Z Hall) as (n & Hn & Hpos); [done|].
  exists n. split_and!; [done..|].
  destruct s as [|c s]; [done|].
  assert (Atoi (String c s) =
          match parseDigits 0 (String c s) with
          | None => Err ErrSyntax
          | Some n => if ((minInt <=? n) && (n <=? maxInt))%Z then Ok n else Err ErrRange
          end) as ->.
  { simpl in Hall. apply andb_prop in Hall as [Hc _].
    destruct c as [[] [] [] [] [] [] [] []]; try discriminate Hc; reflexivity. }
  rewrite Hn. destruct (Z.leb_spec minInt n) as [_|Hlt]; [done|].
  unfold minInt in Hlt. lia.
Qed.

(** Reading back what [%03d] wrote gives the value. *)
Lemma Atoi_fmtInteger v : (0 ≤ v ≤ maxInt)%Z → Atoi (fmtInteger 3 v) = Ok v.
Proof.
  intros Hv. rewrite fmtInteger_nonneg by lia.
  destruct (Atoi_digits (zeros (3 - String.length (digits v)) +:+ digits v))
    as (n & Hn & _ & ->).
  - pose proof (digits_nonempty v).
    destruct (zeros _); [by rewrite app_empty_l|by rewrite app_String].
  - rewrite all_app, zeros_all. apply digitsInto_all; [lia|done].
  - rewrite parseDigits_app, zeros_value in Hn. simpl in Hn.
    rewrite digits_value in Hn by done. simplify_eq.
    destruct (Z.leb_spec n maxInt); [done|lia].
Qed.


(** ** What discovery returns *)

Lemma walkFn_versionOk files v files' :
  Forall versionOk files → walkFn files v = Ok files' → Forall versionOk files'.
Proof.
  intros Hfiles. destruct v as [path d|path err]; [|done].
  unfold walkFn. destruct (IsDir d || negb (HasSuffix path ".sql")); [by intros [= <-]|].
  unfold parseMigrationFile.
  destruct (FindStringSubmatch (Base path)) as [[version name]|] eqn:Hm; [|done].
  destruct (ReadFile d) as [err|content]; [done|].
  destruct (parseSQL content) as [upSQL downSQL]. intros [= <-].
  apply Forall_app. split; [done|]. constructor; [|done].
  apply FindStringSubmatch_iff in Hm as (_ & Hne & Hdigits & _). done.
Qed.

Lemma walkWith_versionOk vs files files' :
  Forall versionOk files → walkWith walkFn vs files = Ok files' → Forall versionOk files'.
Proof.
  revert files. induction vs as [|v vs IH]; intros files Hfiles; simpl.
  - by intros [= <-].
  - destruct (walkFn files v) as [err|files1] eqn:Hv; [done|].
    apply IH. by eapply walkFn_versionOk.
Qed.

Lemma loadMigrationFiles_versionOk dir disk files :
  loadMigrationFiles dir disk = Ok files → Forall versionOk files.
Proof.
  intros (found & Hwalk & ->)%loadMigrationFiles_Ok.
  rewrite (Slice_perm Version). by eapply walkWith_versionOk.
Qed.

Lemma getNextVersion_loaded dir disk files :
  loadMigrationFiles dir disk = Ok files →
  getNextVersion dir disk =
    match last files with
    | None => Ok "001"
    | Some lastFile =>
        match Atoi (Version lastFile) with
        | inl _ => Err (Raw ("invalid version format: " +:+ Version lastFile))
        | inr lastVersion => Ok (fmtInteger 3 (intAdd lastVersion 1))
        end
    end.
Proof. unfold getNextVersion. by intros ->. Qed.



Example getNextVersion_past_999 :
  getNextVersion "migrations" (Ok (Dir [("999_last.sql", File "")])) = Ok "1000".
Proof. reflexivity. Qed.

(** The order is the one of strings: with ["999"] and ["1000"] on disk the
    last definition is still ["999"]. *)
Example getNextVersion_after_1000 :
  getNextVersion "migrations"
    (Ok (Dir [("1000_next.sql", File ""); ("999_last.sql", File "")])) = Ok "1000".
Proof. reflexivity. Qed.

Example getNextVersion_too_large :
  getNextVersion "migrations" (Ok (Dir [("99999999999999999999_big.sql", File "")])) =
  Err (Raw "invalid version format: 99999999999999999999").
Proof. reflexivity. Qed.

(** * Body extraction: [parseSQL] *)

(** ** [strings.Contains] and [strings.TrimSpace] *)

Lemma Contains_eq s t :
  Contains s t =
  String.prefix t s || match s with EmptyString => false | String _ s' => Contains s' t end.
Proof. by destruct s. Qed.

Lemma Contains_iff s t : Contains s t = true ↔ ∃ a b, s = a +:+ t +:+ b.
Proof.
  split.
  - induction s as [|c s IH]; rewrite Contains_eq, orb_true_iff, prefix_app_iff.
    + intros [[b ->]|?]; [|done]. by exists "", b.
    + intros [[b ->]|[a [b ->]]%IH]; [by exists "", b|].
      by exists (String c a), b.
  - intros (a & b & ->). induction a as [|c a IH].
    + rewrite app_empty_l, Contains_eq.
      assert (String.prefix t (t +:+ b) = true) as -> by (apply prefix_app_iff; by eexists).
      done.
    + rewrite app_String, Contains_eq, IH. apply orb_true_r.
Qed.

Lemma Contains_rev s t : Contains (String.rev s) (String.rev t) = Contains s t.
Proof.
  apply eq_true_iff_eq. rewrite !Contains_iff. split.
  - intros (a & b & H). exists (String.rev b), (String.rev a).
    apply rev_inj_s. by rewrite H, !rev_app_distr_s, !rev_involutive_s, app_assoc_s.
  - intros (a & b & ->). exists (String.rev b), (String.rev a).
    by rewrite !rev_app_distr_s, app_assoc_s.
Qed.

(** Bytes that cannot begin [substr] can be skipped. *)
Lemma Contains_skip w s c t :
  all (λ x, negb (Ascii.eqb x c)) w = true →
  Contains (w +:+ s) (String c t) = Contains s (String c t).
Proof.
  induction w as [|x w IH]; [done|]. simpl. intros [Hx Hw]%andb_prop.
  destruct (ascii_dec c x) as [->|_]; [by rewrite Ascii.eqb_refl in Hx|].
  by apply IH.
Qed.

Ltac bool_to_Prop H :=
  repeat (rewrite orb_true_iff in H || rewrite andb_true_iff in H);
  rewrite ?N.eqb_eq, ?N.leb_le in H.

Lemma space2_bytes c1 c2 : space2 c1 c2 = true → spaceByte c1 = true ∧ spaceByte c2 = true.
Proof.
  unfold space2, spaceByte. intros H.
  assert ((128 <=? byte_of c1)%N = true ∧ (128 <=? byte_of c2)%N = true) as [-> ->];
    [|by rewrite !orb_true_r].
  rewrite !N.leb_le. bool_to_Prop H. lia.
Qed.

Lemma space3_bytes c1 c2 c3 :
  space3 c1 c2 c3 = true →
  spaceByte c1 = true ∧ spaceByte c2 = true ∧ spaceByte c3 = true.
Proof.
  unfold space3, spaceByte. intros H.
  assert ((128 <=? byte_of c1)%N = true ∧ (128 <=? byte_of c2)%N = true
          ∧ (128 <=? byte_of c3)%N = true) as (-> & -> & ->);
    [|by rewrite !orb_true_r].
  rewrite !N.leb_le. cbv zeta in H. bool_to_Prop H. lia.
Qed.

Lemma trimRunes_split flip s :
  ∃ w, s = w +:+ trimRunes flip s ∧ all spaceByte w = true.
Proof.
  assert (∀ n s, (String.length s ≤ n)%nat →
            ∃ w, s = w +:+ trimRunes flip s ∧ all spaceByte w = true) as Hn;
    [|by apply (Hn (String.length s))].
  clear s. induction n as [|n IH]; intros s Hlen.
  { destruct s; [|simpl in Hlen; lia]. by exists "". }
  destruct s as [|c1 s1]; [by exists ""|]. simpl in Hlen.
  cbn [trimRunes]. destruct (asciiSpace c1) eqn:H1.
  { destruct (IH s1) as (w & Hw & Hall); [lia|].
    exists (String c1 w). rewrite app_String, <-Hw. split; [done|].
    simpl. unfold spaceByte at 1. by rewrite H1. }
  destruct s1 as [|c2 s2]; [by exists ""|]. simpl in Hlen.
  destruct (if flip then space2 c2 c1 else space2 c1 c2) eqn:H2.
  { destruct (IH s2) as (w & Hw & Hall); [lia|].
    exists (String c1 (String c2 w)). rewrite !app_String, <-Hw. split; [done|].
    assert (spaceByte c1 = true ∧ spaceByte c2 = true) as [Hb1 Hb2]
      by (destruct flip; apply space2_bytes in H2; tauto).
    simpl. by rewrite Hb1, Hb2. }
  destruct s2 as [|c3 s3]; [by exists ""|]. simpl in Hlen.
  destruct (if flip then space3 c3 c2 c1 else space3 c1 c2 c3) eqn:H3; [|by exists ""].
  destruct (IH s3) as (w & Hw & Hall); [lia|].
  exists (String c1 (String c2 (String c3 w))). rewrite !app_String, <-Hw. split; [done|].
  assert (spaceByte c1 = true ∧ spaceByte c2 = true ∧ spaceByte c3 = true)
    as (Hb1 & Hb2 & Hb3) by (destruct flip; apply space3_bytes in H3; tauto).
  simpl. by rewrite Hb1, Hb2, Hb3.
Qed.

Lemma all_impl (p q : ascii → bool) s :
  (∀ c, p c = true → q c = true) → all p s = true → all q s = true.
Proof.
  intros Hpq. induction s as [|c s IH]; [done|]. simpl.
  intros [Hc Hs]%andb_prop. by rewrite (Hpq c Hc), IH.
Qed.

(** A token that begins and ends with a byte [TrimSpace] never removes is
    in the trimmed line exactly when it is in the line. *)
Lemma Contains_TrimSpace s c t c' t' :
  spaceByte c = false → spaceByte c' = false →
  String.rev (String c t) = String c' t' →
  Contains (TrimSpace s) (String c t) = Contains s (String c t).
Proof.
  intros Hc Hc' Hrev.
  assert (∀ x, spaceByte x = false → ∀ w, all spaceByte w = true →
            all (λ y, negb (Ascii.eqb y x)) w = true) as Hskip.
  { intros x Hx w. apply all_impl. intros y Hy.
    destruct (Ascii.eqb_spec y x) as [->|]; [congruence|done]. }
  unfold TrimSpace, TrimRightSpace, TrimLeftSpace.
  destruct (trimRunes_split false s) as (w1 & Hs & Hw1).
  rewrite Hs at 2. rewrite Contains_skip by by apply Hskip.
  set (u := trimRunes false s).
  destruct (trimRunes_split true (String.rev u)) as (w2 & Hu & Hw2).
  set (v := trimRunes true (String.rev u)) in *.
  rewrite <-(Contains_rev (String.rev v) (String c t)), rev_involutive_s.
  rewrite <-(Contains_rev u (String c t)), Hu, Hrev.
  by rewrite Contains_skip by by apply Hskip.
Qed.

Lemma Contains_TrimSpace_UP s : Contains (TrimSpace s) UP_MARKER = Contains s UP_MARKER.
Proof.
  apply (Contains_TrimSpace s "=" "=== UP ====" "=" "=== PU ===="); reflexivity.
Qed.

Lemma Contains_TrimSpace_DOWN s : Contains (TrimSpace s) DOWN_MARKER = Contains s DOWN_MARKER.
Proof.
  apply (Contains_TrimSpace s "=" "=== DOWN ====" "=" "=== NWOD ===="); reflexivity.
Qed.

(** ** The bodies, line by line *)

Lemma parseSQL_step_marker st text :
  parseSQL_step st text =
  match markerOf text with
  | Some MarkUp => mkScan "up" (upLines st) (downLines st)
  | Some MarkDown => mkScan "down" (upLines st) (downLines st)
  | None =>
      if String.eqb (currentSection st) "up" then
        mkScan (currentSection st) (upLines st ++ [text]) (downLines st)
      else if String.eqb (currentSection st) "down" then
        mkScan (currentSection st) (upLines st) (downLines st ++ [text])
      else st
  end.
Proof.
  unfold parseSQL_step, markerOf.
  rewrite Contains_TrimSpace_UP, Contains_TrimSpace_DOWN.
  by repeat case_match.
Qed.

Lemma fold_parseSQL_step lines st :
  upLines (fold_left parseSQL_step lines st) =
    upLines st ++ collected MarkUp (String.eqb (currentSection st) "up") lines
  ∧ downLines (fold_left parseSQL_step lines st) =
    downLines st ++ collected MarkDown (String.eqb (currentSection st) "down") lines.
Proof.
  revert st. induction lines as [|line lines IH]; intros st; simpl.
  { by rewrite !app_nil_r. }
  destruct (IH (parseSQL_step st line)) as [-> ->].
  rewrite parseSQL_step_marker.
  destruct (markerOf line) as [[]|]; simpl; [done..|].
  destruct (String.eqb_spec (currentSection st) "up") as [Hup|Hup]; simpl.
  { rewrite Hup. simpl. by rewrite <-app_assoc. }
  destruct (String.eqb_spec (currentSection st) "down") as [Hdown|Hdown]; simpl.
  - rewrite Hdown. simpl. by rewrite <-app_assoc.
  - by destruct (String.eqb_spec (currentSection st) "up"),
      (String.eqb_spec (currentSection st) "down").
Qed.

Lemma parseLines_collected lines :
  parseLines lines =
  (TrimSpace (GoStrings.Join (collected MarkUp false lines) nl),
   TrimSpace (GoStrings.Join (collected MarkDown false lines) nl)).
Proof.
  unfold parseLines.
  by destruct (fold_parseSQL_step lines (mkScan "" [] [])) as [-> ->].
Qed.

(** ** What the scanner hands over *)

Lemma scanWhileFits_all lines :
  forallb fits lines = true → scanWhileFits lines = dropCR <$> lines.
Proof.
  induction lines as [|l lines IH]; [done|]. simpl.
  intros [-> Hrest]%andb_prop. by rewrite IH.
Qed.

Lemma scanWhileFits_stop before long after :
  forallb fits before = true → fits long = false →
  scanWhileFits (before ++ long :: after) = dropCR <$> before.
Proof.
  intros Hbefore Hlong. induction before as [|l before IH]; simpl.
  - by rewrite Hlong.
  - simpl in Hbefore. apply andb_prop in Hbefore as [-> Hrest]. by rewrite IH.
Qed.

Lemma rawLines_line line rest :
  noNewline line = true → rawLines (line +:+ nl +:+ rest) = line :: rawLines rest.
Proof.
  induction line as [|c line IH]; [done|]. simpl.
  intros [Hc Hline]%andb_prop.
  destruct (Ascii.eqb c newline); [done|]. by rewrite IH.
Qed.

Lemma rawLines_unlines lines rest :
  forallb noNewline lines = true → rawLines (unlines lines rest) = lines ++ rawLines rest.
Proof.
  induction lines as [|line lines IH]; [done|]. simpl.
  intros [Hline Hlines]%andb_prop. by rewrite rawLines_line, IH.
Qed.

(** When every line fits the scanner's buffer, the bodies are the collected
    lines of the two sections, joined by newlines and trimmed. *)
Lemma parseSQL_bodies content :
  ScanErr content = false →
  let lines := dropCR <$> rawLines content in
  parseSQL content =
  (TrimSpace (GoStrings.Join (collected MarkUp false lines) nl),
   TrimSpace (GoStrings.Join (collected MarkDown false lines) nl)).
Proof.
  intros Hfits%negb_false_iff lines. unfold parseSQL, Scan.
  by rewrite scanWhileFits_all, parseLines_collected.
Qed.

(** A line of [MaxScanTokenSize] bytes or more ends the scan: that line and
    all the text after it are left out, and no error is reported. *)
Lemma parseSQL_long_line before long rest :
  forallb noNewline before = true → forallb fits before = true →
  noNewline long = true → fits long = false →
  parseSQL (unlines (before ++ [long]) rest) = parseLines (dropCR <$> before).
Proof.
  intros Hnl Hfits Hlong Hbig. unfold parseSQL, Scan.
  rewrite rawLines_unlines.
  - rewrite <-app_assoc.
    change ([long] ++ rawLines rest) with (long :: rawLines rest).
    by rewrite scanWhileFits_stop.
  - rewrite forallb_app, Hnl. simpl. by rewrite Hlong.
Qed.

(** The first example migration of the repository. *)
Example parseSQL_create_users :
  parseSQL "-- Migration: Create users table
-- Created: 2024-01-05 10:00:00

-- ==== UP ====
CREATE TABLE users (
    id TEXT PRIMARY KEY,
    email TEXT UNIQUE NOT NULL,
    name TEXT NOT NULL,
    created_at DATETIME NOT NULL DEFAULT CURRENT_TIMESTAMP,
    updated_at DATETIME NOT NULL DEFAULT CURRENT_TIMESTAMP
);

CREATE INDEX idx_users_email ON users(email);

-- ==== DOWN ====
DROP INDEX idx_users_email;
DROP TABLE users;"
  = ("CREATE TABLE users (
    id TEXT PRIMARY KEY,
    email TEXT UNIQUE NOT NULL,
    name TEXT NOT NULL,
    created_at DATETIME NOT NULL DEFAULT CURRENT_TIMESTAMP,
    updated_at DATETIME NOT NULL DEFAULT CURRENT_TIMESTAMP
);

CREATE INDEX idx_users_email ON users(email);",
     "DROP INDEX idx_users_email;
DROP TABLE users;").
Proof. vm_compute. reflexivity. Qed.

(** The tokens are found anywhere in a line, in this very case only, and
    text before the first marker line is dropped. *)
Example parseSQL_markers :
  parseSQL "SELECT 0;
/* ==== UP ==== begin */
SELECT 1;
-- ==== down ====
SELECT 2;
x==== DOWN ====x
SELECT 3;"
  = ("SELECT 1;
-- ==== down ====
SELECT 2;", "SELECT 3;").
Proof. vm_compute. reflexivity. Qed.

(** C8 on the code.  The claim holds as long as every line fits the scanner
    ([parseSQL_bodies]); on a file with a line of 65536 bytes the scan ends
    at that line without an error: the forward body loses the long line and
    the statement after it (by the claim's words it has three lines, of 24,
    65536 and 24 bytes), and the backward body is empty although the file
    has a DOWN section, which by the claim's words holds ["DROP TABLE t;"]. *)
Theorem parseSQL_long_line_truncates :
  parseSQL longLineFile = ("CREATE TABLE t (x TEXT);", "")
  ∧ ScanErr longLineFile = true
  ∧ len <$> collected MarkUp false (dropCR <$> rawLines longLineFile) =
      [24; 65536; 24]%N
  ∧ collected MarkDown false (dropCR <$> rawLines longLineFile) = ["DROP TABLE t;"].
Proof. split_and!; vm_compute; reflexivity. Qed.

(** * The ledger *)

Section LedgerFacts.
Context {Data : Type} (drv : Storage.Driver Data).
Implicit Types s : Storage.TursoStorage Data.

Lemma GetAppliedMigrations_rows s applied :
  Storage.GetAppliedMigrations drv s = Ok applied → applied = appliedRows s.
Proof.
  unfold Storage.GetAppliedMigrations.
  destruct (Storage.stmtErr drv Storage.SelectMigrations s); [done|]. by intros [= <-].
Qed.

Lemma GetAppliedMigrations_Ok s :
  Storage.stmtErr drv Storage.SelectMigrations s = None →
  Storage.GetAppliedMigrations drv s = Ok (appliedRows s).
Proof. unfold Storage.GetAppliedMigrations. by intros ->. Qed.

Lemma appliedRows_perm s :
  appliedRows s ≡ₚ Storage.rowOf <$> map_to_list (Storage.schema_migrations s).
Proof. apply (Slice_perm Storage.Version). Qed.

Lemma appliedRows_elem s row :
  row ∈ appliedRows s ↔
  Storage.schema_migrations s !! Storage.Version row =
    Some (Storage.Name row, Storage.AppliedAt row).
Proof.
  rewrite appliedRows_perm, list_elem_of_fmap. split.
  - intros ([v [n t]] & -> & Hin%elem_of_map_to_list). done.
  - intros Hrow. exists (Storage.Version row, (Storage.Name row, Storage.AppliedAt row)).
    split; [by destruct row|]. by apply elem_of_map_to_list.
Qed.

(** The set [Up] builds from the applied rows is the set of versions in the
    ledger. *)
Lemma appliedSet_dom s :
  list_to_set (Storage.Version <$> appliedRows s) =@{gset string}
  dom (Storage.schema_migrations s).
Proof.
  apply set_eq. intros v.
  rewrite elem_of_list_to_set, list_elem_of_fmap, elem_of_dom. split.
  - intros (row & -> & Hrow%appliedRows_elem). by eexists.
  - intros [[n t] Hv]. exists (Storage.mkMigration v n t). split; [done|].
    by apply appliedRows_elem.
Qed.

Lemma appliedRows_nil s : appliedRows s = [] ↔ Storage.schema_migrations s = ∅.
Proof.
  unfold appliedRows. rewrite (Slice_nil Storage.Version), <-map_to_list_empty_iff.
  split; [apply fmap_nil_inv|by intros ->].
Qed.

(** [applied[len(applied)-1]] is the row of greatest version. *)
Lemma appliedRows_last s lastMigration :
  last (appliedRows s) = Some lastMigration →
  Storage.schema_migrations s !! Storage.Version lastMigration =
    Some (Storage.Name lastMigration, Storage.AppliedAt lastMigration)
  ∧ ∀ version, version ∈ dom (Storage.schema_migrations s) →
      String.le version (Storage.Version lastMigration).
Proof.
  intros Hlast. split.
  - by apply appliedRows_elem, last_Some_elem_of.
  - intros v [[n t] Hv]%elem_of_dom.
    apply (sorted_last_max Storage.Version (appliedRows s) (Storage.mkMigration v n t));
      [apply (Slice_sorted Storage.Version)|done|].
    by apply appliedRows_elem.
Qed.

End LedgerFacts.

(** * The engine: [Up] and [Down] *)

Section EngineFacts.
Context {Data : Type} (drv : Storage.Driver Data) (dir : string).
Implicit Types (w : World (Data:=Data)) (f : MigrationFile) (files : list MigrationFile).
Implicit Types (V : gset string).

(** One turn of the loop of [Up]. *)
Lemma applyPending_skip V f files cnt w :
  Version f ∈ V → applyPending drv V (f :: files) cnt w = applyPending drv V files cnt w.
Proof. intros Hin. simpl. by rewrite decide_True. Qed.

Lemma applyPending_apply V f files cnt w :
  Version f ∉ V →
  applyPending drv V (f :: files) cnt w =
  let w1 := printed w (applyingLine f) in
  match Storage.ExecuteSQL drv (UpSQL f) (db w1) with
  | inl err =>
      (Err (Wrap ("failed to execute migration " +:+ Version f) err),
       logged (CallExecuteSQL (UpSQL f)) (Some err) w1 (db w1) (clock w1))
  | inr s1 =>
      let w2 := logged (CallExecuteSQL (UpSQL f)) None w1 s1 (clock w1) in
      match Storage.RecordMigration drv (Version f) (Name f) (clock w2) s1 with
      | inl err =>
          (Err (Wrap ("failed to record migration " +:+ Version f) err),
           logged (CallRecordMigration (Version f) (Name f)) (Some err) w2 s1 (S (clock w2)))
      | inr s2 =>
          applyPending drv V files (cnt + 1)
            (logged (CallRecordMigration (Version f) (Name f)) None w2 s2 (S (clock w2)))
      end
  end.
Proof.
  intros Hout. simpl. rewrite decide_False by done.
  unfold mbind, M_bind, bind, orWrap, Print, storageExecuteSQL, storageRecordMigration.
  cbn -[Storage.ExecuteSQL Storage.RecordMigration applyPending].
  destruct (Storage.ExecuteSQL drv (UpSQL f) (db w)) as [err|s1]; [done|].
  cbn -[Storage.ExecuteSQL Storage.RecordMigration applyPending].
  by destruct (Storage.RecordMigration drv (Version f) (Name f) (clock w) s1).
Qed.

Lemma RecordMigration_Ok version name now s s' :
  Storage.RecordMigration drv version name now s = Ok s' →
  Storage.schema_migrations s !! version = None
  ∧ Storage.schema_migrations s' = <[version := (name, now)]> (Storage.schema_migrations s).
Proof.
  unfold Storage.RecordMigration.
  destruct (Storage.stmtErr drv _ s); [done|].
  destruct (Storage.schema_migrations s !! version) eqn:Hv; [done|]. by intros [= <-].
Qed.

(** The two calls for one definition whose body leaves the ledger alone. *)
Lemma forward_ledger f st st' :
  keepsLedger drv (UpSQL f) →
  forward drv f st = Ok st' →
  Storage.schema_migrations st.1 !! Version f = None
  ∧ Storage.schema_migrations st'.1 =
      <[Version f := (Name f, st.2)]> (Storage.schema_migrations st.1).
Proof.
  intros Hkeep. unfold forward.
  destruct (Storage.ExecuteSQL drv (UpSQL f) st.1) as [err|s1] eqn:Hexec; [done|].
  destruct (Storage.RecordMigration drv _ _ _ s1) as [err|s2] eqn:Hrecord; [done|].
  intros [= <-]. apply RecordMigration_Ok in Hrecord as [Hfresh Hs2].
  unfold Storage.ExecuteSQL in Hexec. apply Hkeep in Hexec.
  rewrite Hexec in Hfresh, Hs2. done.
Qed.

(** What the calls for [done] leave in the ledger when the bodies of [done]
    leave it alone. *)
Lemma forwardAll_ledger done st st' :
  forwardKeepLedger drv done →
  forwardAll drv done st = Ok st' →
  Storage.schema_migrations st.1 ⊆ Storage.schema_migrations st'.1
  ∧ dom (Storage.schema_migrations st'.1) =
      dom (Storage.schema_migrations st.1) ∪ list_to_set (Version <$> done)
  ∧ ∀ g, g ∈ done → ∃ t, Storage.schema_migrations st'.1 !! Version g = Some (Name g, t).
Proof.
  revert st. induction done as [|f done IH]; intros st Hkeep Hall.
  { injection Hall as <-. split; [done|]. split; [cbn; by rewrite union_empty_r_L|].
    by intros g ?%elem_of_nil. }
  cbn [forwardAll] in Hall.
  destruct (forward drv f st) as [err|st1] eqn:Hf; [done|].
  apply forward_ledger in Hf as [Hfresh Hst1]; [|apply Hkeep; by left].
  destruct (IH st1) as (Hsub & Hdom & Hrec); [intros g Hg; apply Hkeep; by right|done|].
  rewrite Hst1 in Hsub, Hdom. split_and!.
  - etrans; [|exact Hsub]. by apply insert_subseteq.
  - rewrite Hdom, dom_insert_L, fmap_cons. cbn [list_to_set foldr].
    apply set_eq. intros x. rewrite !elem_of_union. tauto.
  - intros g [->|Hg]%elem_of_cons; [|by apply Hrec].
    eexists. eapply lookup_weaken; [|exact Hsub]. apply lookup_insert_eq.
Qed.

(** The loop of [Up], from the world [w] it starts in to the world [w'] it
    ends in.  [done] are the definitions applied and recorded, and [st] the
    database and the clock their calls left; on an error, [f] is the
    definition that failed. *)
Lemma applyPending_run V files cnt w r w' :
  applyPending drv V files cnt w = (r, w') →
  disk w' = disk w ∧
  ∃ done st,
    forwardAll drv done (db w, clock w) = Ok st
    ∧ match r with
      | inr n =>
          filter (isPending V) files = done
          ∧ n = (cnt + Z.of_nat (length done))%Z
          ∧ calls w' = calls w ++ done ≫= forwardCalls
          ∧ stdout w' = stdout w ++ (applyingLine <$> done)
          ∧ db w' = st.1
      | inl err =>
          ∃ f rest cause,
            filter (isPending V) files = done ++ f :: rest
            ∧ ((err = Wrap ("failed to execute migration " +:+ Version f) cause
                ∧ calls w' = calls w ++ (done ≫= forwardCalls)
                               ++ [(CallExecuteSQL (UpSQL f), Some cause)]
                ∧ Storage.ExecuteSQL drv (UpSQL f) st.1 = Err cause
                ∧ db w' = st.1)
               ∨ (err = Wrap ("failed to record migration " +:+ Version f) cause
                  ∧ calls w' = calls w ++ (done ≫= forwardCalls)
                                 ++ [(CallExecuteSQL (UpSQL f), None);
                                     (CallRecordMigration (Version f) (Name f), Some cause)]
                  ∧ ∃ s1, Storage.ExecuteSQL drv (UpSQL f) st.1 = Ok s1
                          ∧ Storage.RecordMigration drv (Version f) (Name f) st.2 s1
                            = Err cause
                          ∧ db w' = s1))
      end.
Proof.
  revert cnt w r w'. induction files as [|f files IH]; intros cnt w r w' Hrun.
  { injection Hrun as <- <-. split; [done|]. exists [], (db w, clock w). simpl.
    rewrite !app_nil_r. split; [done|]. split_and!; [done|lia|done..]. }
  destruct (decide (Version f ∈ V)) as [Hin|Hout].
  { rewrite applyPending_skip in Hrun by done.
    destruct (IH _ _ _ _ Hrun) as (Hdisk & done & st & Hall & Hr).
    split; [done|]. exists done, st. rewrite filter_cons_False by (unfold isPending; tauto).
    done. }
  rewrite applyPending_apply in Hrun by done. cbv zeta in Hrun.
  rewrite filter_cons_True by done.
  change (db (printed w (applyingLine f))) with (db w) in Hrun.
  destruct (Storage.ExecuteSQL drv (UpSQL f) (db w)) as [err|s1] eqn:Hexec.
  { injection Hrun as <- <-. split; [done|]. exists [], (db w, clock w). split; [done|].
    exists f, (filter (isPending V) files), err. split; [done|]. left.
    split; [done|]. split; [by cbn|]. done. }
  cbn [clock logged printed] in Hrun.
  destruct (Storage.RecordMigration drv _ _ _ s1) as [err|s2] eqn:Hrecord.
  { injection Hrun as <- <-. split; [done|]. exists [], (db w, clock w). split; [done|].
    exists f, (filter (isPending V) files), err. split; [done|]. right.
    split; [done|]. split; [cbn; by rewrite <-app_assoc|]. by exists s1. }
  destruct (IH _ _ _ _ Hrun) as (Hdisk & done & st & Hall & Hr). clear IH.
  cbn [db clock logged] in Hall.
  split; [done|]. exists (f :: done), st. split.
  { cbn [forwardAll]. unfold forward. cbn [fst snd]. by rewrite Hexec, Hrecord. }
  destruct r as [err|n].
  - destruct Hr as (g & rest & cause & Hfilter & Hcalls).
    exists g, rest, cause. rewrite Hfilter. split; [done|].
    cbn [calls logged printed] in Hcalls. rewrite <-!app_assoc in Hcalls.
    rewrite bind_cons.
    destruct Hcalls as [(-> & -> & Hbody)|(-> & -> & Hbody)]; [left|right];
      (split; [done|]); (split; [by rewrite <-!app_assoc|done]).
  - destruct Hr as (Hfilter & -> & Hcalls & Hout' & Hdb).
    cbn [calls stdout logged printed] in Hcalls, Hout'.
    rewrite <-?app_assoc in Hcalls. rewrite <-?app_assoc in Hout'.
    rewrite bind_cons, fmap_cons, Hcalls, Hout', Hfilter.
    split_and!; [done| simpl length; lia | reflexivity | reflexivity | done].
Qed.

Lemma Up_loaded w files :
  loadMigrationFiles dir (disk w) = Ok files →
  Up drv dir w =
  match files with
  | [] => (Ok tt, printed w ("No migrations found" +:+ nl))
  | _ :: _ =>
      match Storage.GetAppliedMigrations drv (db w) with
      | inl err => (Err (Wrap "failed to get applied migrations" err), asked w (Some err))
      | inr applied =>
          match applyPending drv (list_to_set (Storage.Version <$> applied)) files 0
                  (asked w None) with
          | (inl err, w') => (Err err, w')
          | (inr n, w') => (Ok tt, printed w' (upReport n))
          end
      end
  end.
Proof.
  intros Hload.
  unfold Up, mbind, M_bind, bind, orWrap, engineLoadMigrationFiles,
    storageGetAppliedMigrations, Println, Print, upReport, asked.
  rewrite Hload. destruct files as [|f files]; [done|].
  cbn -[Storage.GetAppliedMigrations applyPending].
  destruct (Storage.GetAppliedMigrations drv (db w)) as [err|applied]; [done|].
  cbn -[applyPending].
  destruct (applyPending _ _ _ _ _) as [[err|n] w']; [done|].
  by destruct (n =? 0)%Z.
Qed.

Lemma Up_not_loaded w err :
  loadMigrationFiles dir (disk w) = Err err →
  Up drv dir w = (Err (Wrap "failed to load migration files" err), w).
Proof.
  intros Hload. unfold Up, mbind, M_bind, bind, orWrap, engineLoadMigrationFiles.
  by rewrite Hload.
Qed.

Lemma Down_read w applied :
  Storage.GetAppliedMigrations drv (db w) = Ok applied →
  Down drv dir w =
  let w1 := asked w None in
  match last applied with
  | None => (Ok tt, printed w1 ("No migrations to rollback" +:+ nl))
  | Some lastMigration =>
      match loadMigrationFiles dir (disk w) with
      | inl err => (Err (Wrap "failed to load migration files" err), w1)
      | inr files =>
          match matching (Storage.Version lastMigration) files with
          | None =>
              (Err (Raw ("migration file not found for version "
                         +:+ Storage.Version lastMigration)), w1)
          | Some f =>
              if String.eqb (DownSQL f) "" then
                (Err (Raw ("no DOWN migration found for version "
                           +:+ Storage.Version lastMigration)), w1)
              else
                let w2 := printed w1 (rollingLine f) in
                match Storage.ExecuteSQL drv (DownSQL f) (db w) with
                | inl err =>
                    (Err (Wrap ("failed to execute rollback for " +:+ Version f) err),
                     logged (CallExecuteSQL (DownSQL f)) (Some err) w2 (db w) (clock w))
                | inr s1 =>
                    let w3 := logged (CallExecuteSQL (DownSQL f)) None w2 s1 (clock w) in
                    match Storage.RemoveMigration drv (Version f) s1 with
                    | inl err =>
                        (Err (Wrap ("failed to remove migration record " +:+ Version f) err),
                         logged (CallRemoveMigration (Version f)) (Some err) w3 s1 (clock w))
                    | inr s2 =>
                        (Ok tt,
                         printed (logged (CallRemoveMigration (Version f)) None w3 s2 (clock w))
                           ("Migration rolled back successfully" +:+ nl))
                    end
                end
          end
      end
  end.
Proof.
  intros Hread.
  unfold Down, mbind, M_bind, bind, orWrap, raise, engineLoadMigrationFiles,
    storageGetAppliedMigrations, storageExecuteSQL, storageRemoveMigration,
    Println, Print, asked, matching, rollingLine.
  rewrite Hread. cbn -[Storage.ExecuteSQL Storage.RemoveMigration loadMigrationFiles].
  destruct (last applied) as [lastMigration|]; [|done].
  cbn -[Storage.ExecuteSQL Storage.RemoveMigration loadMigrationFiles].
  destruct (loadMigrationFiles dir (disk w)) as [err|files]; [done|].
  cbn -[Storage.ExecuteSQL Storage.RemoveMigration].
  destruct (List.find _ files) as [f|]; [|done].
  destruct (String.eqb (DownSQL f) ""); [done|].
  cbn -[Storage.ExecuteSQL Storage.RemoveMigration].
  destruct (Storage.ExecuteSQL drv (DownSQL f) (db w)) as [err|s1]; [done|].
  cbn -[Storage.ExecuteSQL Storage.RemoveMigration].
  by destruct (Storage.RemoveMigration drv (Version f) s1).
Qed.

Lemma matching_None version files :
  matching version files = None ↔ ∀ f, f ∈ files → Version f ≠ version.
Proof.
  unfold matching. rewrite <-Forall_forall. induction files as [|g files IH]; simpl.
  - split; [constructor|done].
  - destruct (String.eqb_spec (Version g) version) as [Heq|Hne].
    + split; [done|]. by intros [? _]%Forall_cons.
    + rewrite IH, Forall_cons. tauto.
Qed.

Lemma matching_Some version files f :
  matching version files = Some f → f ∈ files ∧ Version f = version.
Proof.
  unfold matching. intros [Hin Heq]%find_some.
  split; [by apply list_elem_of_In|]. by apply String.eqb_eq.
Qed.

Lemma applyPending_nothing V files cnt w :
  filter (isPending V) files = [] → applyPending drv V files cnt w = (Ok cnt, w).
Proof.
  induction files as [|f files IH]; [done|]. intros Hnone.
  destruct (decide (Version f ∈ V)) as [Hin|Hout].
  - rewrite applyPending_skip by done. apply IH.
    by rewrite filter_cons_False in Hnone by (unfold isPending; tauto).
  - by rewrite filter_cons_True in Hnone by done.
Qed.

(** The loop succeeds exactly when those calls do, and ends in the database
    they produce. *)
Lemma applyPending_forwardAll V files cnt w :
  match forwardAll drv (filter (isPending V) files) (db w, clock w) with
  | inr st => ∃ n w', applyPending drv V files cnt w = (Ok n, w')
                      ∧ db w' = st.1 ∧ clock w' = st.2
  | inl _ => ∃ err w', applyPending drv V files cnt w = (Err err, w')
  end.
Proof.
  revert cnt w. induction files as [|f files IH]; intros cnt w.
  { simpl. by eexists _, _. }
  destruct (decide (Version f ∈ V)) as [Hin|Hout].
  { rewrite filter_cons_False by (unfold isPending; tauto).
    rewrite applyPending_skip by done. apply IH. }
  rewrite filter_cons_True by done. rewrite applyPending_apply by done.
  cbn [forwardAll]. unfold forward. cbn [fst snd db clock printed].
  destruct (Storage.ExecuteSQL drv (UpSQL f) (db w)) as [err|s1]; [by eexists _, _|].
  cbn [clock logged printed].
  destruct (Storage.RecordMigration drv _ _ _ s1) as [err|s2]; [by eexists _, _|].
  apply (IH (cnt + 1)%Z
           (logged (CallRecordMigration (Version f) (Name f)) None
              (logged (CallExecuteSQL (UpSQL f)) None (printed w (applyingLine f)) s1 (clock w))
              s2 (S (clock w)))).
Qed.

Lemma pending_elem w files f :
  f ∈ pending w files ↔ f ∈ files ∧ Version f ∉ dom (ledger w).
Proof. unfold pending. rewrite list_elem_of_filter. unfold isPending. tauto. Qed.

(** The loop of [Up] as [Up] runs it: after the ledger was read. *)
Lemma Up_loop_run w files applied r w' :
  Storage.GetAppliedMigrations drv (db w) = Ok applied →
  applyPending drv (list_to_set (Storage.Version <$> applied)) files 0 (asked w None) = (r, w') →
  disk w' = disk w ∧
  ∃ done st,
    forwardAll drv done (db w, clock w) = Ok st
    ∧ match r with
      | inr n =>
          pending w files = done
          ∧ n = Z.of_nat (length done)
          ∧ calls w' = calls w ++ (CallGetAppliedMigrations, None) :: done ≫= forwardCalls
          ∧ stdout w' = stdout w ++ (applyingLine <$> done)
          ∧ db w' = st.1
      | inl err =>
          ∃ f rest cause,
            pending w files = done ++ f :: rest
            ∧ ((err = Wrap ("failed to execute migration " +:+ Version f) cause
                ∧ calls w' = calls w ++ (CallGetAppliedMigrations, None)
                               :: (done ≫= forwardCalls)
                               ++ [(CallExecuteSQL (UpSQL f), Some cause)]
                ∧ Storage.ExecuteSQL drv (UpSQL f) st.1 = Err cause
                ∧ db w' = st.1)
               ∨ (err = Wrap ("failed to record migration " +:+ Version f) cause
                  ∧ calls w' = calls w ++ (CallGetAppliedMigrations, None)
                                 :: (done ≫= forwardCalls)
                                 ++ [(CallExecuteSQL (UpSQL f), None);
                                     (CallRecordMigration (Version f) (Name f), Some cause)]
                  ∧ ∃ s1, Storage.ExecuteSQL drv (UpSQL f) st.1 = Ok s1
                          ∧ Storage.RecordMigration drv (Version f) (Name f) st.2 s1
                            = Err cause
                          ∧ db w' = s1))
      end.
Proof.
  intros ->%GetAppliedMigrations_rows Hrun. rewrite appliedSet_dom in Hrun.
  destruct (applyPending_run _ _ _ _ _ _ Hrun) as (Hdisk & done & st & Hall & Hr).
  split; [done|]. exists done, st. split; [done|].
  unfold pending, ledger. cbn [asked logged calls stdout db] in Hr.
  destruct r as [err|n].
  - destruct Hr as (f & rest & cause & Hfilter & Hcalls).
    exists f, rest, cause. split; [done|].
    rewrite <-!app_assoc in Hcalls. exact Hcalls.
  - destruct Hr as (Hfilter & -> & Hcalls & Hout & Hdb).
    rewrite <-!app_assoc in Hcalls. split_and!; [done|lia|done..].
Qed.

(** C1.  Once the definitions are discovered, the definitions [Up] has to
    apply are those whose version is not in the ledger, in ascending version
    order.  When [Up] succeeds it has, for each of them in that order,
    executed the forward body and then at once recorded the ledger entry,
    and it ends by printing the count of them (or that none was pending, or
    that none was found).  And [Up] does succeed whenever those calls
    succeed one after the other, ending in the database they produce: with
    nothing pending, the database it started in. *)
Theorem Up_applies_pending w files :
  loadMigrationFiles dir (disk w) = Ok files →
  let todo := pending w files in
  (∀ f, f ∈ todo ↔ f ∈ files ∧ Version f ∉ dom (ledger w))
  ∧ Sorted versionLe todo
  ∧ (∀ w', Up drv dir w = (Ok tt, w') →
       calls w' = calls w
                  ++ match files with [] => [] | _ => [(CallGetAppliedMigrations, None)] end
                  ++ todo ≫= forwardCalls
       ∧ stdout w' = stdout w ++ (applyingLine <$> todo)
                     ++ [match files with
                         | [] => "No migrations found" +:+ nl
                         | _ => upReport (Z.of_nat (length todo))
                         end])
  ∧ (files = [] ∨ Storage.stmtErr drv Storage.SelectMigrations (db w) = None →
     ∀ st, forwardAll drv todo (db w, clock w) = Ok st →
     ∃ w', Up drv dir w = (Ok tt, w') ∧ db w' = st.1).
Proof.
  intros Hload todo. subst todo. split_and!.
  - intros f. apply pending_elem.
  - apply (sorted_filter Version). by eapply loadMigrationFiles_sorted.
  - intros w'. rewrite (Up_loaded _ _ Hload).
    destruct files as [|f0 files0].
    { intros [= <-]. unfold pending. simpl. by rewrite !app_nil_r. }
    destruct (Storage.GetAppliedMigrations drv (db w)) as [err|applied] eqn:Hread; [done|].
    destruct (applyPending _ _ _ _ _) as [[err|n] w1] eqn:Hrun; [done|].
    intros [= <-].
    destruct (Up_loop_run _ _ _ _ _ Hread Hrun)
      as (_ & done & st & _ & (<- & -> & Hcalls & Hout & _)).
    cbn [calls stdout printed]. by rewrite Hcalls, Hout, <-app_assoc.
  - intros Hread st Hall. rewrite (Up_loaded _ _ Hload).
    destruct files as [|f0 files0].
    { injection Hall as <-. by eexists. }
    destruct Hread as [?|Hread]; [done|].
    rewrite (GetAppliedMigrations_Ok _ _ Hread). cbv beta iota.
    rewrite appliedSet_dom.
    pose proof (applyPending_forwardAll (dom (ledger w)) (f0 :: files0) 0 (asked w None))
      as Hloop.
    unfold pending in Hall. cbn [asked logged db clock] in Hloop. rewrite Hall in Hloop.
    destruct Hloop as (n & w' & Hrun & Hdb & _). unfold ledger in Hrun.
    rewrite Hrun. by eexists.
Qed.

Lemma forwardCalls_succeeded (done : list MigrationFile) :
  Forall (λ c : call * option error, c.2 = None) (done ≫= forwardCalls).
Proof.
  induction done as [|f done IH]; [constructor|].
  rewrite bind_cons. apply Forall_app. split; [|done]. by repeat constructor.
Qed.

(** C2.  Once the definitions are discovered and the ledger is read: when
    [Up] succeeds, every call it made to the storage succeeded; when it
    fails, some pending definition [f] failed, either on its forward body
    or on its ledger entry, the error names the version of [f] and wraps the
    error of the storage, and the failing call is the last call made (no
    later body, no later entry).  The definitions [done] before [f] were
    applied and recorded and nothing is undone: the database [Up] leaves is
    the one their calls produced, one after the other, with the effects of
    the body of [f] besides when it is the entry of [f] that failed.  So
    the entries of [done] are in the ledger, beside those from before,
    unless one of the bodies that ran wrote to the ledger itself. *)
Theorem Up_stops_at_first_failure w files r w' :
  loadMigrationFiles dir (disk w) = Ok files →
  Storage.stmtErr drv Storage.SelectMigrations (db w) = None →
  Up drv dir w = (r, w') →
  match r with
  | inr _ => ∃ trace, calls w' = calls w ++ trace ∧ Forall (λ c, c.2 = None) trace
  | inl err =>
      ∃ done f rest cause st,
        pending w files = done ++ f :: rest
        ∧ Unwrap err = Some cause
        ∧ forwardAll drv done (db w, clock w) = Ok st
        ∧ ((err = Wrap ("failed to execute migration " +:+ Version f) cause
            ∧ calls w' = calls w ++ (CallGetAppliedMigrations, None)
                           :: (done ≫= forwardCalls)
                           ++ [(CallExecuteSQL (UpSQL f), Some cause)]
            ∧ Storage.ExecuteSQL drv (UpSQL f) st.1 = Err cause
            ∧ db w' = st.1
            ∧ (forwardKeepLedger drv done → stillRecorded w done w'))
           ∨ (err = Wrap ("failed to record migration " +:+ Version f) cause
              ∧ calls w' = calls w ++ (CallGetAppliedMigrations, None)
                             :: (done ≫= forwardCalls)
                             ++ [(CallExecuteSQL (UpSQL f), None);
                                 (CallRecordMigration (Version f) (Name f), Some cause)]
              ∧ (∃ s1, Storage.ExecuteSQL drv (UpSQL f) st.1 = Ok s1
                       ∧ Storage.RecordMigration drv (Version f) (Name f) st.2 s1
                         = Err cause
                       ∧ db w' = s1)
              ∧ (forwardKeepLedger drv (done ++ [f]) → stillRecorded w done w')))
  end.
Proof.
  intros Hload Hread. rewrite (Up_loaded _ _ Hload).
  destruct files as [|f0 files0].
  { intros [= <- <-]. exists []. by rewrite app_nil_r. }
  rewrite (GetAppliedMigrations_Ok _ _ Hread). cbv beta iota.
  destruct (applyPending _ _ _ _ _) as [r1 w1] eqn:Hrun.
  destruct (Up_loop_run _ _ _ _ _ (GetAppliedMigrations_Ok _ _ Hread) Hrun)
    as (_ & done & st & Hall & Hr).
  destruct r1 as [err|n]; intros [= <- <-].
  - destruct Hr as (f & rest & cause & Hpending & Hcalls).
    exists done, f, rest, cause, st. split_and!; [done| |done|].
    { by destruct Hcalls as [[-> _]|[-> _]]. }
    destruct Hcalls as [(Herr & Hcalls & Hbody & Hdb)|(Herr & Hcalls & s1 & Hbody & Hentry & Hdb)];
      [left|right].
    + split_and!; [done..|]. intros Hkeep.
      destruct (forwardAll_ledger _ _ _ Hkeep Hall) as (Hsub & _ & Hrec).
      unfold stillRecorded, ledger. by rewrite Hdb.
    + split_and!; [done|done|by exists s1|]. intros Hkeep.
      assert (forwardKeepLedger drv done) as Hdone
        by (intros g Hg; apply Hkeep, elem_of_app; by left).
      destruct (forwardAll_ledger _ _ _ Hdone Hall) as (Hsub & _ & Hrec).
      unfold Storage.ExecuteSQL in Hbody.
      apply (Hkeep f) in Hbody; [|apply elem_of_app; right; by left].
      unfold stillRecorded, ledger. by rewrite Hdb, Hbody.
  - destruct Hr as (_ & _ & Hcalls & _). cbn [calls printed]. rewrite Hcalls.
    eexists. split; [done|]. constructor; [done|]. apply forwardCalls_succeeded.
Qed.

(** C9.  When the forward bodies of the pending definitions, the ones the
    first run executes, do not write to the ledger themselves, a second [Up]
    right after the successful one, over the same files, executes no body
    and writes no ledger entry: the only call it can make is the one
    reading the ledger, it leaves the database as it is, and when that read
    succeeds it succeeds with nothing pending. *)
Theorem Up_again_applies_nothing w files w1 r2 w2 :
  loadMigrationFiles dir (disk w) = Ok files →
  forwardKeepLedger drv (pending w files) →
  Up drv dir w = (Ok tt, w1) →
  Up drv dir w1 = (r2, w2) →
  disk w1 = disk w
  ∧ db w2 = db w1
  ∧ (∃ trace, calls w2 = calls w1 ++ trace
              ∧ Forall (λ c, c.1 = CallGetAppliedMigrations) trace)
  ∧ loadMigrationFiles dir (disk w1) = Ok files
  ∧ pending w1 files = []
  ∧ (Storage.stmtErr drv Storage.SelectMigrations (db w1) = None →
     r2 = Ok tt
     ∧ stdout w2 = stdout w1 ++ [match files with
                                 | [] => "No migrations found" +:+ nl
                                 | _ => "No pending migrations" +:+ nl
                                 end]).
Proof.
  intros Hload Hkeep Hfirst Hsecond.
  assert (disk w1 = disk w ∧ pending w1 files = []) as [Hdisk Hnone].
  { rewrite (Up_loaded _ _ Hload) in Hfirst. destruct files as [|f0 files0].
    { by injection Hfirst as <-. }
    destruct (Storage.GetAppliedMigrations drv (db w)) as [err|applied] eqn:Hread; [done|].
    destruct (applyPending _ _ _ _ _) as [[err|n] w'] eqn:Hrun; [done|].
    injection Hfirst as <-.
    destruct (Up_loop_run _ _ _ _ _ Hread Hrun)
      as (Hdisk & done & st & Hall & (Hdone & _ & _ & _ & Hdb)).
    subst done.
    destruct (forwardAll_ledger _ _ _ Hkeep Hall) as (Hsub & _ & Hrecorded).
    cbn [fst] in Hsub. rewrite <-Hdb in Hsub, Hrecorded.
    split; [done|].
    apply elem_of_nil_inv. intros f [Hf Hpending]%pending_elem. apply Hpending.
    apply elem_of_dom. change (ledger (printed w' (upReport n))) with (ledger w').
    destruct (decide (Version f ∈ dom (ledger w))) as [[x Hx]%elem_of_dom|Hout].
    - exists x. by eapply lookup_weaken.
    - destruct (Hrecorded f) as [t Ht]; [|by eexists].
      by apply pending_elem. }
  rewrite <-Hdisk in Hload. rewrite (Up_loaded _ _ Hload) in Hsecond.
  split; [done|].
  destruct files as [|f0 files0].
  { injection Hsecond as <- <-. split_and!; [done| |done|done|done].
    exists []. by rewrite app_nil_r. }
  destruct (Storage.stmtErr drv Storage.SelectMigrations (db w1)) as [err|] eqn:Hread.
  - unfold Storage.GetAppliedMigrations in Hsecond. rewrite Hread in Hsecond.
    injection Hsecond as <- <-. split_and!; [done| |done|done|done].
    eexists. split; [done|]. by repeat constructor.
  - rewrite (GetAppliedMigrations_Ok _ _ Hread) in Hsecond.
    cbv beta iota in Hsecond.
    rewrite appliedSet_dom, applyPending_nothing in Hsecond by exact Hnone.
    injection Hsecond as <- <-. split_and!; [done| |done|done|done].
    eexists. split; [done|]. by repeat constructor.
Qed.

(** C3.  With the ledger readable: on an empty ledger [Down] succeeds
    after that one read, executing nothing.  On a ledger that is not empty
    the entry [Down] picks is an applied entry of greatest version, whatever
    the times of application; and when the definition of that version is
    discovered with a backward body that is not empty, and the body and the
    removal succeed, [Down] executes that body and then removes the entry of
    that version: the ledger is the one the body left, less that one
    entry. *)
Theorem Down_reverts_last w :
  Storage.stmtErr drv Storage.SelectMigrations (db w) = None →
  (ledger w = ∅ →
   Down drv dir w = (Ok tt, printed (asked w None) ("No migrations to rollback" +:+ nl)))
  ∧ (ledger w ≠ ∅ →
     ∃ lastMigration,
       last (appliedRows (db w)) = Some lastMigration
       ∧ ledger w !! Storage.Version lastMigration =
           Some (Storage.Name lastMigration, Storage.AppliedAt lastMigration)
       ∧ (∀ version, version ∈ dom (ledger w) →
            String.le version (Storage.Version lastMigration))
       ∧ ∀ files f s1,
           loadMigrationFiles dir (disk w) = Ok files →
           matching (Storage.Version lastMigration) files = Some f →
           DownSQL f ≠ "" →
           Storage.ExecuteSQL drv (DownSQL f) (db w) = Ok s1 →
           Storage.stmtErr drv (Storage.DeleteMigration (Version f)) s1 = None →
           ∃ w',
             Down drv dir w = (Ok tt, w')
             ∧ f ∈ files ∧ Version f = Storage.Version lastMigration
             ∧ calls w' = calls w ++ [(CallGetAppliedMigrations, None);
                                      (CallExecuteSQL (DownSQL f), None);
                                      (CallRemoveMigration (Version f), None)]
             ∧ ledger w' = delete (Version f) (Storage.schema_migrations s1)
             ∧ (∀ version, version ≠ Version f →
                  ledger w' !! version = Storage.schema_migrations s1 !! version)
             ∧ Storage.data (db w') = Storage.data s1).
Proof.
  intros Hread. pose proof (GetAppliedMigrations_Ok _ _ Hread) as Hrows.
  rewrite (Down_read _ _ Hrows). cbv zeta. split.
  - intros Hempty%appliedRows_nil. by rewrite Hempty.
  - intros Hne.
    destruct (last (appliedRows (db w))) as [lastMigration|] eqn:Hlast.
    2:{ apply last_None in Hlast. by apply appliedRows_nil in Hlast. }
    exists lastMigration. destruct (appliedRows_last _ _ Hlast) as [Hrow Hmax].
    split_and!; [done..|].
    intros files f s1 -> Hf Hbody Hexec Hremove. cbv beta iota. rewrite Hf.
    destruct (String.eqb_spec (DownSQL f) ""); [done|]. rewrite Hexec.
    unfold Storage.RemoveMigration. rewrite Hremove.
    apply matching_Some in Hf as [Hin Hversion].
    eexists. split; [done|]. split_and!; [done..| | | |done].
    + cbn. by rewrite <-!app_assoc.
    + done.
    + intros version Hother. unfold ledger. cbn. by rewrite lookup_delete_ne.
Qed.

Lemma matching_unique version files f :
  NoDup (Version <$> files) → f ∈ files → Version f = version →
  matching version files = Some f.
Proof.
  unfold matching. induction files as [|g files IH]; intros Hnodup Hin Hversion.
  { by apply elem_of_nil in Hin. }
  rewrite fmap_cons, NoDup_cons in Hnodup. destruct Hnodup as [Hfresh Hnodup]. simpl.
  apply elem_of_cons in Hin as [->|Hin].
  - by rewrite Hversion, String.eqb_refl.
  - destruct (String.eqb_spec (Version g) version) as [Heq|_]; [|by apply IH].
    destruct Hfresh. rewrite Heq, <-Hversion. by apply list_elem_of_fmap_2.
Qed.

(** C4.  With the ledger read and the definitions discovered, let [version]
    be the version of the last applied entry, the greatest in the ledger.
    When no discovered definition has that version, [Down] fails with an
    error naming it; when the definition of that version (the first one, if
    several files carry it) has an empty backward body, [Down] fails with the
    error that there is no DOWN migration for it.  Either way the only call
    made to the storage is the read of the ledger: no body is executed and
    the database is as it was. *)
Theorem Down_refuses_unknown_or_irreversible w applied lastMigration files :
  Storage.GetAppliedMigrations drv (db w) = Ok applied →
  last applied = Some lastMigration →
  loadMigrationFiles dir (disk w) = Ok files →
  let version := Storage.Version lastMigration in
  (ledger w !! version = Some (Storage.Name lastMigration, Storage.AppliedAt lastMigration)
   ∧ ∀ other, other ∈ dom (ledger w) → String.le other version)
  ∧ ((∀ f, f ∈ files → Version f ≠ version) →
     Down drv dir w =
       (Err (Raw ("migration file not found for version " +:+ version)), asked w None))
  ∧ (∀ f, matching version files = Some f → DownSQL f = "" →
     Down drv dir w =
       (Err (Raw ("no DOWN migration found for version " +:+ version)), asked w None))
  ∧ db (asked w None) = db w
  ∧ calls (asked w None) = calls w ++ [(CallGetAppliedMigrations, None)].
Proof.
  intros Hread Hlast Hload version.
  rewrite (Down_read _ _ Hread), Hlast, Hload. cbv zeta.
  apply GetAppliedMigrations_rows in Hread as ->.
  destruct (appliedRows_last _ _ Hlast) as [Hrow Hmax].
  split_and!; [done..| | |done|done].
  - intros Hnone%matching_None. fold version. by rewrite Hnone.
  - intros f Hf Hbody. fold version. by rewrite Hf, Hbody.
Qed.

Lemma applyPending_app V before after cnt w :
  applyPending drv V (before ++ after) cnt w =
  match applyPending drv V before cnt w with
  | (inl err, w') => (Err err, w')
  | (inr n, w') => applyPending drv V after n w'
  end.
Proof.
  revert cnt w. induction before as [|f before IH]; intros cnt w; [done|].
  rewrite <-app_comm_cons.
  destruct (decide (Version f ∈ V)) as [Hin|Hout].
  { rewrite !applyPending_skip by done. apply IH. }
  rewrite !applyPending_apply by done. cbv zeta.
  destruct (Storage.ExecuteSQL drv (UpSQL f) _) as [err|s1]; [done|].
  destruct (Storage.RecordMigration drv _ _ _ s1) as [err|s2]; [done|].
  apply IH.
Qed.

Lemma applyPending_calls V files cnt w r w' :
  applyPending drv V files cnt w = (r, w') → ∃ trace, calls w' = calls w ++ trace.
Proof.
  intros (_ & done & st & _ & Hr)%applyPending_run. destruct r as [err|n].
  - destruct Hr as (f & rest & cause & _ & [(_ & -> & _)|(_ & -> & _)]); by eexists.
  - destruct Hr as (_ & _ & -> & _). by eexists.
Qed.

Lemma parseSQL_no_marker content :
  Forall (λ line, markerOf line = None) (Scan content) → parseSQL content = ("", "").
Proof.
  intros Hnone. unfold parseSQL. rewrite parseLines_collected.
  assert (∀ want, collected want false (Scan content) = []) as Hcollected.
  { intros want. induction Hnone as [|line lines Hline _ IH]; [done|].
    simpl. by rewrite Hline. }
  by rewrite !Hcollected.
Qed.

(** C10.  A file without marker lines has an empty forward body.  And when
    the loop of [Up] comes, in the world [w1], to a pending definition [f]
    whose forward body is empty, it does not skip it: the empty body is
    what it hands to the executor.  When the executor refuses it, [Up] fails
    with that error under the version of [f] and records nothing; when the
    executor accepts it, the next call is the one recording [f]. *)
Theorem Up_submits_empty_body :
  (∀ content,
     Forall (λ line, markerOf line = None) (Scan content) → (parseSQL content).1 = "")
  ∧ ∀ w files before f after n w1,
      loadMigrationFiles dir (disk w) = Ok files →
      Storage.stmtErr drv Storage.SelectMigrations (db w) = None →
      files = before ++ f :: after →
      Version f ∉ dom (ledger w) →
      UpSQL f = "" →
      applyPending drv (dom (ledger w)) before 0 (asked w None) = (Ok n, w1) →
      match Storage.txExec drv "" (db w1) with
      | inl cause =>
          ∃ w', Up drv dir w =
                  (Err (Wrap ("failed to execute migration " +:+ Version f) cause), w')
                ∧ db w' = db w1
                ∧ calls w' = calls w1 ++ [(CallExecuteSQL "", Some cause)]
      | inr s1 =>
          ∃ r w' recorded rest,
            Up drv dir w = (r, w')
            ∧ calls w' = calls w1 ++ (CallExecuteSQL "", None)
                           :: (CallRecordMigration (Version f) (Name f), recorded) :: rest
            ∧ recorded =
                match Storage.RecordMigration drv (Version f) (Name f) (clock w1) s1 with
                | inl err => Some err
                | inr _ => None
                end
      end.
Proof.
  split.
  { intros content Hnone. by rewrite parseSQL_no_marker. }
  intros w files before f after n w1 Hload Hread Hfiles Hpending Hbody Hbefore.
  rewrite (Up_loaded _ _ Hload).
  destruct files as [|f0 files0]; [by destruct before|].
  rewrite Hfiles. clear Hfiles Hload f0 files0.
  rewrite (GetAppliedMigrations_Ok _ _ Hread). cbv beta iota.
  unfold ledger in Hbefore, Hpending.
  rewrite appliedSet_dom, applyPending_app, Hbefore.
  rewrite applyPending_apply by done. cbv zeta. rewrite Hbody.
  unfold Storage.ExecuteSQL. cbn [db printed].
  destruct (Storage.txExec drv "" (db w1)) as [cause|s1]; [by eexists|].
  cbn [clock logged printed].
  destruct (Storage.RecordMigration drv _ _ _ s1) as [err|s2] eqn:Hrecord.
  - eexists _, _, (Some err), []. split; [done|]. split; [|done].
    cbn. by rewrite <-app_assoc.
  - destruct (applyPending drv _ after _ _) as [r2 w2] eqn:Hrest.
    destruct (applyPending_calls _ _ _ _ _ _ Hrest) as [trace Htrace].
    cbn [calls logged printed] in Htrace. rewrite <-!app_assoc in Htrace.
    exists (match r2 with inl err => Err err | inr _ => Ok tt end),
      (match r2 with inl _ => w2 | inr n' => printed w2 (upReport n') end),
      None, trace.
    split; [by destruct r2|]. split; [by destruct r2|done].
Qed.

End EngineFacts.

(** * Runs of the engine *)

Lemma demoDriver_keeps_ledger sql : keepsLedger demoDriver sql.
Proof.
  intros s s'. simpl. destruct (Contains sql "BOOM"); [done|]. by intros [= <-].
Qed.

Lemma demoDriver_forward files : forwardKeepLedger demoDriver files.
Proof. intros f _. apply demoDriver_keeps_ledger. Qed.

Lemma wipingDriver_keeps_ledger sql :
  Contains sql "DELETE FROM schema_migrations" = false → keepsLedger wipingDriver sql.
Proof.
  intros Hno s s'. unfold wipingDriver. cbn [Storage.txExec]. rewrite Hno.
  by intros [= <-].
Qed.

Lemma sameVersionDisk_loads :
  loadMigrationFiles "migrations" sameVersionDisk = Ok sameVersionFiles.
Proof. vm_compute. reflexivity. Qed.

(** The bodies of the two sample files leave the ledger alone, also in the
    database in which [DELETE FROM schema_migrations] does what it says. *)
Lemma wipingDriver_twoFiles :
  forwardKeepLedger wipingDriver (pending freshWorld twoFiles).
Proof.
  intros f Hf. apply list_elem_of_In in Hf. vm_compute in Hf.
  destruct Hf as [<-|[<-|[]]]; apply wipingDriver_keeps_ledger; vm_compute; reflexivity.
Qed.

Lemma Up_applies_pending_witness :
  loadMigrationFiles "migrations" (disk freshWorld) = Ok twoFiles
  ∧ Up demoDriver "migrations" freshWorld = (Ok tt, appliedWorld)
  ∧ calls appliedWorld =
      [(CallGetAppliedMigrations, None);
       (CallExecuteSQL "CREATE TABLE users (id TEXT PRIMARY KEY);", None);
       (CallRecordMigration "001" "create_users", None);
       (CallExecuteSQL "CREATE TABLE posts (id TEXT PRIMARY KEY);", None);
       (CallRecordMigration "002" "create_posts", None)]
  ∧ last (stdout appliedWorld) = Some ("Applied 2 migration(s)" +:+ nl).
Proof.
  pose proof (Up_applies_pending demoDriver "migrations" freshWorld twoFiles
                twoFilesDisk_loads) as (_ & _ & Hrun & _).
  assert (Up demoDriver "migrations" freshWorld = (Ok tt, appliedWorld)) as Hup
    by (vm_compute; reflexivity).
  destruct (Hrun _ Hup) as [Hcalls Hout].
  split_and!; [exact twoFilesDisk_loads|exact Hup|..].
  - rewrite Hcalls. reflexivity.
  - rewrite Hout. reflexivity.
Defined.

Lemma Up_stops_at_first_failure_witness :
  (∃ w',
     Up demoDriver "migrations" boomWorld =
       (Err (Wrap "failed to execute migration 002" (Raw "SQL logic error")), w')
     ∧ calls w' =
         [(CallGetAppliedMigrations, None);
          (CallExecuteSQL "CREATE TABLE users (id TEXT PRIMARY KEY);", None);
          (CallRecordMigration "001" "create_users", None);
          (CallExecuteSQL "BOOM;", Some (Raw "SQL logic error"))]
     ∧ ledger w' !! "001" = Some ("create_users", 10)
     ∧ ∃ done f rest st,
         pending boomWorld boomFiles = done ++ f :: rest
         ∧ forwardAll demoDriver done (db boomWorld, clock boomWorld) = Ok st
         ∧ db w' = st.1
         ∧ stillRecorded boomWorld done w')
  ∧ (∃ w' cause,
       Up demoDriver "migrations" sameVersionWorld =
         (Err (Wrap "failed to record migration 001" cause), w')
       ∧ ∃ done f rest st s1,
           pending sameVersionWorld sameVersionFiles = done ++ f :: rest
           ∧ forwardAll demoDriver done (db sameVersionWorld, clock sameVersionWorld) = Ok st
           ∧ Storage.ExecuteSQL demoDriver (UpSQL f) st.1 = Ok s1
           ∧ db w' = s1
           ∧ stillRecorded sameVersionWorld done w').
Proof.
  split.
  - exists (Up demoDriver "migrations" boomWorld).2.
    assert (Up demoDriver "migrations" boomWorld =
              (Err (Wrap "failed to execute migration 002" (Raw "SQL logic error")),
               (Up demoDriver "migrations" boomWorld).2)) as Hup
      by (vm_compute; reflexivity).
    assert (loadMigrationFiles "migrations" (disk boomWorld) = Ok boomFiles) as Hload
      by (vm_compute; reflexivity).
    destruct (Up_stops_at_first_failure demoDriver "migrations" boomWorld boomFiles _ _
                Hload eq_refl Hup) as (done & f & rest & cause & st & Hpending & _ & Hall & Hcase).
    split; [exact Hup|].
    split; [vm_compute; reflexivity|].
    split; [vm_compute; reflexivity|].
    exists done, f, rest, st.
    split; [exact Hpending|].
    split; [exact Hall|].
    destruct Hcase as [(_ & _ & _ & Hdb & Hkept)|(Herr & _)].
    + split; [exact Hdb|]. apply Hkept, demoDriver_forward.
    + injection Herr as Hmsg _. cbn in Hmsg. discriminate Hmsg.
  - exists (Up demoDriver "migrations" sameVersionWorld).2.
    assert (∃ cause, Up demoDriver "migrations" sameVersionWorld =
              (Err (Wrap "failed to record migration 001" cause),
               (Up demoDriver "migrations" sameVersionWorld).2)) as [cause0 Hup]
      by (eexists; vm_compute; reflexivity).
    exists cause0.
    destruct (Up_stops_at_first_failure demoDriver "migrations" sameVersionWorld
                sameVersionFiles _ _ sameVersionDisk_loads eq_refl Hup)
      as (done & f & rest & cause & st & Hpending & _ & Hall & Hcase).
    split; [exact Hup|].
    destruct Hcase as [(Herr & _)|(_ & _ & (s1 & Hbody & _ & Hdb) & Hkept)].
    + injection Herr as Hmsg _. cbn in Hmsg. discriminate Hmsg.
    + exists done, f, rest, st, s1.
      split; [exact Hpending|].
      split; [exact Hall|].
      split; [exact Hbody|].
      split; [exact Hdb|].
      apply Hkept, demoDriver_forward.
Defined.

Lemma Down_reverts_last_witness :
  ∃ w',
    Down demoDriver "migrations" outOfOrderWorld = (Ok tt, w')
    ∧ calls w' = [(CallGetAppliedMigrations, None);
                  (CallExecuteSQL "DROP TABLE posts;", None);
                  (CallRemoveMigration "002", None)]
    ∧ ledger w' = delete "002" (ledger outOfOrderWorld).
Proof.
  destruct (Down_reverts_last demoDriver "migrations" outOfOrderWorld eq_refl)
    as [_ Hlast].
  destruct Hlast as (lastMigration & Hpick & _ & _ & Hdown).
  { intros Hempty. vm_compute in Hempty. discriminate Hempty. }
  vm_compute in Hpick. injection Hpick as <-.
  destruct (Hdown twoFiles
              (mkFile "002" "create_posts" "migrations/002_create_posts.sql"
                 "CREATE TABLE posts (id TEXT PRIMARY KEY);" "DROP TABLE posts;")
              (Storage.mkStorage (ledger outOfOrderWorld) ["DROP TABLE posts;"]))
    as (w' & Hrun & _ & _ & Hcalls & Hledger & _).
  - exact twoFilesDisk_loads.
  - reflexivity.
  - discriminate.
  - reflexivity.
  - reflexivity.
  - exists w'. split_and!; [exact Hrun|exact Hcalls|exact Hledger].
Defined.

Lemma Down_refuses_unknown_or_irreversible_witness :
  (Down demoDriver "migrations" orphanWorld =
     (Err (Raw "migration file not found for version 003"), asked orphanWorld None)
   ∧ db (asked orphanWorld None) = db orphanWorld)
  ∧ (Down demoDriver "migrations" irreversibleWorld =
       (Err (Raw "no DOWN migration found for version 002"), asked irreversibleWorld None)
     ∧ db (asked irreversibleWorld None) = db irreversibleWorld).
Proof.
  split.
  - destruct (Down_refuses_unknown_or_irreversible demoDriver "migrations" orphanWorld
                [Storage.mkMigration "001" "create_users" 1;
                 Storage.mkMigration "003" "add_index" 2]
                (Storage.mkMigration "003" "add_index" 2) twoFiles)
      as (_ & Hmissing & _ & Hdb & _).
    + vm_compute. reflexivity.
    + reflexivity.
    + exact twoFilesDisk_loads.
    + split; [|exact Hdb]. apply Hmissing.
      intros f Hf. unfold twoFiles in Hf.
      apply elem_of_cons in Hf as [->|Hf]; [apply String.eqb_neq; reflexivity|].
      apply elem_of_cons in Hf as [->|Hf]; [apply String.eqb_neq; reflexivity|].
      exact (False_ind _ (proj1 (elem_of_nil f) Hf)).
  - destruct (Down_refuses_unknown_or_irreversible demoDriver "migrations" irreversibleWorld
                [Storage.mkMigration "001" "create_users" 1;
                 Storage.mkMigration "002" "break" 2]
                (Storage.mkMigration "002" "break" 2) boomFiles)
      as (_ & _ & Hempty & Hdb & _).
    + vm_compute. reflexivity.
    + reflexivity.
    + vm_compute. reflexivity.
    + split; [|exact Hdb].
      apply (Hempty (mkFile "002" "break" "migrations/002_break.sql" "BOOM;" ""));
        reflexivity.
Defined.

Lemma Up_again_applies_nothing_witness :
  ∃ r2 w2,
    Up wipingDriver "migrations" freshWorld = (Ok tt, appliedWorld)
    ∧ Up wipingDriver "migrations" appliedWorld = (r2, w2)
    ∧ r2 = Ok tt
    ∧ db w2 = db appliedWorld
    ∧ pending appliedWorld twoFiles = []
    ∧ ∃ trace, calls w2 = calls appliedWorld ++ trace
               ∧ Forall (λ c, c.1 = CallGetAppliedMigrations) trace.
Proof.
  exists (Up wipingDriver "migrations" appliedWorld).1,
    (Up wipingDriver "migrations" appliedWorld).2.
  assert (Up wipingDriver "migrations" freshWorld = (Ok tt, appliedWorld)) as Hfirst
    by (vm_compute; reflexivity).
  assert (Up wipingDriver "migrations" appliedWorld =
            ((Up wipingDriver "migrations" appliedWorld).1,
             (Up wipingDriver "migrations" appliedWorld).2)) as Hsecond
    by (vm_compute; reflexivity).
  destruct (Up_again_applies_nothing wipingDriver "migrations" freshWorld twoFiles _ _ _
              twoFilesDisk_loads wipingDriver_twoFiles Hfirst Hsecond)
    as (_ & Hdb & Htrace & _ & Hnone & Hok).
  destruct (Hok eq_refl) as [Hr2 _].
  split_and!; [exact Hfirst|exact Hsecond|exact Hr2|exact Hdb|exact Hnone|exact Htrace].
Defined.

Lemma Up_submits_empty_body_witness :
  (∃ w',
     Up demoDriver "migrations" noMarkerWorld = (Ok tt, w')
     ∧ calls w' = [(CallGetAppliedMigrations, None);
                   (CallExecuteSQL "", None);
                   (CallRecordMigration "001" "notes", None)])
  ∧ (∃ w',
       Up strictDriver "migrations" noMarkerWorld =
         (Err (Wrap "failed to execute migration 001" (Raw "empty statement")), w')
       ∧ ledger w' = ∅
       ∧ calls w' = [(CallGetAppliedMigrations, None);
                     (CallExecuteSQL "", Some (Raw "empty statement"))]).
Proof.
  assert (loadMigrationFiles "migrations" (disk noMarkerWorld) = Ok [noMarkerFile]) as Hload
    by (vm_compute; reflexivity).
  split.
  - destruct (proj2 (Up_submits_empty_body demoDriver "migrations")
                noMarkerWorld [noMarkerFile] [] noMarkerFile [] 0%Z (asked noMarkerWorld None)
                Hload eq_refl eq_refl)
      as (r & w' & recorded & rest & Hrun & Hcalls & Hrecorded).
    + vm_compute. intros Hin. discriminate Hin.
    + reflexivity.
    + reflexivity.
    + exists (Up demoDriver "migrations" noMarkerWorld).2. split; vm_compute; reflexivity.
  - destruct (proj2 (Up_submits_empty_body strictDriver "migrations")
                noMarkerWorld [noMarkerFile] [] noMarkerFile [] 0%Z (asked noMarkerWorld None)
                Hload eq_refl eq_refl)
      as (w' & Hrun & Hdb & Hcalls).
    + vm_compute. intros Hin. discriminate Hin.
    + reflexivity.
    + reflexivity.
    + exists w'. split_and!; [exact Hrun| |exact Hcalls].
      unfold ledger. rewrite Hdb. reflexivity.
Defined.

(** C9 as stated fails: the second definition empties the ledger before it
    is recorded itself, the first run succeeds, and the second run, over the
    same files, executes the forward body of the first definition again and
    writes its ledger entry again. *)
Lemma Up_again_applies_after_wipe :
  ∃ w1 w2,
    Up wipingDriver "migrations" wipingWorld = (Ok tt, w1)
    ∧ Up wipingDriver "migrations" w1 = (Ok tt, w2)
    ∧ calls w2 = calls w1 ++
        [(CallGetAppliedMigrations, None);
         (CallExecuteSQL "CREATE TABLE IF NOT EXISTS users (id TEXT PRIMARY KEY);", None);
         (CallRecordMigration "001" "create_users", None)].
Proof.
  exists (Up wipingDriver "migrations" wipingWorld).2,
    (Up wipingDriver "migrations" (Up wipingDriver "migrations" wipingWorld).2).2.
  split_and!; vm_compute; reflexivity.
Qed.

(** * Discovery, file by file *)

Lemma walkFn_acc acc v :
  walkFn acc v =
  match walkFn [] v with
  | inl err => Err err
  | inr out => Ok (acc ++ out)
  end.
Proof.
  destruct v as [path d|path err]; simpl; [|done].
  destruct (IsDir d || negb (HasSuffix path ".sql")); simpl.
  - by rewrite app_nil_r.
  - by destruct (parseMigrationFile path d).
Qed.

Lemma walkWith_acc vs acc :
  walkWith walkFn vs acc =
  match walkWith walkFn vs [] with
  | inl err => Err err
  | inr out => Ok (acc ++ out)
  end.
Proof.
  revert acc. induction vs as [|v vs IH]; intros acc; simpl.
  - by rewrite app_nil_r.
  - rewrite walkFn_acc. destruct (walkFn [] v) as [err|out]; [done|].
    rewrite (IH (acc ++ out)), (IH out).
    destruct (walkWith walkFn vs []) as [err|out']; [done|].
    by rewrite app_assoc.
Qed.

Lemma walkFn_out v out :
  walkFn [] v = Ok out → out = [] ∨ ∃ f, out = [f].
Proof.
  destruct v as [path d|path err]; simpl; [|done].
  destruct (IsDir d || negb (HasSuffix path ".sql")); [naive_solver|].
  destruct (parseMigrationFile path d); naive_solver.
Qed.

Lemma walkWith_elem vs found f :
  walkWith walkFn vs [] = Ok found →
  f ∈ found ↔ ∃ v, v ∈ vs ∧ walkFn [] v = Ok [f].
Proof.
  revert found. induction vs as [|v vs IH]; intros found; simpl.
  - intros [= <-]. split; [by intros ?%elem_of_nil|]. by intros (v & ?%elem_of_nil & _).
  - destruct (walkFn [] v) as [err|out] eqn:Hv; [done|].
    rewrite walkWith_acc. destruct (walkWith walkFn vs []) as [err|found'] eqn:Hvs; [done|].
    intros [= <-]. rewrite elem_of_app, (IH found' eq_refl). split.
    + intros [Hf|(v' & Hv' & Hf)].
      * exists v. split; [left|]. rewrite Hv.
        destruct (walkFn_out _ _ Hv) as [->|[g ->]]; [by apply elem_of_nil in Hf|].
        by apply list_elem_of_singleton in Hf as ->.
      * exists v'. split; [by right|done].
    + intros (v' & [->|Hv']%elem_of_cons & Hf).
      * left. rewrite Hv in Hf. injection Hf as ->. by left.
      * right. by exists v'.
Qed.

Lemma parseMigrationFile_Ok path d f :
  parseMigrationFile path d = Ok f ↔
  Path f = path
  ∧ matchesGrammar (Base path) (Version f) (Name f)
  ∧ ∃ content, ReadFile d = Ok content ∧ parseSQL content = (UpSQL f, DownSQL f).
Proof.
  unfold parseMigrationFile. split.
  - destruct (FindStringSubmatch (Base path)) as [[version name]|] eqn:Hname; [|done].
    apply FindStringSubmatch_iff in Hname.
    destruct (ReadFile d) as [err|content]; [done|].
    destruct (parseSQL content) as [upSQL downSQL] eqn:Hparse.
    intros [= <-]. simpl. split; [done|]. split; [done|]. by exists content.
  - intros (Hpath & Hname%FindStringSubmatch_iff & content & Hread & Hparse).
    rewrite Hname, Hread, Hparse. destruct f. simpl in *. by subst.
Qed.

Lemma walkFn_one v f :
  walkFn [] v = Ok [f] ↔
  ∃ d, v = Reached (Path f) d
       ∧ IsDir d = false ∧ HasSuffix (Path f) ".sql" = true
       ∧ parseMigrationFile (Path f) d = Ok f.
Proof.
  split.
  - destruct v as [path d|path err]; simpl; [|done].
    destruct (IsDir d) eqn:Hdir; [done|].
    destruct (HasSuffix path ".sql") eqn:Hsql; [|done]. simpl.
    destruct (parseMigrationFile path d) as [err|g] eqn:Hparse; [done|].
    intros [= ->]. pose proof Hparse as (Hpath & _)%parseMigrationFile_Ok.
    subst path. by exists d.
  - intros (d & -> & Hdir & Hsql & Hparse). simpl. by rewrite Hdir, Hsql, Hparse.
Qed.

(** X1.  What discovery returns, exactly: a definition is in the list if and
    only if the walk below the migrations directory reaches, at the path of
    the definition, a readable file whose path ends in [.sql] and whose base
    name is [<version>_<name>.sql] in the grammar of the file-name
    expression, and the two bodies are those [parseSQL] extracts from its
    content.  Files in subdirectories count; directories and files with
    another suffix do not. *)
Theorem loadMigrationFiles_exactly dir disk files :
  loadMigrationFiles dir disk = Ok files →
  ∀ f, f ∈ files ↔
    ∃ d content,
      Reached (Path f) d ∈ visits dir disk
      ∧ HasSuffix (Path f) ".sql" = true
      ∧ ReadFile d = Ok content
      ∧ matchesGrammar (Base (Path f)) (Version f) (Name f)
      ∧ parseSQL content = (UpSQL f, DownSQL f).
Proof.
  intros (found & Hwalk & ->)%loadMigrationFiles_Ok f.
  rewrite (Slice_perm Version found : Sort.Slice fileLess found ≡ₚ found).
  unfold WalkDir in Hwalk. rewrite (walkWith_elem _ _ f Hwalk). split.
  - intros (v & Hv & (d & -> & Hdir & Hsql & Hparse)%walkFn_one).
    apply parseMigrationFile_Ok in Hparse as (_ & Hname & content & Hread & Hbodies).
    by exists d, content.
  - intros (d & content & Hv & Hsql & Hread & Hname & Hbodies).
    exists (Reached (Path f) d). split; [done|]. apply walkFn_one. exists d.
    split; [done|]. split; [by destruct d|]. split; [done|].
    apply parseMigrationFile_Ok. split; [done|]. split; [done|]. by exists content.
Qed.

(** X2.  A migration file that cannot be read makes the whole discovery
    fail: a well-named [.sql] file on which [os.ReadFile] fails is an error
    of [loadMigrationFiles], and when the walk got that far without an error
    it is [failed to parse <path>: failed to read file: <err>]. *)
Theorem loadMigrationFiles_unreadable_file dir disk path err version name :
  Reached path (FileDenied err) ∈ visits dir disk →
  HasSuffix path ".sql" = true →
  matchesGrammar (Base path) version name →
  (∃ e, loadMigrationFiles dir disk = Err e)
  ∧ (∀ before after found,
       visits dir disk = before ++ Reached path (FileDenied err) :: after →
       walkWith walkFn before [] = Ok found →
       loadMigrationFiles dir disk =
         Err (Wrap ("failed to parse " +:+ path) (Wrap "failed to read file" err))).
Proof.
  intros Hv Hsql Hname%FindStringSubmatch_iff.
  assert (∀ acc, walkFn acc (Reached path (FileDenied err)) =
                 Err (Wrap ("failed to parse " +:+ path) (Wrap "failed to read file" err)))
    as Hfn.
  { intros acc. simpl. rewrite Hsql. simpl. unfold parseMigrationFile.
    by rewrite Hname. }
  split.
  - unfold loadMigrationFiles, WalkDir.
    destruct (walkWith_fails walkFn (visits dir disk) _ [] Hv) as [e He].
    { intros acc. eexists. apply Hfn. }
    exists e. by rewrite He.
  - intros before after found Hvisits Hbefore.
    unfold loadMigrationFiles, WalkDir.
    rewrite Hvisits, walkWith_app, Hbefore. simpl walkWith.
    by rewrite Hsql; simpl; unfold parseMigrationFile; rewrite Hname.
Qed.

(** X3.  A directory that cannot be listed, anywhere below the migrations
    directory, makes discovery fail; when the walk got that far the error is
    the one of [os.ReadDir] as it is, since the function given to [WalkDir]
    returns it without wrapping it. *)
Theorem loadMigrationFiles_unreadable_dir dir disk path err :
  Failed path err ∈ visits dir disk →
  (∃ e, loadMigrationFiles dir disk = Err e)
  ∧ (∀ before after found,
       visits dir disk = before ++ Failed path err :: after →
       walkWith walkFn before [] = Ok found →
       loadMigrationFiles dir disk = Err err).
Proof.
  intros Hv. split.
  - unfold loadMigrationFiles, WalkDir.
    destruct (walkWith_fails walkFn (visits dir disk) _ [] Hv) as [e He].
    { intros acc. by eexists. }
    exists e. by rewrite He.
  - intros before after found Hvisits Hbefore.
    unfold loadMigrationFiles, WalkDir.
    by rewrite Hvisits, walkWith_app, Hbefore.
Qed.

(** * The engine: failures and what they leave *)
Section MoreEngineFacts.
Context {Data : Type} (drv : Storage.Driver Data) (dir : string).
Implicit Types (w : World (Data:=Data)) (f : MigrationFile) (files : list MigrationFile).
Implicit Types (V : gset string).




Lemma Down_not_read w err :
  Storage.GetAppliedMigrations drv (db w) = Err err →
  Down drv dir w = (Err (Wrap "failed to get applied migrations" err), asked w (Some err)).
Proof.
  intros Hread.
  unfold Down, mbind, M_bind, bind, orWrap, storageGetAppliedMigrations.
  by rewrite Hread.
Qed.

(** X5.  A rollback that fails.  When the backward body fails, [Down] returns
    [failed to execute rollback for <version>], has not called
    [RemoveMigration] and leaves the database as it was.  When the body
    succeeds and the removal of the entry fails, [Down] returns [failed to
    remove migration record <version>]; the effects of the body stay, and
    when that body leaves the ledger alone the ledger still lists the
    version, so that the next [Down] picks the same definition again. *)
Theorem Down_failure_keeps_entry w applied lastMigration files f :
  Storage.GetAppliedMigrations drv (db w) = Ok applied →
  last applied = Some lastMigration →
  loadMigrationFiles dir (disk w) = Ok files →
  matching (Storage.Version lastMigration) files = Some f →
  DownSQL f ≠ "" →
  match Storage.ExecuteSQL drv (DownSQL f) (db w) with
  | inl cause =>
      ∃ w',
        Down drv dir w =
          (Err (Wrap ("failed to execute rollback for " +:+ Version f) cause), w')
        ∧ db w' = db w
        ∧ calls w' = calls w ++ [(CallGetAppliedMigrations, None);
                                 (CallExecuteSQL (DownSQL f), Some cause)]
  | inr s1 =>
      match Storage.RemoveMigration drv (Version f) s1 with
      | inl cause =>
          ∃ w',
            Down drv dir w =
              (Err (Wrap ("failed to remove migration record " +:+ Version f) cause), w')
            ∧ db w' = s1
            ∧ calls w' = calls w ++ [(CallGetAppliedMigrations, None);
                                     (CallExecuteSQL (DownSQL f), None);
                                     (CallRemoveMigration (Version f), Some cause)]
            ∧ (keepsLedger drv (DownSQL f) →
               ledger w' = ledger w ∧ appliedRows (db w') = appliedRows (db w))
      | inr _ => ∃ w', Down drv dir w = (Ok tt, w')
      end
  end.
Proof.
  intros Hread Hlast Hload Hmatch Hbody%String.eqb_neq.
  rewrite (Down_read _ _ _ _ Hread). cbv zeta. rewrite Hlast, Hload, Hmatch, Hbody.
  destruct (Storage.ExecuteSQL drv (DownSQL f) (db w)) as [cause|s1] eqn:Hexec.
  { eexists. split; [done|]. split; [done|]. cbn. by rewrite <-app_assoc. }
  destruct (Storage.RemoveMigration drv (Version f) s1) as [cause|s2]; [|by eexists].
  eexists. split; [done|]. split; [done|]. split.
  { cbn. by rewrite <-!app_assoc. }
  intros Hkeep. unfold ledger, appliedRows. cbn [db logged].
  unfold Storage.ExecuteSQL in Hexec. by rewrite (Hkeep _ _ Hexec).
Qed.

(** X6.  What a rollback leaves pending.  After a successful [Down] on a
    non-empty ledger, when the backward body it executed leaves the ledger
    alone, the ledger is the old one without its greatest version, the files
    are untouched, and the definitions pending for the next [Up] are those
    pending before and those of the version rolled back. *)
Theorem Down_makes_pending w w' files :
  ledger w ≠ ∅ →
  loadMigrationFiles dir (disk w) = Ok files →
  (∀ f, rolledBack w files = Some f → keepsLedger drv (DownSQL f)) →
  Down drv dir w = (Ok tt, w') →
  ∃ lastMigration,
    last (appliedRows (db w)) = Some lastMigration
    ∧ ledger w' = delete (Storage.Version lastMigration) (ledger w)
    ∧ disk w' = disk w
    ∧ ∀ g, g ∈ pending w' files ↔
           g ∈ pending w files ∨ (g ∈ files ∧ Version g = Storage.Version lastMigration).
Proof.
  intros Hledger Hload Hkeep Hdown.
  destruct (Storage.GetAppliedMigrations drv (db w)) as [err|applied] eqn:Hread.
  { by rewrite (Down_not_read _ _ Hread) in Hdown. }
  rewrite (Down_read _ _ _ _ Hread) in Hdown. cbv zeta in Hdown.
  apply GetAppliedMigrations_rows in Hread as ->.
  unfold rolledBack in Hkeep.
  destruct (last (appliedRows (db w))) as [lastMigration|] eqn:Hlast.
  2: { apply last_None, appliedRows_nil in Hlast. done. }
  exists lastMigration. split; [done|]. rewrite Hload in Hdown.
  destruct (matching _ files) as [f|] eqn:Hmatch; [|done].
  specialize (Hkeep f eq_refl).
  apply matching_Some in Hmatch as [_ Hversion].
  destruct (String.eqb (DownSQL f) ""); [done|].
  destruct (Storage.ExecuteSQL drv (DownSQL f) (db w)) as [cause|s1] eqn:Hexec; [done|].
  unfold Storage.RemoveMigration in Hdown.
  destruct (Storage.stmtErr drv _ s1); [done|].
  injection Hdown as <-.
  assert (ledger
            (printed
               (logged (CallRemoveMigration (Version f)) None
                  (logged (CallExecuteSQL (DownSQL f)) None
                     (printed (asked w None) (rollingLine f)) s1 (clock w))
                  (Storage.mkStorage (delete (Version f) (Storage.schema_migrations s1))
                     (Storage.data s1)) (clock w))
               ("Migration rolled back successfully" +:+ nl))
          = delete (Storage.Version lastMigration) (ledger w)) as Hafter.
  { unfold ledger. cbn [db logged printed Storage.schema_migrations].
    unfold Storage.ExecuteSQL in Hexec. by rewrite (Hkeep _ _ Hexec), Hversion. }
  split; [done|]. split; [done|].
  intros g. rewrite !pending_elem, Hafter, dom_delete_L, elem_of_difference, elem_of_singleton.
  destruct (decide (Version g = Storage.Version lastMigration)) as [Heq|Hne]; tauto.
Qed.

End MoreEngineFacts.

Section ResumeFacts.
Context {Data : Type} (drv : Storage.Driver Data) (dir : string).
Implicit Types (w : World (Data:=Data)) (f : MigrationFile) (files : list MigrationFile).
Implicit Types (V : gset string).

Lemma filter_pending_more V V' (versions : list string) files :
  V' = V ∪ list_to_set versions →
  filter (isPending V') files =
  filter (λ g, Version g ∉ versions) (filter (isPending V) files).
Proof.
  intros ->. induction files as [|g files IH]; [done|].
  unfold isPending in *.
  destruct (decide (Version g ∈ V)) as [Hin|Hout].
  { rewrite (filter_cons_False (λ f, Version f ∉ V)) by tauto.
    rewrite filter_cons_False; [done|]. rewrite elem_of_union. tauto. }
  rewrite (filter_cons_True (λ f, Version f ∉ V)) by done.
  destruct (decide (Version g ∈ versions)) as [Hin'|Hout'].
  - rewrite !filter_cons_False; [done|tauto|].
    rewrite elem_of_union, elem_of_list_to_set. tauto.
  - rewrite !filter_cons_True; [by rewrite IH|done|].
    rewrite elem_of_union, elem_of_list_to_set. tauto.
Qed.

Lemma filter_none {A} (P : A → Prop) `{∀ x, Decision (P x)} (l : list A) :
  (∀ x, x ∈ l → ¬ P x) → filter P l = [].
Proof.
  induction l as [|x l IH]; intros Hnone; [done|].
  rewrite filter_cons_False by (apply Hnone; by left).
  apply IH. intros y Hy. apply Hnone. by right.
Qed.

Lemma filter_every {A} (P : A → Prop) `{∀ x, Decision (P x)} (l : list A) :
  (∀ x, x ∈ l → P x) → filter P l = l.
Proof.
  induction l as [|x l IH]; intros Hall; [done|].
  rewrite filter_cons_True by (apply Hall; by left).
  rewrite IH; [done|]. intros y Hy. apply Hall. by right.
Qed.

(** X7.  A failed [Up] is taken up again where it failed.  When the forward
    bodies of the pending definitions leave the ledger alone and [Up] fails,
    its error names the version of the pending definition [f] it failed at,
    after the pending definitions [done]; the ledger has gained exactly the
    versions of [done]; and when the pending versions are pairwise distinct,
    the definitions pending for the next run are [f] and the ones after
    it. *)
Theorem Up_resumes w files err w' :
  loadMigrationFiles dir (disk w) = Ok files →
  Storage.stmtErr drv Storage.SelectMigrations (db w) = None →
  forwardKeepLedger drv (pending w files) →
  Up drv dir w = (Err err, w') →
  ∃ done f rest cause,
    pending w files = done ++ f :: rest
    ∧ (err = Wrap ("failed to execute migration " +:+ Version f) cause
       ∨ err = Wrap ("failed to record migration " +:+ Version f) cause)
    ∧ disk w' = disk w
    ∧ dom (ledger w') = dom (ledger w) ∪ list_to_set (Version <$> done)
    ∧ (NoDup (Version <$> pending w files) → pending w' files = f :: rest).
Proof.
  intros Hload Hread Hkeep Hup. rewrite (Up_loaded _ _ _ _ Hload) in Hup.
  destruct files as [|f0 files0]; [done|].
  pose proof (GetAppliedMigrations_Ok _ _ Hread) as Hrows.
  rewrite Hrows in Hup. cbv beta iota in Hup.
  destruct (applyPending drv _ (f0 :: files0) 0 (asked w None)) as [[e|n] w1] eqn:Hrun;
    [|done].
  injection Hup as <- <-.
  destruct (Up_loop_run _ _ _ _ _ _ Hrows Hrun)
    as (Hdisk & done & st & Hall & f & rest & cause & Hsplit & Hcase).
  assert (forwardKeepLedger drv done) as Hkept.
  { intros g Hg. apply Hkeep. rewrite Hsplit. apply elem_of_app. by left. }
  destruct (forwardAll_ledger _ _ _ _ Hkept Hall) as (_ & Hst & _). cbn [fst] in Hst.
  assert (dom (ledger w1) = dom (ledger w) ∪ list_to_set (Version <$> done)) as Hdom.
  { unfold ledger at 1.
    destruct Hcase as [(_ & _ & _ & ->)|(_ & _ & s1 & Hbody & _ & ->)]; [exact Hst|].
    unfold Storage.ExecuteSQL in Hbody. apply Hkeep in Hbody; [by rewrite Hbody|].
    rewrite Hsplit. apply elem_of_app. right. by left. }
  exists done, f, rest, cause. split; [done|]. split.
  { destruct Hcase as [(-> & _)|(-> & _)]; [by left|by right]. }
  split; [done|]. split; [done|].
  intros Hdistinct. unfold pending at 1.
  rewrite (filter_pending_more _ _ _ _ Hdom). fold (pending w (f0 :: files0)).
  rewrite Hsplit in Hdistinct |- *. rewrite fmap_app in Hdistinct.
  apply NoDup_app in Hdistinct as (_ & Hapart & _).
  rewrite filter_app, filter_none, filter_every; [done|..].
  - intros g Hg Hin. apply (Hapart (Version g)); [done|]. by apply list_elem_of_fmap_2.
  - intros g Hg Hout. apply Hout. by apply list_elem_of_fmap_2.
Qed.

End ResumeFacts.

(** * The engine: what runs add up to *)
Section ComposeFacts.
Context {Data : Type} (drv : Storage.Driver Data) (dir : string).
Implicit Types (w : World (Data:=Data)) (f : MigrationFile) (files : list MigrationFile).
Implicit Types (V : gset string).

(** What a successful loop has recorded when the bodies it ran leave the
    ledger alone. *)
Lemma Up_loop_recorded w files applied n w' :
  Storage.GetAppliedMigrations drv (db w) = Ok applied →
  forwardKeepLedger drv (pending w files) →
  applyPending drv (list_to_set (Storage.Version <$> applied)) files 0 (asked w None)
    = (Ok n, w') →
  disk w' = disk w
  ∧ ledger w ⊆ ledger w'
  ∧ dom (ledger w') = dom (ledger w) ∪ list_to_set (Version <$> pending w files)
  ∧ ∀ f, f ∈ pending w files → ∃ t, ledger w' !! Version f = Some (Name f, t).
Proof.
  intros Hread Hkeep Hrun.
  destruct (Up_loop_run _ _ _ _ _ _ Hread Hrun)
    as (Hdisk & done & st & Hall & (Hdone & _ & _ & _ & Hdb)).
  subst done. split; [done|].
  destruct (forwardAll_ledger _ _ _ _ Hkeep Hall) as (Hsub & Hdom & Hrecorded).
  unfold ledger. rewrite Hdb. done.
Qed.

(** X8.  What a successful [Up] has recorded.  When the forward bodies of
    the pending definitions leave the ledger alone, after [Up] succeeded the
    old entries of the ledger are as they were, the versions of the ledger
    are the old ones and those of the pending definitions, each pending
    definition has its entry under its own name, every definition
    discovered is applied, and the files are untouched. *)
Theorem Up_records_pending w files w' :
  loadMigrationFiles dir (disk w) = Ok files →
  forwardKeepLedger drv (pending w files) →
  Up drv dir w = (Ok tt, w') →
  ledger w ⊆ ledger w'
  ∧ dom (ledger w') = dom (ledger w) ∪ list_to_set (Version <$> pending w files)
  ∧ (∀ f, f ∈ pending w files → ∃ t, ledger w' !! Version f = Some (Name f, t))
  ∧ (∀ f, f ∈ files → Version f ∈ dom (ledger w'))
  ∧ disk w' = disk w.
Proof.
  intros Hload Hkeep Hup. rewrite (Up_loaded _ _ _ _ Hload) in Hup.
  destruct files as [|f0 files0].
  { injection Hup as <-. split; [done|]. split.
    { cbn. by rewrite union_empty_r_L. }
    split; [by intros f ?%elem_of_nil|]. split; [by intros f ?%elem_of_nil|done]. }
  destruct (Storage.GetAppliedMigrations drv (db w)) as [err|applied] eqn:Hread; [done|].
  destruct (applyPending drv _ (f0 :: files0) 0 (asked w None)) as [[e|n] w1] eqn:Hrun;
    [done|].
  injection Hup as <-.
  destruct (Up_loop_recorded _ _ _ _ _ Hread Hkeep Hrun) as (Hdisk & Hsub & Hdom & Hrecorded).
  change (ledger (printed w1 (upReport n))) with (ledger w1).
  split; [done|]. split; [done|]. split; [done|]. split; [|done].
  intros f Hf. rewrite Hdom, elem_of_union, elem_of_list_to_set.
  destruct (decide (Version f ∈ dom (ledger w))) as [Hin|Hout]; [by left|].
  right. apply list_elem_of_fmap_2. by apply pending_elem.
Qed.

(** What a successful [Down] has done to the ledger. *)
Lemma Down_succeeded w w' files :
  ledger w ≠ ∅ →
  loadMigrationFiles dir (disk w) = Ok files →
  (∀ f, rolledBack w files = Some f → keepsLedger drv (DownSQL f)) →
  Down drv dir w = (Ok tt, w') →
  ∃ f, f ∈ files ∧ Version f ∈ dom (ledger w)
       ∧ ledger w' = delete (Version f) (ledger w) ∧ disk w' = disk w.
Proof.
  intros Hledger Hload Hkeep Hdown.
  destruct (Storage.GetAppliedMigrations drv (db w)) as [err|applied] eqn:Hread.
  { by rewrite (Down_not_read _ _ _ _ Hread) in Hdown. }
  rewrite (Down_read _ _ _ _ Hread) in Hdown. cbv zeta in Hdown.
  apply GetAppliedMigrations_rows in Hread as ->.
  unfold rolledBack in Hkeep.
  destruct (last (appliedRows (db w))) as [lastMigration|] eqn:Hlast.
  2: { apply last_None, appliedRows_nil in Hlast. done. }
  apply appliedRows_last in Hlast as [Hin _].
  rewrite Hload in Hdown.
  destruct (matching _ files) as [f|] eqn:Hmatch; [|done].
  specialize (Hkeep f eq_refl).
  apply matching_Some in Hmatch as [Hf Hversion].
  destruct (String.eqb (DownSQL f) ""); [done|].
  destruct (Storage.ExecuteSQL drv (DownSQL f) (db w)) as [cause|s1] eqn:Hexec; [done|].
  unfold Storage.RemoveMigration in Hdown.
  destruct (Storage.stmtErr drv _ s1); [done|].
  injection Hdown as <-. exists f. split; [done|]. split.
  { rewrite Hversion. apply elem_of_dom. by eexists. }
  split; [|done]. unfold ledger. cbn [db logged printed Storage.schema_migrations].
  unfold Storage.ExecuteSQL in Hexec. by rewrite (Hkeep _ _ Hexec).
Qed.

(** X9.  [Down] and then [Up].  When the backward body the [Down] executes
    and the forward bodies pending after it leave the ledger alone, and
    [Down] succeeds on a non-empty ledger and the [Up] after it succeeds
    too, the applied versions are those from before the [Down] together with
    those that were pending then: the version rolled back is applied again.
    When nothing was pending, the set of applied versions is the one from
    before. *)
Theorem Down_then_Up w w1 w2 files :
  ledger w ≠ ∅ →
  loadMigrationFiles dir (disk w) = Ok files →
  (∀ f, rolledBack w files = Some f → keepsLedger drv (DownSQL f)) →
  forwardKeepLedger drv (pending w1 files) →
  Down drv dir w = (Ok tt, w1) →
  Up drv dir w1 = (Ok tt, w2) →
  dom (ledger w2) = dom (ledger w) ∪ list_to_set (Version <$> pending w files)
  ∧ (pending w files = [] → dom (ledger w2) = dom (ledger w))
  ∧ disk w2 = disk w.
Proof.
  intros Hledger Hload Hback Hkeep Hdown Hup.
  destruct (Down_succeeded _ _ _ Hledger Hload Hback Hdown) as (f & Hf & Hin & Hw1 & Hdisk).
  rewrite <-Hdisk in Hload.
  rewrite (Up_loaded _ _ _ _ Hload) in Hup.
  assert (dom (ledger w2) =
          dom (ledger w1) ∪ list_to_set (Version <$> pending w1 files) ∧ disk w2 = disk w1)
    as [Hdom Hdisk2].
  { destruct files as [|f0 files0]; [by apply elem_of_nil in Hf|].
    destruct (Storage.GetAppliedMigrations drv (db w1)) as [err|applied] eqn:Hread; [done|].
    destruct (applyPending drv _ (f0 :: files0) 0 (asked w1 None)) as [[e|n] w3] eqn:Hrun;
      [done|].
    injection Hup as <-.
    destruct (Up_loop_recorded _ _ _ _ _ Hread Hkeep Hrun) as (Hdisk3 & _ & Hdom & _).
    split; [|done]. exact Hdom. }
  assert (dom (ledger w2) = dom (ledger w) ∪ list_to_set (Version <$> pending w files))
    as Hall.
  { rewrite Hdom. apply set_eq. intros v.
    rewrite !elem_of_union, !elem_of_list_to_set, !list_elem_of_fmap.
    rewrite Hw1, dom_delete_L, elem_of_difference, elem_of_singleton.
    split.
    - intros [[Hv _]|(g & -> & Hg)]; [by left|].
      apply pending_elem in Hg as [Hg Hout].
      rewrite Hw1, dom_delete_L, elem_of_difference, elem_of_singleton in Hout.
      destruct (decide (Version g ∈ dom (ledger w))) as [Hold|Hnew]; [by left|].
      right. exists g. split; [done|]. by apply pending_elem.
    - intros [Hv|(g & -> & Hg)].
      + destruct (decide (v = Version f)) as [->|Hne]; [|by left].
        right. exists f. split; [done|]. apply pending_elem. split; [done|].
        rewrite Hw1, dom_delete_L, elem_of_difference, elem_of_singleton. tauto.
      + apply pending_elem in Hg as [Hg Hout]. right. exists g. split; [done|].
        apply pending_elem. split; [done|].
        rewrite Hw1, dom_delete_L, elem_of_difference. tauto. }
  split; [done|]. split; [|by rewrite Hdisk2].
  intros Hnone. rewrite Hall, Hnone. cbn. by rewrite union_empty_r_L.
Qed.

End ComposeFacts.

(** * Body extraction: lines and line ends *)

(** X10.  The bodies of a file whose lines all fit the buffer of the scanner
    (each is shorter than 65536 bytes): every line is scanned, with one
    trailing carriage return dropped, and each body is the lines collected
    for its section, joined by newlines and trimmed. *)
Theorem parseSQL_collects content :
  forallb fits (rawLines content) = true →
  let lines := dropCR <$> rawLines content in
  Scan content = lines
  ∧ parseSQL content =
      (TrimSpace (GoStrings.Join (collected MarkUp false lines) nl),
       TrimSpace (GoStrings.Join (collected MarkDown false lines) nl)).
Proof.
  intros Hfits lines. split.
  - unfold Scan. by apply scanWhileFits_all.
  - apply parseSQL_bodies. unfold ScanErr. by rewrite Hfits.
Qed.

Lemma scanWhileFits_app lines rest :
  forallb fits lines = true →
  scanWhileFits (lines ++ rest) = (dropCR <$> lines) ++ scanWhileFits rest.
Proof.
  induction lines as [|l lines IH]; simpl; [done|].
  intros [Hl Hlines]%andb_true_iff. rewrite Hl. f_equal. by apply IH.
Qed.

Lemma dropCR_withCR line : dropCR (withCR line) = line.
Proof.
  unfold withCR. induction line as [|c line IH]; [done|].
  rewrite app_String. change (dropCR (String c ?s)) with
    (match s with EmptyString => if Ascii.eqb c carriage_return then EmptyString else String c s
                | _ => String c (dropCR s) end).
  rewrite IH. by destruct line.
Qed.

Lemma len_app s t : len (s +:+ t) = (len s + len t)%N.
Proof. induction s as [|c s IH]; simpl; [done|]. rewrite IH. lia. Qed.

Lemma noNewline_withCR line : noNewline (withCR line) = noNewline line.
Proof.
  unfold noNewline, withCR. rewrite all_app. simpl. by rewrite andb_true_r.
Qed.

(** X11.  Windows line ends.  Lines ended by CR LF give the same bodies as the
    same lines ended by LF, as long as no line ends in a carriage return of
    its own and each leaves room for one in the buffer of the scanner. *)
Theorem parseSQL_crlf lines rest :
  Forall (λ line, noNewline line = true ∧ dropCR line = line
                  ∧ (len line + 1 < MaxScanTokenSize)%N) lines →
  parseSQL (unlines (withCR <$> lines) rest) = parseSQL (unlines lines rest)
  ∧ Scan (unlines (withCR <$> lines) rest) = lines ++ Scan rest.
Proof.
  intros Hlines.
  assert (forallb noNewline lines = true ∧ forallb fits lines = true
          ∧ forallb noNewline (withCR <$> lines) = true
          ∧ forallb fits (withCR <$> lines) = true
          ∧ dropCR <$> lines = lines
          ∧ dropCR <$> (withCR <$> lines) = lines) as (H1 & H2 & H3 & H4 & H5 & H6).
  { induction Hlines as [|line lines (Hnl & Hcr & Hlen) _ (H1 & H2 & H3 & H4 & H5 & H6)];
      [done|].
    rewrite !fmap_cons, H5, H6, Hcr, dropCR_withCR.
    cbn [forallb]. rewrite H1, H2, H3, H4, noNewline_withCR, Hnl.
    unfold fits, withCR. rewrite len_app. cbn [len].
    by rewrite !(proj2 (N.ltb_lt _ _)) by lia. }
  assert (Scan (unlines (withCR <$> lines) rest) = lines ++ Scan rest) as Hscan.
  { unfold Scan. by rewrite rawLines_unlines, scanWhileFits_app, H6. }
  split; [|done]. unfold parseSQL. rewrite Hscan.
  unfold Scan. by rewrite rawLines_unlines, scanWhileFits_app, H5.
Qed.

(** * Bodies are trimmed *)

Lemma length_trimRunes flip s : String.length (trimRunes flip s) ≤ String.length s.
Proof.
  destruct (trimRunes_split flip s) as (w & Hs & _).
  rewrite Hs at 2. rewrite length_app_s. lia.
Qed.

(** What stands at the head of a string [trimRunes] leaves alone. *)
Lemma trimRunes_stable_head flip c1 s1 :
  trimRunes flip (String c1 s1) = String c1 s1 →
  asciiSpace c1 = false
  ∧ ∀ c2 s2, s1 = String c2 s2 →
      (if flip then space2 c2 c1 else space2 c1 c2) = false
      ∧ ∀ c3 s3, s2 = String c3 s3 →
          (if flip then space3 c3 c2 c1 else space3 c1 c2 c3) = false.
Proof.
  intros Hstable.
  assert (∀ s, String.length s < String.length (String c1 s1) →
               trimRunes flip s ≠ String c1 s1) as Hshort.
  { intros s Hlen Heq. pose proof (length_trimRunes flip s) as Hle.
    rewrite Heq in Hle. lia. }
  cbn [trimRunes] in Hstable.
  destruct (asciiSpace c1).
  { exfalso. apply (Hshort s1); [simpl; lia|done]. }
  split; [done|]. intros c2 s2 ->.
  destruct (if flip then space2 c2 c1 else space2 c1 c2).
  { exfalso. apply (Hshort s2); [simpl; lia|done]. }
  split; [done|]. intros c3 s3 ->.
  destruct (if flip then space3 c3 c2 c1 else space3 c1 c2 c3); [|done].
  exfalso. apply (Hshort s3); [simpl; lia|done].
Qed.

Lemma trimRunes_stable flip s :
  trimRunes flip s = s ↔
  match s with
  | String c1 s1 =>
      asciiSpace c1 = false
      ∧ match s1 with
        | String c2 s2 =>
            (if flip then space2 c2 c1 else space2 c1 c2) = false
            ∧ match s2 with
              | String c3 s3 =>
                  (if flip then space3 c3 c2 c1 else space3 c1 c2 c3) = false
              | EmptyString => True
              end
        | EmptyString => True
        end
  | EmptyString => True
  end.
Proof.
  split.
  - destruct s as [|c1 s1]; [done|].
    intros (H1 & H2)%trimRunes_stable_head. split; [done|].
    destruct s1 as [|c2 s2]; [done|]. destruct (H2 c2 s2 eq_refl) as [H2' H3].
    split; [done|]. destruct s2 as [|c3 s3]; [done|]. by apply (H3 c3 s3).
  - destruct s as [|c1 s1]; [done|]. intros [H1 H2]. cbn [trimRunes]. rewrite H1.
    destruct s1 as [|c2 s2]; [done|]. destruct H2 as [H2 H3]. rewrite H2.
    destruct s2 as [|c3 s3]; [done|]. by rewrite H3.
Qed.

Lemma trimRunes_idem flip s : trimRunes flip (trimRunes flip s) = trimRunes flip s.
Proof.
  remember (String.length s) as n eqn:Hn. revert s Hn.
  induction n as [n IH] using lt_wf_ind. intros s ->.
  destruct s as [|c1 s1]; [done|]. cbn [trimRunes].
  destruct (asciiSpace c1) eqn:H1.
  { apply (IH (String.length s1)); [simpl; lia|done]. }
  destruct s1 as [|c2 s2].
  { cbn [trimRunes]. by rewrite H1. }
  destruct (if flip then space2 c2 c1 else space2 c1 c2) eqn:H2.
  { apply (IH (String.length s2)); [simpl; lia|done]. }
  destruct s2 as [|c3 s3].
  { cbn [trimRunes]. by rewrite H1, H2. }
  destruct (if flip then space3 c3 c2 c1 else space3 c1 c2 c3) eqn:H3.
  { apply (IH (String.length s3)); [simpl; lia|done]. }
  cbn [trimRunes]. by rewrite H1, H2, H3.
Qed.

(** A prefix of a string without leading white space has none either. *)
Lemma trimRunes_stable_prefix t u w :
  trimRunes false t = t → t = u +:+ w → trimRunes false u = u.
Proof.
  intros Hstable%trimRunes_stable ->. apply trimRunes_stable.
  destruct u as [|c1 [|c2 [|c3 u3]]]; [done|..]; rewrite ?app_String in Hstable.
  - by destruct Hstable.
  - destruct Hstable as (? & ? & _). done.
  - destruct Hstable as (? & ? & ?). done.
Qed.

Lemma TrimSpace_parts s :
  TrimLeftSpace (TrimSpace s) = TrimSpace s ∧ TrimRightSpace (TrimSpace s) = TrimSpace s.
Proof.
  unfold TrimSpace, TrimRightSpace, TrimLeftSpace. split.
  - destruct (trimRunes_split true (String.rev (trimRunes false s))) as (w & Hsplit & _).
    apply (f_equal String.rev) in Hsplit.
    rewrite rev_involutive_s, rev_app_distr_s in Hsplit.
    by eapply trimRunes_stable_prefix; [apply trimRunes_idem|].
  - by rewrite rev_involutive_s, trimRunes_idem.
Qed.

Lemma TrimSpace_idem s : TrimSpace (TrimSpace s) = TrimSpace s.
Proof.
  destruct (TrimSpace_parts s) as [Hleft Hright].
  unfold TrimSpace at 1. by rewrite Hleft, Hright.
Qed.

(** X12.  Both bodies are trimmed: [strings.TrimSpace] would change neither,
    and neither begins or ends with a blank, a tab or a line end. *)
Theorem parseSQL_trimmed content :
  trimmed (parseSQL content).1 ∧ trimmed (parseSQL content).2.
Proof.
  assert (∀ s, trimmed (TrimSpace s)) as Htrimmed.
  { intros s. destruct (TrimSpace_parts s) as [Hleft Hright].
    split; [apply TrimSpace_idem|]. split.
    - intros c rest Heq. unfold TrimLeftSpace in Hleft. rewrite Heq in Hleft.
      by apply trimRunes_stable_head in Hleft as [? _].
    - intros c rest Heq. unfold TrimRightSpace in Hright.
      apply (f_equal String.rev) in Hright. rewrite rev_involutive_s, Heq in Hright.
      by apply trimRunes_stable_head in Hright as [? _]. }
  unfold parseSQL, parseLines. cbn [fst snd]. split; apply Htrimmed.
Qed.

Example parseSQL_blank_section :
  parseSQL "-- ==== UP ====
   
	
-- ==== DOWN ====
  DROP TABLE t;  " = ("", "DROP TABLE t;").
Proof. vm_compute. reflexivity. Qed.

(** * The single-row queries of the storage *)
Section QueryFacts.
Context {Data : Type} (drv : Storage.Driver Data).
Context (queryErr : Storage.query → Storage.TursoStorage Data → option error).
Implicit Types s : Storage.TursoStorage Data.

Lemma insert_perm_any {A} (less : A → A → bool) x l : Sort.insert less x l ≡ₚ x :: l.
Proof.
  induction l as [|y l IH]; simpl; [done|].
  destruct (less x y); [done|]. rewrite IH. apply Permutation_swap.
Qed.

Lemma Slice_perm_any {A} (less : A → A → bool) data : Sort.Slice less data ≡ₚ data.
Proof.
  unfold Sort.Slice. rewrite <-(app_nil_l data) at 2. generalize (@nil A).
  induction data as [|x data IH]; intros acc; simpl.
  - by rewrite app_nil_r.
  - rewrite IH, insert_perm_any. simpl. apply Permutation_middle.
Qed.

Lemma insert_headGreatest x rows :
  headGreatest rows → headGreatest (Sort.insert Storage.versionMore x rows).
Proof.
  destruct rows as [|top rows]; simpl.
  - intros _ row ->%list_elem_of_singleton. reflexivity.
  - intros Htop. unfold Storage.versionMore at 1.
    destruct (String.ltb (Storage.Version top) (Storage.Version x)) eqn:Hless.
    + intros row [->|Hrow]%elem_of_cons.
      * reflexivity.
      * etransitivity; [by apply Htop|]. by apply ltb_true_le.
    + intros row [->|Hrow]%elem_of_cons; [reflexivity|].
      rewrite (insert_perm_any Storage.versionMore x rows) in Hrow.
      apply elem_of_cons in Hrow as [->|Hrow]; [by apply ltb_false_le|].
      apply Htop. by right.
Qed.

Lemma Slice_headGreatest rows : headGreatest (Sort.Slice Storage.versionMore rows).
Proof.
  unfold Sort.Slice. assert (headGreatest []) as Hnil by done. revert Hnil.
  generalize (@nil Storage.Migration).
  induction rows as [|x rows IH]; intros acc Hacc; simpl; [done|].
  apply IH. by apply insert_headGreatest.
Qed.

Lemma GetCurrentVersion_last s :
  queryErr Storage.SelectCurrentVersion s = None →
  Storage.GetCurrentVersion queryErr s =
    (default "" (Storage.Version <$> last (appliedRows s)), None).
Proof.
  intros Hquery. unfold Storage.GetCurrentVersion. rewrite Hquery.
  pose proof (Slice_headGreatest (Storage.rowOf <$> map_to_list (Storage.schema_migrations s)))
    as Hhead.
  pose proof (Slice_perm_any Storage.versionMore
                (Storage.rowOf <$> map_to_list (Storage.schema_migrations s))) as Hperm.
  destruct (Sort.Slice Storage.versionMore _) as [|top rest] eqn:Hsorted.
  - apply Permutation_nil_l, eq_sym, fmap_nil_inv, map_to_list_empty_iff in Hperm.
    by rewrite (proj2 (appliedRows_nil s) Hperm).
  - assert (top ∈ appliedRows s) as Htop.
    { rewrite appliedRows_perm, <-Hperm. by left. }
    destruct (last (appliedRows s)) as [lastMigration|] eqn:Hlast.
    2: { apply last_None in Hlast. rewrite Hlast in Htop. by apply elem_of_nil in Htop. }
    destruct (appliedRows_last _ _ Hlast) as [Hin Hmax].
    simpl. f_equal. apply (anti_symm String.le).
    + apply Hmax, elem_of_dom. apply appliedRows_elem in Htop. by eexists.
    + apply Hhead. rewrite Hperm, <-appliedRows_perm. by apply last_Some_elem_of.
Qed.

(** X13.  The current version is the greatest one recorded: when the query
    does not fail, [GetCurrentVersion] returns the version of the last row
    of [GetAppliedMigrations] (the one [Down] rolls back), a version of the
    ledger that no other exceeds in string order; on an empty ledger it
    returns the empty version and no error. *)
Theorem GetCurrentVersion_greatest s :
  queryErr Storage.SelectCurrentVersion s = None →
  ∃ version,
    Storage.GetCurrentVersion queryErr s = (version, None)
    ∧ version = default "" (Storage.Version <$> last (appliedRows s))
    ∧ (Storage.schema_migrations s = ∅ → version = "")
    ∧ (Storage.schema_migrations s ≠ ∅ →
       version ∈ dom (Storage.schema_migrations s)
       ∧ ∀ other, other ∈ dom (Storage.schema_migrations s) → String.le other version).
Proof.
  intros Hquery. eexists. split; [by apply GetCurrentVersion_last|]. split; [done|].
  destruct (last (appliedRows s)) as [lastMigration|] eqn:Hlast.
  - destruct (appliedRows_last _ _ Hlast) as [Hin Hmax]. split.
    + intros Hempty. by rewrite Hempty, lookup_empty in Hin.
    + intros _. split; [|done]. apply elem_of_dom. by eexists.
  - apply last_None, appliedRows_nil in Hlast. by split.
Qed.

Lemma count_perm {A} (p : A → bool) l1 l2 :
  l1 ≡ₚ l2 → length (List.filter p l1) = length (List.filter p l2).
Proof.
  induction 1 as [|x l1 l2 _ IH|x y l|l1 l2 l3 _ IH1 _ IH2]; simpl; [done|..].
  - destruct (p x); simpl; by rewrite IH.
  - by destruct (p x), (p y).
  - by rewrite IH1.
Qed.

Lemma countMigrations_lookup version s :
  Storage.countMigrations version s =
  match Storage.schema_migrations s !! version with Some _ => 1%Z | None => 0%Z end.
Proof.
  unfold Storage.countMigrations. generalize (Storage.schema_migrations s).
  intros m. induction m as [|v x m Hfresh IH] using map_ind.
  - by rewrite map_to_list_empty, lookup_empty.
  - rewrite (count_perm _ _ (Storage.rowOf <$> (v, x) :: map_to_list m))
      by (by rewrite map_to_list_insert).
    rewrite fmap_cons. cbn [List.filter Storage.rowOf Storage.Version fst].
    destruct (String.eqb_spec v version) as [->|Hne].
    + rewrite lookup_insert_eq. cbn [length]. rewrite Nat2Z.inj_succ, IH, Hfresh. done.
    + by rewrite lookup_insert_ne, IH.
Qed.

(** X14.  [IsMigrationApplied] looks the version up in the ledger: when the
    query does not fail it answers true exactly for the versions of the
    ledger, which are the versions of the rows [GetAppliedMigrations]
    returns; when the query fails it answers false together with the
    error. *)
Theorem IsMigrationApplied_iff version s :
  match queryErr (Storage.CountMigrations version) s with
  | Some err => Storage.IsMigrationApplied queryErr version s = (false, Some err)
  | None =>
      ∃ applied,
        Storage.IsMigrationApplied queryErr version s = (applied, None)
        ∧ (applied = true ↔ version ∈ dom (Storage.schema_migrations s))
        ∧ (applied = true ↔ ∃ row, row ∈ appliedRows s ∧ Storage.Version row = version)
  end.
Proof.
  unfold Storage.IsMigrationApplied.
  destruct (queryErr _ s) as [err|]; [done|].
  eexists. split; [done|]. rewrite countMigrations_lookup, elem_of_dom.
  destruct (Storage.schema_migrations s !! version) as [[name t]|] eqn:Hrow.
  - split; [by split; [eexists|]|]. split; [intros _|done].
    exists (Storage.mkMigration version name t). split; [|done].
    by apply appliedRows_elem.
  - split; [split; [done|by intros [? [=]]]|]. split; [done|].
    intros (row & Hin%appliedRows_elem & <-). by rewrite Hrow in Hin.
Qed.

(** X15.  Record, look up, remove.  After [RecordMigration] succeeded for a
    version: the version was not in the ledger before and is in it now, with
    the name and the time given; the other entries and the rest of the
    database are as before; [IsMigrationApplied] answers true; recording the
    version again fails, whatever the name; and a successful
    [RemoveMigration] of the version gives back the database from before the
    recording. *)
Theorem RecordMigration_roundtrip version name now s s1 :
  Storage.RecordMigration drv version name now s = Ok s1 →
  Storage.schema_migrations s !! version = None
  ∧ Storage.schema_migrations s1 !! version = Some (name, now)
  ∧ (∀ other, other ≠ version →
       Storage.schema_migrations s1 !! other = Storage.schema_migrations s !! other)
  ∧ Storage.data s1 = Storage.data s
  ∧ (queryErr (Storage.CountMigrations version) s1 = None →
     Storage.IsMigrationApplied queryErr version s1 = (true, None))
  ∧ (∀ name' now', ∃ err, Storage.RecordMigration drv version name' now' s1 = Err err)
  ∧ (∀ s2, Storage.RemoveMigration drv version s1 = Ok s2 → s2 = s).
Proof.
  intros Hrecord. pose proof Hrecord as [Hfresh Hs1]%RecordMigration_Ok.
  unfold Storage.RecordMigration in Hrecord.
  destruct (Storage.stmtErr drv _ s); [done|]. rewrite Hfresh in Hrecord.
  injection Hrecord as <-. cbn [Storage.schema_migrations Storage.data].
  split; [done|]. split; [by rewrite lookup_insert_eq|].
  split; [by intros other Hne; rewrite lookup_insert_ne|]. split; [done|]. split.
  { intros Hquery. unfold Storage.IsMigrationApplied.
    rewrite Hquery, countMigrations_lookup. cbn [Storage.schema_migrations].
    by rewrite lookup_insert_eq. }
  split.
  { intros name' now'. unfold Storage.RecordMigration.
    destruct (Storage.stmtErr drv _ _); [by eexists|].
    cbn [Storage.schema_migrations]. rewrite lookup_insert_eq. by eexists. }
  intros s2. unfold Storage.RemoveMigration.
  destruct (Storage.stmtErr drv _ _); [done|]. intros [= <-].
  cbn [Storage.schema_migrations Storage.data].
  rewrite delete_insert_id by done. by destruct s.
Qed.

(** X16.  Removing what is not recorded.  When the statement does not fail,
    [RemoveMigration] succeeds whether or not the version is in the ledger;
    for a version that is not, the database is unchanged; in any case the
    version is absent afterwards, the other entries are untouched, and
    removing it once more changes nothing. *)
Theorem RemoveMigration_absent version s :
  Storage.stmtErr drv (Storage.DeleteMigration version) s = None →
  (Storage.schema_migrations s !! version = None →
   Storage.RemoveMigration drv version s = Ok s)
  ∧ ∃ s1,
      Storage.RemoveMigration drv version s = Ok s1
      ∧ Storage.schema_migrations s1 !! version = None
      ∧ (∀ other, other ≠ version →
           Storage.schema_migrations s1 !! other = Storage.schema_migrations s !! other)
      ∧ (Storage.stmtErr drv (Storage.DeleteMigration version) s1 = None →
         Storage.RemoveMigration drv version s1 = Ok s1).
Proof.
  intros Hstmt. unfold Storage.RemoveMigration. rewrite Hstmt. split.
  { intros Hfresh. rewrite delete_id by done. by destruct s. }
  eexists. split; [done|]. cbn [Storage.schema_migrations Storage.data].
  split; [by rewrite lookup_delete_eq|].
  split; [by intros other Hne; rewrite lookup_delete_ne|].
  intros ->. by rewrite delete_delete_eq.
Qed.

End QueryFacts.

(** * Migration names *)

Lemma replaceNonWord_word skip s : all isWord (replaceNonWord skip s) = true.
Proof.
  revert skip. induction s as [|c s IH]; intros skip; [done|].
  destruct skip as [|skip]; simpl; [|apply IH].
  destruct (isWord c) eqn:Hc; simpl; [by rewrite Hc, IH|apply IH].
Qed.

Lemma replaceNonWord_id s : all isWord s = true → replaceNonWord 0 s = s.
Proof.
  induction s as [|c s IH]; [done|]. simpl.
  intros [Hc Hs]%andb_true_iff. by rewrite Hc, IH.
Qed.

Lemma squeezeUnderscores_word s :
  all isWord s = true → all isWord (squeezeUnderscores s) = true.
Proof.
  induction s as [|c s IH]; [done|]. cbn [squeezeUnderscores all].
  intros [Hc Hs]%andb_true_iff.
  destruct (Ascii.eqb c underscore && HasPrefix s "_"); [by apply IH|].
  cbn [all]. by rewrite Hc, IH.
Qed.

Lemma HasPrefix_byte c s : HasPrefix (String c s) "_" = Ascii.eqb c underscore.
Proof.
  unfold HasPrefix. destruct (Ascii.eqb_spec c underscore) as [->|Hne].
  - apply prefix_app_iff. by exists s.
  - destruct (String.prefix "_" (String c s)) eqn:Hpre; [|done].
    apply prefix_app_iff in Hpre as [t Ht]. by injection Ht as -> _.
Qed.

Lemma squeezeUnderscores_first s :
  HasPrefix (squeezeUnderscores s) "_" = HasPrefix s "_".
Proof.
  induction s as [|c s IH]; [done|]. cbn [squeezeUnderscores all].
  destruct (Ascii.eqb c underscore && HasPrefix s "_") eqn:Hrun;
    [|by rewrite !HasPrefix_byte].
  apply andb_true_iff in Hrun as [Hc Hs]. by rewrite IH, Hs, HasPrefix_byte.
Qed.

Lemma prefix2 c s :
  String.prefix "__" (String c s) = Ascii.eqb c underscore && HasPrefix s "_".
Proof.
  destruct (Ascii.eqb_spec c underscore) as [->|Hne]; simpl andb.
  - destruct (HasPrefix s "_") eqn:Hs.
    + apply prefix_app_iff in Hs as [t ->]. apply prefix_app_iff. by exists t.
    + destruct (String.prefix "__" _) eqn:Hpre; [|done].
      apply prefix_app_iff in Hpre as [t Ht]. injection Ht as ->.
      rewrite <-Hs. symmetry. apply prefix_app_iff. by exists t.
  - destruct (String.prefix "__" _) eqn:Hpre; [|done].
    apply prefix_app_iff in Hpre as [t Ht]. by injection Ht as -> _.
Qed.

Lemma squeezeUnderscores_single s : Contains (squeezeUnderscores s) "__" = false.
Proof.
  induction s as [|c s IH]; [done|]. cbn [squeezeUnderscores all].
  destruct (Ascii.eqb c underscore && HasPrefix s "_") eqn:Hrun; [done|].
  rewrite Contains_eq, IH, prefix2, squeezeUnderscores_first, Hrun. done.
Qed.

Lemma squeezeUnderscores_id s : Contains s "__" = false → squeezeUnderscores s = s.
Proof.
  induction s as [|c s IH]; [done|]. rewrite Contains_eq, prefix2. cbn [squeezeUnderscores].
  intros [-> Hs]%orb_false_iff. by rewrite IH.
Qed.

Lemma prefix1 c a s : String.prefix (String c "") (String a s) = Ascii.eqb a c.
Proof.
  destruct (Ascii.eqb_spec a c) as [->|Hne].
  - apply prefix_app_iff. by exists s.
  - destruct (String.prefix _ _) eqn:Hpre; [|done].
    apply prefix_app_iff in Hpre as [t Ht]. by injection Ht as -> _.
Qed.

Lemma trimLeftByte_split s c : ∃ pad, s = pad +:+ trimLeftByte s c.
Proof.
  induction s as [|a s [pad IH]]; [by exists ""|]. cbn [trimLeftByte].
  destruct (Ascii.eqb a c); [|by exists ""].
  exists (String a pad). by rewrite app_String, <-IH.
Qed.

Lemma trimLeftByte_first s c : String.prefix (String c "") (trimLeftByte s c) = false.
Proof.
  induction s as [|a s IH]; [done|]. cbn [trimLeftByte].
  destruct (Ascii.eqb a c) eqn:Ha; [done|]. by rewrite prefix1.
Qed.

Lemma trimLeftByte_id s c : String.prefix (String c "") s = false → trimLeftByte s c = s.
Proof. destruct s as [|a s]; [done|]. rewrite prefix1. cbn [trimLeftByte]. by intros ->. Qed.

Lemma Trim_split s c : ∃ before after, s = before +:+ Trim s c +:+ after.
Proof.
  unfold Trim. destruct (trimLeftByte_split s c) as [before Hs].
  destruct (trimLeftByte_split (String.rev (trimLeftByte s c)) c) as [pad Hrev].
  exists before, (String.rev pad).
  rewrite <-rev_app_distr_s, <-Hrev, rev_involutive_s. done.
Qed.

Lemma Trim_last s c : HasSuffix (Trim s c) (String c "") = false.
Proof.
  unfold HasSuffix, Trim. rewrite rev_involutive_s.
  change (String.rev (String c "")) with (String c ""). apply trimLeftByte_first.
Qed.

Lemma Trim_first s c : String.prefix (String c "") (Trim s c) = false.
Proof.
  unfold Trim. pose proof (trimLeftByte_first s c) as Hfirst.
  destruct (trimLeftByte_split (String.rev (trimLeftByte s c)) c) as [pad Hrev].
  apply (f_equal String.rev) in Hrev. rewrite rev_involutive_s, rev_app_distr_s in Hrev.
  destruct (String.rev (trimLeftByte _ c)) as [|a u]; [done|].
  rewrite Hrev, app_String in Hfirst. by rewrite prefix1 in *.
Qed.

Lemma Trim_id s c :
  String.prefix (String c "") s = false → HasSuffix s (String c "") = false →
  Trim s c = s.
Proof.
  intros Hfirst Hlast. unfold Trim. rewrite (trimLeftByte_id s) by done.
  rewrite trimLeftByte_id by done. apply rev_involutive_s.
Qed.

Lemma Contains_within before s after t :
  Contains s t = true → Contains (before +:+ s +:+ after) t = true.
Proof.
  intros (a & b & ->)%Contains_iff. apply Contains_iff.
  exists (before +:+ a), (b +:+ after). by rewrite !app_assoc_s.
Qed.

Lemma sanitizeName_shape name :
  all isWord (sanitizeName name) = true
  ∧ HasPrefix (sanitizeName name) "_" = false
  ∧ HasSuffix (sanitizeName name) "_" = false
  ∧ Contains (sanitizeName name) "__" = false.
Proof.
  unfold sanitizeName.
  pose proof (squeezeUnderscores_word _ (replaceNonWord_word 0 name)) as Hword.
  pose proof (squeezeUnderscores_single (replaceNonWord 0 name)) as Hsingle.
  destruct (Trim_split (squeezeUnderscores (replaceNonWord 0 name)) underscore)
    as (before & after & Hsplit).
  split.
  { rewrite Hsplit, !all_app in Hword.
    by apply andb_true_iff in Hword as [_ [? _]%andb_true_iff]. }
  split; [apply Trim_first|]. split; [apply Trim_last|].
  destruct (Contains (Trim _ _) "__") eqn:Hin; [|done].
  apply (Contains_within before _ after) in Hin. by rewrite <-Hsplit, Hsingle in Hin.
Qed.

Lemma isWord_isDot c : isWord c = true → isDot c = true.
Proof. unfold isDot. by destruct (Ascii.eqb_spec c "010") as [->|]. Qed.

(** X17.  What a sanitized name looks like: only letters, digits and
    underscores, no underscore at either end and no two underscores in a
    row; in particular no newline, so that a non-empty one fits the [(.+)]
    of the file-name expression. *)
Theorem sanitizeName_clean name :
  let sanitized := sanitizeName name in
  all isWord sanitized = true
  ∧ HasPrefix sanitized "_" = false
  ∧ HasSuffix sanitized "_" = false
  ∧ Contains sanitized "__" = false
  ∧ all isDot sanitized = true.
Proof.
  intros sanitized. subst sanitized.
  destruct (sanitizeName_shape name) as (Hword & Hfirst & Hlast & Hsingle).
  repeat (split; [done|]). revert Hword. apply all_impl, isWord_isDot.
Qed.

(** X18.  The names [sanitizeName] leaves alone are exactly the names of that
    form, and sanitizing twice is sanitizing once. *)
Theorem sanitizeName_fixed name :
  (sanitizeName name = name ↔ cleanName name = true)
  ∧ sanitizeName (sanitizeName name) = sanitizeName name.
Proof.
  assert (∀ s, cleanName s = true → sanitizeName s = s) as Hfixed.
  { intros s. unfold cleanName.
    rewrite !andb_true_iff, !negb_true_iff. intros (((Hword & Hfirst) & Hlast) & Hsingle).
    unfold sanitizeName.
    by rewrite replaceNonWord_id, squeezeUnderscores_id, Trim_id. }
  assert (∀ s, cleanName (sanitizeName s) = true) as Hclean.
  { intros s. unfold cleanName.
    destruct (sanitizeName_shape s) as (-> & -> & -> & ->). done. }
  split; [|by apply Hfixed].
  split; [|by apply Hfixed]. intros <-. apply Hclean.
Qed.

Example sanitizeName_examples :
  sanitizeName "Add users-table!! (v2)" = "Add_users_table_v2"
  ∧ sanitizeName "héllo wörld" = "h_llo_w_rld"
  ∧ sanitizeName "__init__" = "init"
  ∧ sanitizeName "???" = "".
Proof. by vm_compute. Qed.

(** * New migration files *)

Lemma FindStringSubmatch_createdName version name :
  version ≠ "" → all isDigit version = true →
  FindStringSubmatch (createdName version name) =
    if String.eqb (sanitizeName name) "" then None
    else Some (version, sanitizeName name).
Proof.
  intros Hversion Hdigits. unfold createdName, FindStringSubmatch.
  rewrite spanDigits_app by done.
  destruct version as [|d ds]; [done|].
  change ("_" +:+ ?s) with (String "_" s). cbv beta iota.
  rewrite (proj2 (trimDotSql_iff _ (sanitizeName name)) eq_refl).
  destruct (sanitizeName_shape name) as (Hword & _).
  destruct (sanitizeName name) as [|n ns]; [done|].
  change (String.eqb (String n ns) "") with false. cbv iota.
  by rewrite (all_impl _ _ _ isWord_isDot Hword).
Qed.

Lemma appendInt_bytes x width : all stampByte (appendInt x width) = true.
Proof.
  unfold appendInt. rewrite !all_app.
  assert (∀ s, all isDigit s = true → all stampByte s = true) as Hdigits.
  { intros s. apply all_impl. intros c Hc. unfold stampByte. by rewrite Hc. }
  rewrite (Hdigits _ (zeros_all _)).
  rewrite (Hdigits (digits (Z.abs x))) by (apply digitsInto_all; [lia|done]).
  by destruct (x <? 0)%Z.
Qed.

Lemma Format_bytes t : all stampByte (Format t) = true.
Proof. unfold Format. by rewrite !all_app, !appendInt_bytes. Qed.

Lemma Contains_absent s c t :
  all (λ x, negb (Ascii.eqb x c)) s = true → Contains s (String c t) = false.
Proof.
  intros Hs. rewrite <-(app_empty_r s). by rewrite Contains_skip.
Qed.

Lemma dropCR_prefix s : ∃ r, s = dropCR s +:+ r.
Proof.
  induction s as [|c s [r IH]]; [by exists ""|].
  destruct s as [|c' s].
  - cbn [dropCR]. destruct (Ascii.eqb c carriage_return); [by eexists|by exists ""].
  - exists r. change (dropCR (String c (String c' s))) with (String c (dropCR (String c' s))).
    by rewrite app_String, <-IH.
Qed.

Lemma markerOf_dropCR line :
  Contains line UP_MARKER = false → Contains line DOWN_MARKER = false →
  markerOf (dropCR line) = None.
Proof.
  intros Hup Hdown. destruct (dropCR_prefix line) as [r Hline]. unfold markerOf.
  destruct (Contains (dropCR line) UP_MARKER) eqn:Hup'.
  { apply (Contains_within "" _ r) in Hup'. rewrite app_empty_l, <-Hline in Hup'. congruence. }
  destruct (Contains (dropCR line) DOWN_MARKER) eqn:Hdown'; [|done].
  apply (Contains_within "" _ r) in Hdown'. rewrite app_empty_l, <-Hline in Hdown'. congruence.
Qed.

Lemma template_unlines name created :
  template name created =
  unlines ["-- Migration: " +:+ name; "-- Created: " +:+ created; "";
           "-- ==== UP ===="; ""; ""; "-- ==== DOWN ===="; ""] "".
Proof.
  unfold template, unlines. cbn [foldr]. by rewrite !app_assoc_s, !app_empty_l, !app_empty_r.
Qed.

(** X19.  A new migration file has empty bodies.  For a name of one line that
    holds neither section token, the text [Create] writes parses to an empty
    forward and an empty backward body, whatever the time stamp. *)
Theorem template_bodies name t :
  noNewline name = true →
  Contains name UP_MARKER = false →
  Contains name DOWN_MARKER = false →
  parseSQL (template name (Format t)) = ("", "").
Proof.
  intros Hline Hup Hdown. rewrite template_unlines.
  set (l1 := "-- Migration: " +:+ name). set (l2 := "-- Created: " +:+ Format t).
  assert (all (λ x, negb (Ascii.eqb x "=")) (Format t) = true
          ∧ noNewline (Format t) = true) as [Hstamp Hstampline].
  { split; (eapply all_impl; [|apply Format_bytes]); intros c; unfold stampByte;
      rewrite !orb_true_iff; unfold isDigit;
      (destruct (Ascii.eqb_spec c "=") as [->|]; [by vm_compute; intuition|]);
      (destruct (Ascii.eqb_spec c newline) as [->|]; [by vm_compute; intuition|]); done. }
  assert (markerOf (dropCR l1) = None) as H1.
  { apply markerOf_dropCR; subst l1.
    - unfold UP_MARKER. by rewrite Contains_skip.
    - unfold DOWN_MARKER. by rewrite Contains_skip. }
  assert (markerOf (dropCR l2) = None) as H2.
  { apply markerOf_dropCR; subst l2.
    - unfold UP_MARKER. rewrite Contains_skip by done. by apply Contains_absent.
    - unfold DOWN_MARKER. rewrite Contains_skip by done. by apply Contains_absent. }
  unfold parseSQL, Scan. rewrite rawLines_unlines.
  2: { cbn [forallb]. subst l1 l2. unfold noNewline in *. rewrite !all_app, Hline, Hstampline.
       done. }
  rewrite parseLines_collected. cbn [app rawLines scanWhileFits].
  destruct (fits l1); [|done]. destruct (fits l2).
  - cbn [scanWhileFits collected]. rewrite H1, H2. by vm_compute.
  - cbn [collected]. by rewrite H1.
Qed.

Lemma all_rev p s : all p (String.rev s) = all p s.
Proof.
  induction s as [|c s IH]; [done|].
  rewrite rev_String, all_app, IH. simpl. by rewrite andb_true_r, andb_comm.
Qed.

Lemma untilSlash_app x y :
  all notSlash x = true → y = "" ∨ HasPrefix y "/" = true → untilSlash (x +:+ y) = x.
Proof.
  intros Hx Hy. induction x as [|c x IH].
  - rewrite app_empty_l. destruct Hy as [->|Hy]; [done|].
    apply prefix_app_iff in Hy as [t ->]. done.
  - apply andb_true_iff in Hx as [Hc Hx]. rewrite app_String. cbn [untilSlash].
    unfold notSlash in Hc. apply negb_true_iff in Hc. by rewrite Hc, IH.
Qed.

Lemma Base_of path name before :
  name ≠ "" → all notSlash name = true →
  path = before +:+ name → before = "" ∨ HasSuffix before "/" = true →
  Base path = name.
Proof.
  intros Hname Hslash -> Hbefore. unfold Base.
  assert (before +:+ name ≠ "") as Hpath.
  { destruct before; [by rewrite app_empty_l|done]. }
  apply String.eqb_neq in Hpath. rewrite Hpath, rev_app_distr_s.
  assert (String.rev name ≠ "") as Hrev.
  { intros Hrev. apply Hname, rev_inj_s. by rewrite Hrev. }
  rewrite <-all_rev in Hslash.
  destruct (String.rev name) as [|c r] eqn:Hr; [done|].
  rewrite app_String. cbn [dropSlashes].
  pose proof Hslash as [Hc _]%andb_true_iff. unfold notSlash in Hc.
  apply negb_true_iff in Hc. rewrite Hc, <-app_String, untilSlash_app; [|done|].
  - rewrite <-Hr, rev_involutive_s. apply String.eqb_neq in Hname. by rewrite Hname.
  - destruct Hbefore as [->|Hsuffix]; [by left|]. right. apply Hsuffix.
Qed.

Lemma Base_Join dir name :
  name ≠ "" → all notSlash name = true → Base (Join dir name) = name.
Proof.
  intros Hname Hslash. unfold Join.
  destruct (String.eqb dir "."); [by apply (Base_of _ _ ""); auto|].
  destruct (String.eqb dir "/").
  - apply (Base_of _ _ "/"); auto.
  - apply (Base_of _ _ (dir +:+ "/")); [done|done|by rewrite app_assoc_s|].
    right. apply HasSuffix_iff. by exists dir.
Qed.

Lemma HasSuffix_Join dir name suffix :
  HasSuffix name suffix = true → HasSuffix (Join dir name) suffix = true.
Proof.
  intros [t ->]%HasSuffix_iff. apply HasSuffix_iff. unfold Join.
  destruct (String.eqb dir "."); [by exists t|].
  destruct (String.eqb dir "/"); [by exists ("/" +:+ t)|].
  exists (dir +:+ "/" +:+ t). by rewrite !app_assoc_s.
Qed.

Lemma walkDir_Dir path entries :
  walkDir path (Dir entries) = Reached path (Dir entries) :: below path entries.
Proof.
  cbn [walkDir]. f_equal. unfold below.
  induction entries as [|[name d] entries IH]; [done|].
  rewrite bind_cons. cbn [fst snd]. by rewrite <-IH.
Qed.

Lemma walkWith_Dir dir entries :
  walkWith walkFn (visits dir (Ok (Dir entries))) [] = walkWith walkFn (below dir entries) [].
Proof. cbn [visits]. by rewrite walkDir_Dir. Qed.

Lemma writeEntry_absent name content entries :
  name ∉ entries.*1 →
  ∃ before after,
    entries = before ++ after
    ∧ writeEntry name content entries = Some (before ++ (name, File content) :: after).
Proof.
  induction entries as [|[n d] entries IH]; intros Habsent.
  - by exists [], [].
  - rewrite fmap_cons, not_elem_of_cons in Habsent. destruct Habsent as [Hne Habsent].
    cbn [writeEntry fst]. cbn [fst] in Hne.
    rewrite (proj2 (String.eqb_neq n name)) by done.
    destruct (String.ltb name n); [by exists [], ((n, d) :: entries)|].
    destruct (IH Habsent) as (before & after & -> & ->).
    by exists ((n, d) :: before), after.
Qed.

Lemma below_app path before after :
  below path (before ++ after) = below path before ++ below path after.
Proof. unfold below. by rewrite bind_app. Qed.

Lemma walkWith_split before after found :
  walkWith walkFn (before ++ after) [] = Ok found →
  ∃ fb fa, walkWith walkFn before [] = Ok fb ∧ walkWith walkFn after [] = Ok fa
           ∧ found = fb ++ fa.
Proof.
  rewrite walkWith_app. destruct (walkWith walkFn before []) as [err|fb]; [done|].
  rewrite walkWith_acc. destruct (walkWith walkFn after []) as [err|fa]; [done|].
  intros [= <-]. by exists fb, fa.
Qed.

(** Discovery in a directory that got one more regular file. *)
Lemma walkWith_new_entry dir before after name content found :
  walkWith walkFn (below dir (before ++ after)) [] = Ok found →
  ∃ fb fa,
    found = fb ++ fa
    ∧ walkWith walkFn (below dir (before ++ (name, File content) :: after)) [] =
      match walkFn [] (Reached (Join dir name) (File content)) with
      | inl err => Err err
      | inr out => Ok (fb ++ out ++ fa)
      end.
Proof.
  rewrite below_app. intros (fb & fa & Hb & Ha & ->)%walkWith_split.
  exists fb, fa. split; [done|].
  rewrite below_app, walkWith_app, Hb.
  change (below dir ((name, File content) :: after))
    with ([Reached (Join dir name) (File content)] ++ below dir after).
  rewrite walkWith_app. cbn [walkWith]. rewrite walkFn_acc.
  destruct (walkFn [] _) as [err|out]; [done|].
  rewrite walkWith_acc, Ha. by rewrite app_assoc.
Qed.

Lemma notSlash_createdName version name :
  all isDigit version = true → all notSlash (createdName version name) = true.
Proof.
  intros Hdigits. unfold createdName. rewrite !all_app.
  destruct (sanitizeName_shape name) as (Hword & _).
  rewrite (all_impl isDigit notSlash version), (all_impl isWord notSlash (sanitizeName name));
    [done|..|done]; [|done|].
  - intros c Hc. unfold notSlash. by destruct (Ascii.eqb_spec c slash) as [->|].
  - intros c Hc. unfold notSlash. by destruct (Ascii.eqb_spec c slash) as [->|].
Qed.

Lemma createdName_nonempty version name : createdName version name ≠ "".
Proof. unfold createdName. by destruct version. Qed.

(** X20.  What [Create] names, discovery reads back.  For a version of digits,
    the path of the new file ends in [.sql], its base name is the file name
    [Create] formed, and [parseMigrationFile] reads from it the version and
    the sanitized name; unless the sanitized name is empty: then the file
    name is [<version>_.sql], which the file-name expression does not match,
    and [parseMigrationFile] fails. *)
Theorem parseMigrationFile_created dir version name created :
  version ≠ "" → all isDigit version = true →
  let filename := createdName version name in
  HasSuffix (Join dir filename) ".sql" = true
  ∧ Base (Join dir filename) = filename
  ∧ parseMigrationFile (Join dir filename) (File (template name created)) =
      if String.eqb (sanitizeName name) "" then
        Err (Raw ("invalid migration filename format: " +:+ filename))
      else Ok (createdFile dir version name created).
Proof.
  intros Hversion Hdigits filename.
  assert (Base (Join dir filename) = filename) as Hbase.
  { apply Base_Join; [apply createdName_nonempty|by apply notSlash_createdName]. }
  split; [|split; [done|]].
  { apply HasSuffix_Join, HasSuffix_iff. exists (version +:+ "_" +:+ sanitizeName name).
    unfold filename, createdName. by rewrite !app_assoc_s. }
  unfold parseMigrationFile. rewrite Hbase.
  unfold filename. rewrite FindStringSubmatch_createdName by done.
  destruct (String.eqb (sanitizeName name) ""); [done|].
  cbn [ReadFile]. unfold createdFile. by destruct (parseSQL _).
Qed.

Lemma walkFn_created dir version name created :
  version ≠ "" → all isDigit version = true →
  let filename := createdName version name in
  walkFn [] (Reached (Join dir filename) (File (template name created))) =
    if String.eqb (sanitizeName name) "" then
      Err (Wrap ("failed to parse " +:+ Join dir filename)
             (Raw ("invalid migration filename format: " +:+ filename)))
    else Ok [createdFile dir version name created].
Proof.
  intros Hversion Hdigits filename. cbn [walkFn IsDir orb].
  assert (HasSuffix (Join dir filename) ".sql" = true) as ->.
  { apply HasSuffix_Join, HasSuffix_iff. exists (version +:+ "_" +:+ sanitizeName name).
    unfold filename, createdName. by rewrite !app_assoc_s. }
  cbn [negb]. unfold parseMigrationFile.
  rewrite Base_Join by (by apply createdName_nonempty || by apply notSlash_createdName).
  unfold filename. rewrite FindStringSubmatch_createdName by done.
  destruct (String.eqb (sanitizeName name) ""); [done|].
  cbn [ReadFile]. unfold createdFile. by destruct (parseSQL _).
Qed.

Lemma getNextVersion_nonempty dir disk version :
  getNextVersion dir disk = Ok version → version ≠ "".
Proof.
  assert (∀ v, fmtInteger 3 v ≠ "") as Hfmt.
  { intros v. unfold fmtInteger. destruct (v <? 0)%Z; [done|].
    pose proof (digits_nonempty (Z.abs v)). destruct (zeros _); [by rewrite app_empty_l|done]. }
  unfold getNextVersion.
  destruct (loadMigrationFiles dir disk) as [err|files].
  { destruct (IsNotExist err); [by intros [= <-]|done]. }
  destruct (last files) as [lastFile|]; [|by intros [= <-]].
  destruct (Atoi _); [done|]. intros [= <-]. apply Hfmt.
Qed.

Section CreateFacts.
Context {Data : Type} (dir : string) (localTime : nat → civil) (access : Access).
Implicit Types (w : World (Data:=Data)).

(** [Create] in a directory that exists, when writing meets no error of
    the file system. *)
Lemma Create_in_directory w name entries version :
  disk w = Ok (Dir entries) →
  getNextVersion dir (disk w) = Ok version →
  writeErr access (Join dir (createdName version name)) = None →
  Create dir localTime access name w =
  let filename := createdName version name in
  let moved := mkWorld (db w) (S (clock w)) (stdout w) (calls w) (disk w) in
  match writeEntry filename (template name (Format (localTime (clock w)))) entries with
  | Some entries' =>
      (Ok tt,
       mkWorld (db w) (S (clock w))
         (stdout w ++ ["Created migration: " +:+ filename +:+ nl]) (calls w)
         (Ok (Dir entries')))
  | None =>
      (Err (Wrap "failed to create migration file"
              (Raw ("open " +:+ Join dir filename +:+ ": is a directory"))), moved)
  end.
Proof.
  intros Hdisk Hversion Hwrite.
  unfold Create, mbind, M_bind, bind, orWrap, engineGetNextVersion, MkdirAll, timestamp,
    WriteFile, Print.
  rewrite Hversion. cbv beta iota zeta. cbn [db clock stdout calls disk].
  rewrite Hdisk. cbn [IsDir]. cbv beta iota zeta. cbn [db clock stdout calls disk].
  rewrite ?Hdisk. fold (createdName version name). rewrite Hwrite.
  cbn [written]. cbv beta iota zeta.
  by destruct (writeEntry _ _ entries).
Qed.

(** X21.  [Create] adds one definition to what discovery finds.  In an
    existing directory in which discovery succeeds, for a name with at least
    one letter or digit and a file name not yet taken, [Create] succeeds
    when the file can be written; it prints the file name, makes no call to
    the storage, and discovery afterwards returns the definitions from
    before and one more, with the allocated version, the sanitized name and
    the bodies of the template. *)
Theorem Create_adds_definition w name entries files version :
  disk w = Ok (Dir entries) →
  loadMigrationFiles dir (disk w) = Ok files →
  getNextVersion dir (disk w) = Ok version →
  all isDigit version = true →
  sanitizeName name ≠ "" →
  createdName version name ∉ entries.*1 →
  writeErr access (Join dir (createdName version name)) = None →
  ∃ w' files',
    Create dir localTime access name w = (Ok tt, w')
    ∧ db w' = db w ∧ calls w' = calls w
    ∧ stdout w' = stdout w ++ ["Created migration: " +:+ createdName version name +:+ nl]
    ∧ loadMigrationFiles dir (disk w') = Ok files'
    ∧ files' ≡ₚ createdFile dir version name (Format (localTime (clock w))) :: files.
Proof.
  intros Hdisk Hload Hversion Hdigits Hname%String.eqb_neq Habsent Hwrite.
  rewrite (Create_in_directory _ _ _ _ Hdisk Hversion Hwrite). cbv zeta.
  destruct (writeEntry_absent _ (template name (Format (localTime (clock w)))) _ Habsent)
    as (before & after & -> & ->).
  rewrite Hdisk in Hload.
  apply loadMigrationFiles_Ok in Hload as (found & Hwalk & ->).
  unfold WalkDir in Hwalk. rewrite walkWith_Dir in Hwalk.
  destruct (walkWith_new_entry _ _ _ (createdName version name)
              (template name (Format (localTime (clock w)))) _ Hwalk)
    as (fb & fa & -> & Hnew).
  rewrite walkFn_created, Hname in Hnew
    by (by eapply getNextVersion_nonempty || done).
  eexists _, (Sort.Slice fileLess
                (fb ++ [createdFile dir version name (Format (localTime (clock w)))] ++ fa)).
  split; [done|]. split; [done|]. split; [done|]. split; [done|]. split.
  { cbn [disk]. unfold loadMigrationFiles, WalkDir. by rewrite walkWith_Dir, Hnew. }
  rewrite (Slice_perm Version : ∀ l, Sort.Slice fileLess l ≡ₚ l).
  rewrite (Slice_perm Version (fb ++ fa) : Sort.Slice fileLess (fb ++ fa) ≡ₚ fb ++ fa).
  cbn [app]. by rewrite Permutation_middle.
Qed.

(** X22.  A name without a letter or digit.  [Create] does not refuse a name
    that sanitizes to the empty string: it writes [<version>_.sql].
    Discovery rejects that file name, so from then on [loadMigrationFiles]
    fails, and with it [getNextVersion] (hence the next [Create]) and
    [Up]. *)
Theorem Create_unusable_name w name entries files version :
  disk w = Ok (Dir entries) →
  loadMigrationFiles dir (disk w) = Ok files →
  getNextVersion dir (disk w) = Ok version →
  all isDigit version = true →
  sanitizeName name = "" →
  createdName version name ∉ entries.*1 →
  writeErr access (Join dir (createdName version name)) = None →
  createdName version name = version +:+ "_.sql"
  ∧ ∃ w' err,
      Create dir localTime access name w = (Ok tt, w')
      ∧ err = Wrap ("failed to parse " +:+ Join dir (version +:+ "_.sql"))
                (Raw ("invalid migration filename format: " +:+ version +:+ "_.sql"))
      ∧ loadMigrationFiles dir (disk w') = Err err
      ∧ getNextVersion dir (disk w') = Err err
      ∧ ∀ (drv : Storage.Driver Data),
          Up drv dir w' = (Err (Wrap "failed to load migration files" err), w').
Proof.
  intros Hdisk Hload Hversion Hdigits Hname Habsent Hwrite.
  assert (createdName version name = version +:+ "_.sql") as Hfile.
  { unfold createdName. by rewrite Hname. }
  split; [done|].
  rewrite (Create_in_directory _ _ _ _ Hdisk Hversion Hwrite). cbv zeta.
  destruct (writeEntry_absent _ (template name (Format (localTime (clock w)))) _ Habsent)
    as (before & after & -> & ->).
  rewrite Hdisk in Hload.
  apply loadMigrationFiles_Ok in Hload as (found & Hwalk & ->).
  unfold WalkDir in Hwalk. rewrite walkWith_Dir in Hwalk.
  destruct (walkWith_new_entry _ _ _ (createdName version name)
              (template name (Format (localTime (clock w)))) _ Hwalk)
    as (fb & fa & -> & Hnew).
  rewrite walkFn_created, Hname, Hfile in Hnew
    by (by eapply getNextVersion_nonempty || done).
  change (String.eqb "" "") with true in Hnew. cbv iota in Hnew.
  assert (loadMigrationFiles dir
            (Ok (Dir (before ++ (createdName version name,
                                 File (template name (Format (localTime (clock w)))))
                        :: after))) =
          Err (Wrap ("failed to parse " +:+ Join dir (version +:+ "_.sql"))
                 (Raw ("invalid migration filename format: " +:+ version +:+ "_.sql"))))
    as Hbroken.
  { unfold loadMigrationFiles, WalkDir. rewrite walkWith_Dir.
    rewrite Hfile. by rewrite Hnew. }
  eexists _, _. split; [done|]. split; [done|]. cbn [disk].
  split; [done|]. split.
  { unfold getNextVersion. by rewrite Hbroken. }
  intros drv. by apply Up_not_loaded.
Qed.

(** X23.  The first migration of a project.  When the migrations directory
    does not exist, [Create] takes version [001], makes the directory and
    writes the file; discovery then finds that one definition and the next
    version is [002]. *)
Theorem Create_first w name err :
  disk w = Err err → IsNotExist err = true →
  mkdirErr access dir = None →
  writeErr access (Join dir (createdName "001" name)) = None →
  sanitizeName name ≠ "" →
  ∃ w',
    Create dir localTime access name w = (Ok tt, w')
    ∧ disk w' = Ok (Dir [(createdName "001" name,
                          File (template name (Format (localTime (clock w)))))])
    ∧ stdout w' = stdout w ++ ["Created migration: " +:+ createdName "001" name +:+ nl]
    ∧ loadMigrationFiles dir (disk w') =
        Ok [createdFile dir "001" name (Format (localTime (clock w)))]
    ∧ getNextVersion dir (disk w') = Ok "002".
Proof.
  intros Hdisk Hmissing Hmkdir Hwrite Hname%String.eqb_neq.
  assert (getNextVersion dir (disk w) = Ok "001") as Hversion.
  { unfold getNextVersion, loadMigrationFiles, WalkDir. rewrite Hdisk. cbn. by rewrite Hmissing. }
  assert (loadMigrationFiles dir
            (Ok (Dir [(createdName "001" name,
                       File (template name (Format (localTime (clock w)))))])) =
          Ok [createdFile dir "001" name (Format (localTime (clock w)))]) as Hload.
  { unfold loadMigrationFiles, WalkDir. rewrite walkWith_Dir.
    unfold below. cbn [mbind list_bind fst snd walkDir app walkWith].
    rewrite walkFn_created, Hname by done. done. }
  unfold Create, mbind, M_bind, bind, orWrap, engineGetNextVersion, MkdirAll, timestamp,
    WriteFile, Print.
  rewrite Hversion. cbv beta iota zeta. rewrite Hdisk, Hmkdir.
  cbv beta iota zeta. cbn [db clock stdout calls disk].
  fold (createdName "001" name). rewrite Hwrite. cbn [written writeEntry].
  cbv beta iota zeta.
  eexists. split; [done|]. cbn [db clock stdout calls disk].
  split; [done|]. split; [done|]. split; [done|].
  unfold getNextVersion. rewrite Hload. done.
Qed.

(** X24.  [Create] and the database.  Whatever [Create] returns, it has made
    no call to the storage and the database is unchanged.  When it fails it
    has printed nothing and the error is one of its three wrapped errors.
    The files are then as before, or a missing migrations directory has
    been made and is empty, or the error came after the new file was
    opened: the file is then there under the allocated name, holding no
    more than the bytes of the template written before the error. *)
Theorem Create_keeps_database w name r w' :
  Create dir localTime access name w = (r, w') →
  db w' = db w ∧ calls w' = calls w
  ∧ match r with
    | inr _ => ∃ line, stdout w' = stdout w ++ [line]
    | inl err =>
        stdout w' = stdout w
        ∧ (∃ msg cause,
             err = Wrap msg cause
             ∧ msg ∈ ["failed to get next version"; "failed to create migrations directory";
                      "failed to create migration file"])
        ∧ (disk w' = disk w
           ∨ (∃ e, disk w = Err e ∧ disk w' = Ok (Dir []))
           ∨ (∃ version cause n entries entries',
                getNextVersion dir (disk w) = Ok version
                ∧ writeErr access (Join dir (createdName version name)) = Some (cause, Some n)
                ∧ err = Wrap "failed to create migration file" cause
                ∧ (disk w = Ok (Dir entries) ∨ (∃ e, disk w = Err e) ∧ entries = [])
                ∧ writeEntry (createdName version name)
                    (substring 0 n (template name (Format (localTime (clock w))))) entries
                  = Some entries'
                ∧ disk w' = Ok (Dir entries')))
    end.
Proof.
  unfold Create, mbind, M_bind, bind, orWrap, engineGetNextVersion, MkdirAll, timestamp,
    WriteFile, Print.
  destruct (getNextVersion dir (disk w)) as [err|version] eqn:Hversion.
  { intros [= <- <-]. split; [done|]. split; [done|]. split; [done|]. split; [|by left].
    eexists _, _. split; [done|]. by left. }
  cbv beta iota zeta. fold (createdName version name).
  destruct (disk w) as [e|d] eqn:Hdisk.
  - destruct (mkdirErr access dir) as [err|].
    { intros [= <- <-]. split; [done|]. split; [done|]. split; [done|].
      split; [|by left; rewrite Hdisk]. eexists _, _. split; [done|]. right; by left. }
    cbv beta iota zeta. cbn [db clock stdout calls disk].
    destruct (writeErr access _) as [[err [n|]]|] eqn:Hwrite; cbn [written writeEntry];
      cbv beta iota zeta.
    + intros [= <- <-]. split; [done|]. split; [done|]. split; [done|].
      split; [eexists _, _; split; [done|]; right; right; by left|].
      right. right. exists version, err, n, []. eexists. cbn [writeEntry].
      split_and!; [done..|right; split; [by eexists|done]|done|done].
    + intros [= <- <-]. split; [done|]. split; [done|]. split; [done|].
      split; [eexists _, _; split; [done|]; right; right; by left|].
      right. left. by eexists.
    + intros [= <- <-]. split; [done|]. split; [done|]. by eexists.
  - destruct (IsDir d) eqn:Hdir.
    2: { intros [= <- <-]. split; [done|]. split; [done|]. split; [done|].
         split; [|by left; rewrite Hdisk]. eexists _, _. split; [done|]. right; by left. }
    cbv beta iota zeta. cbn [db clock stdout calls disk]. rewrite ?Hdisk.
    destruct d as [| |entries|]; try done.
    + destruct (writeErr access _) as [[err [n|]]|] eqn:Hwrite; cbn [written];
        cbv beta iota zeta.
      * destruct (writeEntry _ _ entries) as [entries'|] eqn:Hentry.
        -- intros [= <- <-]. split; [done|]. split; [done|]. split; [done|].
           split; [eexists _, _; split; [done|]; right; right; by left|].
           right. right. exists version, err, n, entries, entries'.
           split_and!; [done..|by left|done|done].
        -- intros [= <- <-]. split; [done|]. split; [done|]. split; [done|].
           split; [eexists _, _; split; [done|]; right; right; by left|]. by left.
      * intros [= <- <-]. split; [done|]. split; [done|]. split; [done|].
        split; [eexists _, _; split; [done|]; right; right; by left|]. by left.
      * destruct (writeEntry _ _ entries) as [entries'|].
        -- intros [= <- <-]. split; [done|]. split; [done|]. by eexists.
        -- intros [= <- <-]. split; [done|]. split; [done|]. split; [done|].
           split; [eexists _, _; split; [done|]; right; right; by left|]. by left.
    + destruct (writeErr access _) as [[cause [n|]]|] eqn:Hwrite; cbn [written];
        cbv beta iota zeta.
      * intros [= <- <-]. split; [done|]. split; [done|]. split; [done|].
        split; [eexists _, _; split; [done|]; right; right; by left|]. by left.
      * intros [= <- <-]. split; [done|]. split; [done|]. split; [done|].
        split; [eexists _, _; split; [done|]; right; right; by left|]. by left.
      * intros [= <- <-]. split; [done|]. split; [done|]. by eexists.
Qed.

End CreateFacts.

(** * Status and version *)
Section StatusFacts.
Context {Data : Type} (drv : Storage.Driver Data) (dir : string).
Context (queryErr : Storage.query → Storage.TursoStorage Data → option error).
Context (localTime : nat → civil).
Implicit Types (w : World (Data:=Data)) (f : MigrationFile) (files : list MigrationFile).

Lemma printLines_run lines w :
  printLines lines w =
  (Ok tt, mkWorld (db w) (clock w) (stdout w ++ lines) (calls w) (disk w)).
Proof.
  revert w. induction lines as [|line lines IH]; intros w.
  - cbn [printLines]. unfold ret. rewrite app_nil_r. by destruct w.
  - cbn [printLines]. unfold mbind, M_bind, bind, Print. rewrite IH.
    cbn [db clock stdout calls disk]. by rewrite <-app_assoc.
Qed.

Lemma appliedSet_lookup (rows : list Storage.Migration)
    (acc : gmap string Storage.Migration) row :
  NoDup (Storage.Version <$> rows) → row ∈ rows →
  foldl (λ set m, <[Storage.Version m := m]> set) acc rows !! Storage.Version row = Some row.
Proof.
  revert acc. induction rows as [|m rows IH]; intros acc Hdup Hrow.
  { by apply elem_of_nil in Hrow. }
  rewrite fmap_cons in Hdup. apply NoDup_cons in Hdup as [Hm Hdup].
  cbn [foldl]. apply elem_of_cons in Hrow as [->|Hrow]; [|by apply IH].
  clear IH. revert acc. induction rows as [|m' rows IH]; intros acc.
  - cbn [foldl]. by rewrite lookup_insert_eq.
  - cbn [foldl]. rewrite fmap_cons in Hm, Hdup.
    apply not_elem_of_cons in Hm as [Hne Hm]. apply NoDup_cons in Hdup as [_ Hdup].
    rewrite insert_insert_ne by done. by apply IH.
Qed.

Lemma appliedSet_lookup_None (rows : list Storage.Migration)
    (acc : gmap string Storage.Migration) version :
  version ∉ Storage.Version <$> rows →
  foldl (λ set m, <[Storage.Version m := m]> set) acc rows !! version = acc !! version.
Proof.
  revert acc. induction rows as [|m rows IH]; intros acc Hout; [done|].
  rewrite fmap_cons in Hout. apply not_elem_of_cons in Hout as [Hne Hout].
  cbn [foldl]. rewrite IH by done. by rewrite lookup_insert_ne.
Qed.

Lemma appliedRows_NoDup (s : Storage.TursoStorage Data) :
  NoDup (Storage.Version <$> appliedRows s).
Proof.
  rewrite appliedRows_perm, <-list_fmap_compose.
  apply (NoDup_fst_map_to_list (Storage.schema_migrations s)).
Qed.

Lemma statusLine_reportLine (s : Storage.TursoStorage Data) f :
  statusLine localTime
    (foldl (λ set m, <[Storage.Version m := m]> set) ∅ (appliedRows s)) f =
  reportLine localTime (Storage.schema_migrations s) f.
Proof.
  unfold statusLine, reportLine.
  destruct (Storage.schema_migrations s !! Version f) as [[name t]|] eqn:Hrow.
  - assert (Storage.mkMigration (Version f) name t ∈ appliedRows s) as Hin
      by by apply appliedRows_elem.
    by rewrite (appliedSet_lookup _ _ _ (appliedRows_NoDup s) Hin).
  - rewrite appliedSet_lookup_None; [by rewrite lookup_empty|].
    intros (row & Hversion & Hin%appliedRows_elem)%list_elem_of_fmap.
    by rewrite <-Hversion, Hrow in Hin.
Qed.

(** X25.  What [Status] shows.  When discovery succeeds and the ledger can be
    read, [Status] succeeds, changes neither the database nor the files,
    makes the one call reading the ledger, and prints [No migrations found]
    or else the two header lines and one line per definition, in the order
    of discovery: the applied mark with the time of the ledger entry of that
    version, or the pending mark.  The definitions marked pending are
    exactly those [Up] would apply; ledger entries without a file are not
    shown. *)
Theorem Status_reports w files :
  loadMigrationFiles dir (disk w) = Ok files →
  Storage.stmtErr drv Storage.SelectMigrations (db w) = None →
  ∃ w',
    Status drv dir localTime w = (Ok tt, w')
    ∧ db w' = db w ∧ disk w' = disk w
    ∧ calls w' = calls w ++ [(CallGetAppliedMigrations, None)]
    ∧ stdout w' =
        stdout w ++
        match files with
        | [] => ["No migrations found" +:+ nl]
        | _ => ("Migration Status:" +:+ nl) :: ("================" +:+ nl)
               :: (reportLine localTime (ledger w) <$> files)
        end
    ∧ ∀ f, f ∈ files →
        (f ∈ pending w files ↔
         reportLine localTime (ledger w) f =
           "✗ " +:+ Version f +:+ "_" +:+ Name f +:+ " (pending)" +:+ nl).
Proof.
  intros Hload Hread.
  unfold Status, mbind, M_bind, bind, orWrap, engineLoadMigrationFiles,
    storageGetAppliedMigrations, Println, Print.
  rewrite Hload. cbv beta iota. rewrite (GetAppliedMigrations_Ok _ _ Hread).
  cbv beta iota zeta.
  assert (∀ f, f ∈ files →
            (f ∈ pending w files ↔
             reportLine localTime (ledger w) f =
               "✗ " +:+ Version f +:+ "_" +:+ Name f +:+ " (pending)" +:+ nl)) as Hmarks.
  { intros f Hf. rewrite pending_elem, not_elem_of_dom. unfold reportLine.
    destruct (ledger w !! Version f) as [[name t]|]; [|tauto].
    split; [by intros [_ ?]|]. intros Heq. exfalso. revert Heq.
    change ("✓ " +:+ ?s) with (String "226" (String "156" (String "147" (String " " s)))).
    change ("✗ " +:+ ?s) with (String "226" (String "156" (String "151" (String " " s)))).
    intros Heq. by injection Heq. }
  destruct files as [|f0 files0].
  - eexists. split; [done|]. cbn [db clock stdout calls disk logged].
    split; [done|]. split; [done|]. split; [done|]. split; [done|]. done.
  - cbn [db clock stdout calls disk logged]. rewrite printLines_run.
    eexists. split; [done|]. cbn [db clock stdout calls disk logged].
    split; [done|]. split; [done|]. split; [done|]. split; [|done].
    rewrite <-!app_assoc. do 3 f_equal.
    apply list_fmap_ext. intros i f _. apply statusLine_reportLine.
Qed.

(** X26.  What [Version] shows: the version of the last row of the ledger in
    version order (the one [Down] would roll back); [No migrations applied
    yet] when the ledger is empty or that version is the empty string; and
    the wrapped error of the query, with nothing printed, when it fails.
    Nothing else changes. *)
Theorem EngineVersion_reports w :
  match queryErr Storage.SelectCurrentVersion (db w) with
  | Some err =>
      EngineVersion queryErr w = (Err (Wrap "failed to get current version" err), w)
  | None =>
      EngineVersion queryErr w =
        (Ok tt,
         printed w
           match last (appliedRows (db w)) with
           | Some lastMigration =>
               if String.eqb (Storage.Version lastMigration) "" then
                 "No migrations applied yet" +:+ nl
               else "Current version: " +:+ Storage.Version lastMigration +:+ nl
           | None => "No migrations applied yet" +:+ nl
           end)
  end.
Proof.
  unfold EngineVersion, mbind, M_bind, bind, orWrap, storageGetCurrentVersion, Println, Print.
  destruct (queryErr Storage.SelectCurrentVersion (db w)) as [err|] eqn:Hquery.
  - unfold Storage.GetCurrentVersion. by rewrite Hquery.
  - rewrite (GetCurrentVersion_last _ _ Hquery).
    destruct (last (appliedRows (db w))) as [lastMigration|]; [|done].
    cbn [fmap option_fmap option_map default]. unfold id.
    by destruct (String.eqb (Storage.Version lastMigration) "").
Qed.

End StatusFacts.

(** * Versions in order *)

Lemma parseDigits_mono a b acc1 acc2 x y :
  String.length a = String.length b → (0 ≤ acc1 < acc2)%Z →
  parseDigits acc1 a = Some x → parseDigits acc2 b = Some y → (x < y)%Z.
Proof.
  revert b acc1 acc2. induction a as [|c a IH]; intros [|d b] acc1 acc2 Hlen Hacc; try done.
  - simpl. intros [= <-] [= <-]. lia.
  - cbn [parseDigits]. injection Hlen as Hlen.
    destruct (isDigit c) eqn:Hc; [|done]. destruct (isDigit d) eqn:Hd; [|done].
    apply (IH b); [done|]. unfold isDigit in Hc, Hd.
    apply andb_true_iff in Hc as [Hc1%N.leb_le Hc2%N.leb_le].
    apply andb_true_iff in Hd as [Hd1%N.leb_le Hd2%N.leb_le]. lia.
Qed.

Lemma parseDigits_compare a b acc x y :
  String.length a = String.length b → (0 ≤ acc)%Z →
  parseDigits acc a = Some x → parseDigits acc b = Some y → (x < y)%Z →
  String.ltb a b = true.
Proof.
  unfold String.ltb.
  revert b acc. induction a as [|c a IH]; intros [|d b] acc Hlen Hacc; try done.
  - simpl. intros [= <-] [= <-]. lia.
  - cbn [parseDigits String.compare]. injection Hlen as Hlen.
    destruct (isDigit c) eqn:Hc; [|done]. destruct (isDigit d) eqn:Hd; [|done].
    intros Hx Hy Hlt. unfold isDigit in Hc, Hd.
    apply andb_true_iff in Hc as [Hc1%N.leb_le Hc2%N.leb_le].
    apply andb_true_iff in Hd as [Hd1%N.leb_le Hd2%N.leb_le].
    destruct (Ascii.compare c d) eqn:Hcd; [|done|].
    + apply Ascii.compare_eq_iff in Hcd as ->. apply (IH b _ Hlen) in Hy; [done| |done|done].
      lia.
    + exfalso. unfold Ascii.compare in Hcd. apply N.compare_gt_iff in Hcd.
      unfold byte_of in *.
      pose proof (parseDigits_mono b a _ _ y x (eq_sym Hlen)
                    (conj (ltac:(lia) : (0 ≤ acc * 10 + (Z.of_N (N_of_ascii d) - 48))%Z)
                          (ltac:(lia) : (acc * 10 + (Z.of_N (N_of_ascii d) - 48)
                                         < acc * 10 + (Z.of_N (N_of_ascii c) - 48))%Z))
                    Hy Hx).
      lia.
Qed.

Lemma le_ltb a b c : String.le a b → String.ltb b c = true → String.ltb a c = true.
Proof.
  intros Hab Hbc. destruct (String.ltb a c) eqn:Hac; [done|].
  apply ltb_false_le in Hac.
  assert (b = c) as ->.
  { apply (anti_symm String.le); [by apply ltb_true_le|]. by etransitivity. }
  by rewrite (ltb_asym _ _ Hbc) in Hbc.
Qed.

(** X27.  When the version allocated sorts last.  If the allocated version is
    a string of digits as long as every version discovered, it is greater
    than all of them in the string order discovery sorts by: the new
    definition is the last one [Up] applies. *)
Theorem getNextVersion_sorts_last dir disk files version :
  loadMigrationFiles dir disk = Ok files →
  getNextVersion dir disk = Ok version →
  all isDigit version = true →
  (∀ f, f ∈ files → String.length (Version f) = String.length version) →
  ∀ f, f ∈ files → String.ltb (Version f) version = true.
Proof.
  intros Hload Hnext Hdigits Hwidth f Hf.
  rewrite (getNextVersion_loaded _ _ _ Hload) in Hnext.
  destruct (last files) as [lastFile|] eqn:Hlast.
  2: { apply last_None in Hlast. subst files. by apply elem_of_nil in Hf. }
  assert (lastFile ∈ files) as Hin by by apply last_Some_elem_of.
  pose proof (loadMigrationFiles_versionOk _ _ _ Hload) as Hok.
  rewrite Forall_forall in Hok. destruct (Hok lastFile Hin) as [Hne Hlastdigits].
  destruct (Atoi_digits _ Hne Hlastdigits) as (n & Hvalue & Hpos & HAtoi).
  rewrite HAtoi in Hnext. destruct (n <=? maxInt)%Z eqn:Hmax; [|done].
  apply Z.leb_le in Hmax. injection Hnext as <-.
  apply (le_ltb _ (Version lastFile)).
  { eapply (sorted_last_max Version); [|done..]. by eapply loadMigrationFiles_sorted. }
  destruct (decide (n = maxInt)) as [->|Hsmall].
  { by vm_compute in Hdigits. }
  assert (intAdd n 1 = (n + 1)%Z) as Hadd.
  { unfold intAdd, wrapInt. unfold maxInt in *. rewrite Z.mod_small by lia. lia. }
  rewrite Hadd in *.
  assert (fmtInteger 3 (n + 1) ≠ "") as Hnonempty.
  { rewrite fmtInteger_nonneg by lia. pose proof (digits_nonempty (n + 1)).
    destruct (zeros _); [by rewrite app_empty_l|done]. }
  destruct (Atoi_digits _ Hnonempty Hdigits) as (m & Hm & _ & HAtoi').
  rewrite Atoi_fmtInteger in HAtoi' by lia.
  destruct (m <=? maxInt)%Z; [|done]. injection HAtoi' as <-.
  by eapply (parseDigits_compare _ _ 0 n (n + 1)); [apply Hwidth| | | |lia].
Qed.

(** * No files, no directory *)
Section EdgeFacts.
Context {Data : Type} (drv : Storage.Driver Data) (dir : string).
Context (localTime : nat → civil).
Implicit Types (w : World (Data:=Data)).

(** X28.  A directory without migration files.  [Up] prints [No migrations
    found] without reading the ledger; [Status] reads the ledger first and
    fails when that fails; [Down] reads the ledger too, has nothing to roll
    back on an empty ledger, and otherwise finds no file for the last
    version. *)
Theorem no_migration_files w :
  loadMigrationFiles dir (disk w) = Ok [] →
  Up drv dir w = (Ok tt, printed w ("No migrations found" +:+ nl))
  ∧ Status drv dir localTime w =
      match Storage.GetAppliedMigrations drv (db w) with
      | inl err => (Err (Wrap "failed to get applied migrations" err), asked w (Some err))
      | inr _ => (Ok tt, printed (asked w None) ("No migrations found" +:+ nl))
      end
  ∧ Down drv dir w =
      match Storage.GetAppliedMigrations drv (db w) with
      | inl err => (Err (Wrap "failed to get applied migrations" err), asked w (Some err))
      | inr applied =>
          match last applied with
          | None => (Ok tt, printed (asked w None) ("No migrations to rollback" +:+ nl))
          | Some lastMigration =>
              (Err (Raw ("migration file not found for version "
                         +:+ Storage.Version lastMigration)), asked w None)
          end
      end.
Proof.
  intros Hload. split; [by rewrite (Up_loaded _ _ _ _ Hload)|]. split.
  - unfold Status, mbind, M_bind, bind, orWrap, engineLoadMigrationFiles,
      storageGetAppliedMigrations, Println, Print.
    rewrite Hload. cbv beta iota.
    by destruct (Storage.GetAppliedMigrations drv (db w)).
  - destruct (Storage.GetAppliedMigrations drv (db w)) as [err|applied] eqn:Hread.
    + by apply Down_not_read.
    + rewrite (Down_read _ _ _ _ Hread). cbv zeta. by rewrite Hload.
Qed.

(** X29.  A migrations directory that cannot be walked (one that does not
    exist, say).  [Up] and [Status] fail with [failed to load migration
    files] before any call to the storage.  [Down] reads the ledger first:
    on an empty ledger it succeeds without looking at the files, otherwise
    it fails the same way.  [getNextVersion] answers [001] for the
    not-exist error itself and fails with any other. *)
Theorem no_migrations_directory w err :
  loadMigrationFiles dir (disk w) = Err err →
  Up drv dir w = (Err (Wrap "failed to load migration files" err), w)
  ∧ Status drv dir localTime w = (Err (Wrap "failed to load migration files" err), w)
  ∧ Down drv dir w =
      match Storage.GetAppliedMigrations drv (db w) with
      | inl cause =>
          (Err (Wrap "failed to get applied migrations" cause), asked w (Some cause))
      | inr applied =>
          match last applied with
          | None => (Ok tt, printed (asked w None) ("No migrations to rollback" +:+ nl))
          | Some _ => (Err (Wrap "failed to load migration files" err), asked w None)
          end
      end
  ∧ getNextVersion dir (disk w) = if IsNotExist err then Ok "001" else Err err.
Proof.
  intros Hload. split; [by apply Up_not_loaded|]. split.
  { unfold Status, mbind, M_bind, bind, orWrap, engineLoadMigrationFiles.
    by rewrite Hload. }
  split.
  - destruct (Storage.GetAppliedMigrations drv (db w)) as [cause|applied] eqn:Hread.
    + by apply Down_not_read.
    + rewrite (Down_read _ _ _ _ Hread). cbv zeta. by rewrite Hload.
  - unfold getNextVersion. by rewrite Hload.
Qed.

End EdgeFacts.

(** * Further runs *)

Lemma loadMigrationFiles_exactly_witness :
  let f := mkFile "001" "create_users" "migrations/001_create_users.sql"
             "CREATE TABLE users (id TEXT PRIMARY KEY);" "DROP TABLE users;" in
  ∃ d content,
    Reached (Path f) d ∈ visits "migrations" twoFilesDisk
    ∧ HasSuffix (Path f) ".sql" = true
    ∧ ReadFile d = Ok content
    ∧ matchesGrammar (Base (Path f)) (Version f) (Name f)
    ∧ parseSQL content = (UpSQL f, DownSQL f).
Proof.
  intros f.
  apply (loadMigrationFiles_exactly "migrations" twoFilesDisk twoFiles twoFilesDisk_loads f).
  unfold f, twoFiles. left.
Defined.

Lemma loadMigrationFiles_unreadable_file_witness :
  loadMigrationFiles "migrations" deniedDisk =
    Err (Wrap "failed to parse migrations/002_create_posts.sql"
           (Wrap "failed to read file"
              (Raw "open migrations/002_create_posts.sql: permission denied"))).
Proof.
  refine (proj2 (loadMigrationFiles_unreadable_file "migrations" deniedDisk
                   "migrations/002_create_posts.sql"
                   (Raw "open migrations/002_create_posts.sql: permission denied")
                   "002" "create_posts" _ _ _)
            [Reached "migrations"
               (Dir [("001_create_users.sql", File "-- ==== UP ====
CREATE TABLE users (id TEXT PRIMARY KEY);");
                     ("002_create_posts.sql",
                      FileDenied (Raw "open migrations/002_create_posts.sql: permission denied"));
                     ("archive", DirDenied (Raw "open migrations/archive: permission denied"))]);
             Reached "migrations/001_create_users.sql" (File "-- ==== UP ====
CREATE TABLE users (id TEXT PRIMARY KEY);")]
            [Reached "migrations/archive"
               (DirDenied (Raw "open migrations/archive: permission denied"));
             Failed "migrations/archive" (Raw "open migrations/archive: permission denied")]
            [mkFile "001" "create_users" "migrations/001_create_users.sql"
               "CREATE TABLE users (id TEXT PRIMARY KEY);" ""] _ _).
  - apply list_elem_of_In. vm_compute. right. right. left. reflexivity.
  - vm_compute. reflexivity.
  - apply FindStringSubmatch_iff. vm_compute. reflexivity.
  - vm_compute. reflexivity.
  - vm_compute. reflexivity.
Defined.

Lemma loadMigrationFiles_unreadable_dir_witness :
  loadMigrationFiles "migrations" lockedDirDisk =
    Err (Raw "open migrations/002_archive: permission denied").
Proof.
  refine (proj2 (loadMigrationFiles_unreadable_dir "migrations" lockedDirDisk
                   "migrations/002_archive"
                   (Raw "open migrations/002_archive: permission denied") _)
            (take 3 (visits "migrations" lockedDirDisk))
            (drop 4 (visits "migrations" lockedDirDisk))
            [mkFile "001" "create_users" "migrations/001_create_users.sql"
               "CREATE TABLE users (id TEXT PRIMARY KEY);" ""] _ _).
  - apply list_elem_of_In. vm_compute. do 3 right. left. reflexivity.
  - vm_compute. reflexivity.
  - vm_compute. reflexivity.
Defined.


Lemma Down_failure_keeps_entry_witness :
  ∃ w',
    Down demoDriver "migrations" badDownWorld =
      (Err (Wrap "failed to execute rollback for 001" (Raw "SQL logic error")), w')
    ∧ db w' = db badDownWorld
    ∧ calls w' = [(CallGetAppliedMigrations, None);
                  (CallExecuteSQL "BOOM;", Some (Raw "SQL logic error"))].
Proof.
  refine (Down_failure_keeps_entry demoDriver "migrations" badDownWorld
            [Storage.mkMigration "001" "create_users" 1]
            (Storage.mkMigration "001" "create_users" 1)
            [badDownFile] badDownFile _ _ _ _ _).
  - vm_compute. reflexivity.
  - reflexivity.
  - vm_compute. reflexivity.
  - reflexivity.
  - apply String.eqb_neq. reflexivity.
Defined.

Lemma Down_makes_pending_witness :
  ∃ lastMigration,
    last (appliedRows (db outOfOrderWorld)) = Some lastMigration
    ∧ ledger (Down demoDriver "migrations" outOfOrderWorld).2 =
        delete (Storage.Version lastMigration) (ledger outOfOrderWorld)
    ∧ disk (Down demoDriver "migrations" outOfOrderWorld).2 = disk outOfOrderWorld
    ∧ ∀ g, g ∈ pending (Down demoDriver "migrations" outOfOrderWorld).2 twoFiles ↔
           g ∈ pending outOfOrderWorld twoFiles
           ∨ (g ∈ twoFiles ∧ Version g = Storage.Version lastMigration).
Proof.
  apply (Down_makes_pending demoDriver "migrations" outOfOrderWorld
           (Down demoDriver "migrations" outOfOrderWorld).2 twoFiles).
  - intros Hempty. apply (f_equal (λ m : gmap string (string * nat), m !! "001")) in Hempty.
    vm_compute in Hempty. discriminate Hempty.
  - exact twoFilesDisk_loads.
  - intros f _. apply demoDriver_keeps_ledger.
  - vm_compute. reflexivity.
Defined.

Lemma parseSQL_collects_witness :
  parseSQL "-- ==== UP ====
CREATE TABLE t (x TEXT);
-- ==== DOWN ====
DROP TABLE t;" = ("CREATE TABLE t (x TEXT);", "DROP TABLE t;").
Proof.
  refine (eq_trans (proj2 (parseSQL_collects _ _)) _); vm_compute; reflexivity.
Defined.

Lemma parseSQL_crlf_witness :
  parseSQL (unlines (withCR <$> ["-- ==== UP ===="; "CREATE TABLE t (x TEXT);"]) "")
  = parseSQL (unlines ["-- ==== UP ===="; "CREATE TABLE t (x TEXT);"] "")
  ∧ Scan (unlines (withCR <$> ["-- ==== UP ===="; "CREATE TABLE t (x TEXT);"]) "")
    = ["-- ==== UP ===="; "CREATE TABLE t (x TEXT);"] ++ Scan "".
Proof.
  apply (parseSQL_crlf ["-- ==== UP ===="; "CREATE TABLE t (x TEXT);"] "").
  repeat constructor; vm_compute; reflexivity.
Defined.

Lemma GetCurrentVersion_greatest_witness :
  ∃ version,
    Storage.GetCurrentVersion noQueryErr (db outOfOrderWorld) = (version, None)
    ∧ version = "002".
Proof.
  destruct (GetCurrentVersion_greatest noQueryErr (db outOfOrderWorld) eq_refl)
    as (version & Hget & Hversion & _).
  exists version. split; [exact Hget|]. rewrite Hversion. vm_compute. reflexivity.
Defined.

Lemma RecordMigration_roundtrip_witness :
  Storage.IsMigrationApplied noQueryErr "003"
    (Storage.mkStorage (<["003" := ("add_index", 11)]> (ledger outOfOrderWorld)) []) =
    (true, None)
  ∧ ∀ s2,
      Storage.RemoveMigration demoDriver "003"
        (Storage.mkStorage (<["003" := ("add_index", 11)]> (ledger outOfOrderWorld)) []) =
        Ok s2 →
      s2 = db outOfOrderWorld.
Proof.
  destruct (RecordMigration_roundtrip demoDriver noQueryErr "003" "add_index" 11
              (db outOfOrderWorld)
              (Storage.mkStorage (<["003" := ("add_index", 11)]> (ledger outOfOrderWorld)) []))
    as (_ & _ & _ & _ & Happlied & _ & Hremove).
  - vm_compute. reflexivity.
  - split; [apply Happlied; reflexivity|exact Hremove].
Defined.

Lemma RemoveMigration_absent_witness :
  Storage.RemoveMigration demoDriver "003" (db outOfOrderWorld) = Ok (db outOfOrderWorld).
Proof.
  refine (proj1 (RemoveMigration_absent demoDriver "003" (db outOfOrderWorld) eq_refl) _).
  vm_compute. reflexivity.
Defined.

Lemma Up_resumes_witness :
  ∃ done f rest,
    pending boomWorld boomFiles = done ++ f :: rest
    ∧ pending (Up demoDriver "migrations" boomWorld).2 boomFiles = f :: rest
    ∧ Version f = "002".
Proof.
  destruct (Up_resumes demoDriver "migrations" boomWorld boomFiles
              (Wrap "failed to execute migration 002" (Raw "SQL logic error"))
              (Up demoDriver "migrations" boomWorld).2)
    as (done & f & rest & cause & Hsplit & _ & _ & _ & Hresume).
  - vm_compute. reflexivity.
  - reflexivity.
  - apply demoDriver_forward.
  - vm_compute. reflexivity.
  - exists done, f, rest. split; [exact Hsplit|].
    assert (NoDup (Version <$> pending boomWorld boomFiles)) as Hdistinct.
    { apply (bool_decide_unpack _). vm_compute. exact I. }
    specialize (Hresume Hdistinct). split; [exact Hresume|].
    assert (head (pending (Up demoDriver "migrations" boomWorld).2 boomFiles) = Some f) as Hhead.
    { rewrite Hresume. reflexivity. }
    vm_compute in Hhead. injection Hhead as <-. reflexivity.
Defined.

Lemma Up_records_pending_witness :
  Up wipingDriver "migrations" freshWorld = (Ok tt, appliedWorld)
  ∧ dom (ledger appliedWorld) =
      dom (ledger freshWorld) ∪ list_to_set (Version <$> pending freshWorld twoFiles)
  ∧ ∀ f, f ∈ pending freshWorld twoFiles →
         ∃ t, ledger appliedWorld !! Version f = Some (Name f, t).
Proof.
  assert (Up wipingDriver "migrations" freshWorld = (Ok tt, appliedWorld)) as Hup
    by (vm_compute; reflexivity).
  destruct (Up_records_pending wipingDriver "migrations" freshWorld twoFiles appliedWorld
              twoFilesDisk_loads wipingDriver_twoFiles Hup) as (_ & Hdom & Hrecorded & _).
  split; [exact Hup|]. split; [exact Hdom|exact Hrecorded].
Defined.

Lemma Down_then_Up_witness :
  dom (ledger (Up demoDriver "migrations"
                 (Down demoDriver "migrations" outOfOrderWorld).2).2) =
  dom (ledger outOfOrderWorld).
Proof.
  destruct (Down_then_Up demoDriver "migrations" outOfOrderWorld
              (Down demoDriver "migrations" outOfOrderWorld).2
              (Up demoDriver "migrations" (Down demoDriver "migrations" outOfOrderWorld).2).2
              twoFiles) as (_ & Hsame & _).
  - intros Hempty. apply (f_equal (λ m : gmap string (string * nat), m !! "001")) in Hempty.
    vm_compute in Hempty. discriminate Hempty.
  - exact twoFilesDisk_loads.
  - intros f _. apply demoDriver_keeps_ledger.
  - apply demoDriver_forward.
  - vm_compute. reflexivity.
  - vm_compute. reflexivity.
  - apply Hsame. vm_compute. reflexivity.
Defined.

Lemma template_bodies_witness :
  template "add users table" (Format (noon 0)) = "-- Migration: add users table
-- Created: 2024-01-05 12:00:00

-- ==== UP ====


-- ==== DOWN ====

"
  ∧ parseSQL (template "add users table" (Format (noon 0))) = ("", "").
Proof.
  split; [vm_compute; reflexivity|].
  apply (template_bodies "add users table" (noon 0)); vm_compute; reflexivity.
Defined.

Lemma parseMigrationFile_created_witness :
  createdName "003" "Add index (users)" = "003_Add_index_users.sql"
  ∧ parseMigrationFile (Join "migrations" (createdName "003" "Add index (users)"))
      (File (template "Add index (users)" (Format (noon 0)))) =
    Ok (mkFile "003" "Add_index_users" "migrations/003_Add_index_users.sql" "" "").
Proof.
  split; [vm_compute; reflexivity|].
  refine (eq_trans
            (proj2 (proj2 (parseMigrationFile_created "migrations" "003" "Add index (users)"
                             (Format (noon 0)) _ _))) _).
  - apply String.eqb_neq. reflexivity.
  - reflexivity.
  - vm_compute. reflexivity.
Defined.

Lemma Create_adds_definition_witness :
  ∃ w' files',
    Create "migrations" noon openAccess "Add index (users)" appliedWorld = (Ok tt, w')
    ∧ db w' = db appliedWorld ∧ calls w' = calls appliedWorld
    ∧ stdout w' = stdout appliedWorld ++ ["Created migration: 003_Add_index_users.sql" +:+ nl]
    ∧ loadMigrationFiles "migrations" (disk w') = Ok files'
    ∧ files' ≡ₚ mkFile "003" "Add_index_users" "migrations/003_Add_index_users.sql" "" ""
                :: twoFiles.
Proof.
  destruct (Create_adds_definition "migrations" noon openAccess appliedWorld
              "Add index (users)"
              [("001_create_users.sql", File "-- ==== UP ====
CREATE TABLE users (id TEXT PRIMARY KEY);
-- ==== DOWN ====
DROP TABLE users;");
               ("002_create_posts.sql", File "-- ==== UP ====
CREATE TABLE posts (id TEXT PRIMARY KEY);
-- ==== DOWN ====
DROP TABLE posts;");
               ("README.md", File "notes")]
              twoFiles "003") as (w' & files' & Hcreate & Hdb & Hcalls & Hout & Hload & Hperm).
  - vm_compute. reflexivity.
  - vm_compute. reflexivity.
  - vm_compute. reflexivity.
  - reflexivity.
  - apply String.eqb_neq. vm_compute. reflexivity.
  - intros Hin. apply list_elem_of_In in Hin. vm_compute in Hin.
    destruct Hin as [H|[H|[H|[]]]]; discriminate H.
  - reflexivity.
  - exists w', files'. split; [exact Hcreate|]. split; [exact Hdb|]. split; [exact Hcalls|].
    split; [exact Hout|]. split; [exact Hload|]. exact Hperm.
Defined.

Lemma Create_unusable_name_witness :
  ∃ w',
    Create "migrations" noon openAccess "???" appliedWorld = (Ok tt, w')
    ∧ loadMigrationFiles "migrations" (disk w') =
        Err (Wrap "failed to parse migrations/003_.sql"
               (Raw "invalid migration filename format: 003_.sql"))
    ∧ getNextVersion "migrations" (disk w') =
        Err (Wrap "failed to parse migrations/003_.sql"
               (Raw "invalid migration filename format: 003_.sql")).
Proof.
  destruct (Create_unusable_name "migrations" noon openAccess appliedWorld "???"
              [("001_create_users.sql", File "-- ==== UP ====
CREATE TABLE users (id TEXT PRIMARY KEY);
-- ==== DOWN ====
DROP TABLE users;");
               ("002_create_posts.sql", File "-- ==== UP ====
CREATE TABLE posts (id TEXT PRIMARY KEY);
-- ==== DOWN ====
DROP TABLE posts;");
               ("README.md", File "notes")]
              twoFiles "003") as (_ & w' & err & Hcreate & Herr & Hload & Hnext & _).
  - vm_compute. reflexivity.
  - vm_compute. reflexivity.
  - vm_compute. reflexivity.
  - reflexivity.
  - vm_compute. reflexivity.
  - intros Hin. apply list_elem_of_In in Hin. vm_compute in Hin.
    destruct Hin as [H|[H|[H|[]]]]; discriminate H.
  - reflexivity.
  - exists w'. rewrite Herr in Hload, Hnext. split; [exact Hcreate|].
    split; [exact Hload|exact Hnext].
Defined.

Lemma Create_first_witness :
  ∃ w',
    Create "migrations" noon openAccess "create users" missingDirWorld = (Ok tt, w')
    ∧ stdout w' = ["Created migration: 001_create_users.sql" +:+ nl]
    ∧ loadMigrationFiles "migrations" (disk w') =
        Ok [mkFile "001" "create_users" "migrations/001_create_users.sql" "" ""]
    ∧ getNextVersion "migrations" (disk w') = Ok "002".
Proof.
  destruct (Create_first "migrations" noon openAccess missingDirWorld "create users"
              (ErrNotExist "migrations")) as (w' & Hcreate & _ & Hout & Hload & Hnext).
  - reflexivity.
  - reflexivity.
  - reflexivity.
  - reflexivity.
  - apply String.eqb_neq. vm_compute. reflexivity.
  - exists w'. split; [exact Hcreate|]. split; [exact Hout|]. split; [exact Hload|exact Hnext].
Defined.

Lemma Create_keeps_database_witness :
  ∃ w',
    Create "migrations" noon fullAccess "Add index (users)" appliedWorld =
      (Err (Wrap "failed to create migration file" (Raw "no space left on device")), w')
    ∧ db w' = db appliedWorld ∧ calls w' = calls appliedWorld
    ∧ stdout w' = stdout appliedWorld
    ∧ ∃ entries,
        disk w' = Ok (Dir entries)
        ∧ entries !! 2 = Some ("003_Add_index_users.sql", File "-- Migration: ").
Proof.
  exists (Create "migrations" noon fullAccess "Add index (users)" appliedWorld).2.
  assert (Create "migrations" noon fullAccess "Add index (users)" appliedWorld =
            (Err (Wrap "failed to create migration file" (Raw "no space left on device")),
             (Create "migrations" noon fullAccess "Add index (users)" appliedWorld).2)) as Hrun
    by (vm_compute; reflexivity).
  destruct (Create_keeps_database "migrations" noon fullAccess appliedWorld
              "Add index (users)" _ _ Hrun) as (Hdb & Hcalls & Hout & _ & _).
  split; [exact Hrun|]. split; [exact Hdb|]. split; [exact Hcalls|]. split; [exact Hout|].
  eexists. split; vm_compute; reflexivity.
Defined.

Lemma Status_reports_witness :
  ∃ w',
    Status demoDriver "migrations" noon (worldOf [("001", ("create_users", 7))] twoFilesDisk)
      = (Ok tt, w')
    ∧ stdout w' = ["Migration Status:" +:+ nl; "================" +:+ nl;
                   "✓ 001_create_users (applied: 2024-01-05 12:00:00)" +:+ nl;
                   "✗ 002_create_posts (pending)" +:+ nl].
Proof.
  destruct (Status_reports demoDriver "migrations" noon
              (worldOf [("001", ("create_users", 7))] twoFilesDisk) twoFiles)
    as (w' & Hstatus & _ & _ & _ & Hout & _).
  - exact twoFilesDisk_loads.
  - reflexivity.
  - exists w'. split; [exact Hstatus|]. rewrite Hout. vm_compute. reflexivity.
Defined.

Lemma getNextVersion_sorts_last_witness :
  getNextVersion "migrations" threeFilesDisk = Ok "008"
  ∧ ∀ f, f ∈ [mkFile "001" "create_users" "migrations/001_create_users.sql"
                "CREATE TABLE users (id TEXT PRIMARY KEY);" "";
              mkFile "002" "create_posts" "migrations/002_create_posts.sql"
                "CREATE TABLE posts (id TEXT PRIMARY KEY);" "";
              mkFile "007" "add_index" "migrations/007_add_index.sql"
                "CREATE INDEX idx_users ON users(id);" ""] →
         String.ltb (Version f) "008" = true.
Proof.
  split; [vm_compute; reflexivity|].
  apply (getNextVersion_sorts_last "migrations" threeFilesDisk).
  - vm_compute. reflexivity.
  - vm_compute. reflexivity.
  - reflexivity.
  - intros f Hf. apply list_elem_of_In in Hf.
    destruct Hf as [<-|[<-|[<-|[]]]]; reflexivity.
Defined.

Lemma no_migration_files_witness :
  Up demoDriver "migrations" emptyDirWorld =
    (Ok tt, printed emptyDirWorld ("No migrations found" +:+ nl))
  ∧ Down demoDriver "migrations" emptyDirWorld =
      (Err (Raw "migration file not found for version 001"), asked emptyDirWorld None).
Proof.
  destruct (no_migration_files demoDriver "migrations" noon emptyDirWorld)
    as (Hup & _ & Hdown).
  - reflexivity.
  - split; [exact Hup|]. rewrite Hdown. vm_compute. reflexivity.
Defined.

Lemma no_migrations_directory_witness :
  Up demoDriver "migrations" missingDirWorld =
    (Err (Wrap "failed to load migration files" (ErrNotExist "migrations")), missingDirWorld)
  ∧ Down demoDriver "migrations" missingDirWorld =
      (Ok tt, printed (asked missingDirWorld None) ("No migrations to rollback" +:+ nl))
  ∧ getNextVersion "migrations" (disk missingDirWorld) = Ok "001".
Proof.
  destruct (no_migrations_directory demoDriver "migrations" noon missingDirWorld
              (ErrNotExist "migrations")) as (Hup & _ & Hdown & Hnext).
  - reflexivity.
  - split; [exact Hup|]. split; [|exact Hnext]. rewrite Hdown. vm_compute. reflexivity.
Defined.
